(** * hb-hue-tools: the Hue protocol adapter

    A shallow embedding of [lib/HueClient.js], [lib/EventStreamClient.js],
    [lib/HueDiscovery.js] and [lib/HueError.js], and the properties of the
    request executor, the resource router, the write throttle, the event
    stream decoder and the discovery.

    Definitions:
    - [JS]: the JavaScript values and built-in operations the code uses.
    - [Eff]: a state-and-exception monad for the method bodies.
    - [HueClient]: [numberOfZigbeeMessages], [request], [request2], [get],
      [post], [delete], the API key and [getApiKey], [put] and its gate.
    - [EventStreamClient]: [listen] and its handlers, [close], [init],
      [_parseContainer], [_parseUpdate1], [_parseUpdate2].
    - [Reference], [StreamReference]: the notions the properties are
      stated with.  [Samples], [StreamSamples]: sample data.
    - [HueClientMore], [StreamMore], [MoreSamples], [MoreStreamSamples]:
      [getApplicationKey], [unlock], [touchlink], [restart], [search] and
      further notions and sample data.
    - [HueDiscovery]: [config], [_found] and the jobs of [discover], the
      hosts of [_upnp] and [_nupnp].  [HueError]: the constructor of
      [lib/HueError.js].
    - [Listener], [StreamListener]: the methods that emit ['error'], on a
      client with and without a listener for it.  [StreamRun]: the events
      of an event stream client, one after the other.

    Properties:
    - [HueClientFacts]: C1, C2, C3, C4, C5, C7, C9, C10.
    - [EventStreamClientFacts]: C6, C8.
    - [HueClientMoreFacts]: X1 to X15.
    - [EventStreamClientMoreFacts]: X16 to X23.
    - [HueDiscoveryFacts]: X24, X25.  [HueErrorFacts]: X26. *)

From Stdlib Require Import ZArith Floats Uint63 Ascii.
From stdpp Require Import gmap strings list pretty.

#[local] Set Warnings "-inexact-float,-register-all".
#[local] Open Scope string_scope.

(* ===================================================================== *)
(** * JavaScript values and built-ins *)
(* ===================================================================== *)

Module JS.

(** A JavaScript value as the code meets it: the result of [JSON.parse],
    [undefined], and the objects the code builds itself.  Numbers are IEEE
    754 binary64, as in the language.  An object is the list of its own
    enumerable properties in the order [Object.keys] enumerates them; what
    it inherits is described by [Prototypes] below.  A string is taken as
    its sequence of code units (one character each for ASCII text). *)
Inductive value : Type :=
| VUndef
| VNull
| VBool (b : bool)
| VNum (x : float)
| VStr (s : string)
| VArr (items : list value)
| VObj (fields : list (string * value)).

(** The parts of the runtime that are not arithmetic on binary64: number
    formatting, [StringToNumber] and [JSON.parse] ([None]: a [SyntaxError]
    is thrown). *)
Class Runtime : Type := {
  Number_toString : float -> string;
  String_toNumber : string -> float;
  JSON_parse : string -> option value
}.

(** [v == null] *)
Definition nullish (v : value) : bool :=
  match v with VUndef | VNull => true | _ => false end.

(** [typeof v === 'object' && v != null] *)
Definition is_object (v : value) : bool :=
  match v with VArr _ | VObj _ => true | _ => false end.

(** [ToBoolean] *)
Definition truthy (v : value) : bool :=
  match v with
  | VUndef | VNull => false
  | VBool b => b
  | VNum x => negb (PrimFloat.eqb x 0 || PrimFloat.is_nan x)
  | VStr s => negb (String.eqb s "")
  | VArr _ | VObj _ => true
  end.

(** [v === s] for a string literal [s] *)
Definition is_string (s : string) (v : value) : bool :=
  match v with VStr t => String.eqb t s | _ => false end.

(** [v === n] for a number literal [n] (not NaN); [Array.prototype.includes]
    compares the same way on such literals. *)
Definition is_number (n : float) (v : value) : bool :=
  match v with VNum x => PrimFloat.eqb x n | _ => false end.

Definition includes_number (l : list float) (v : value) : bool :=
  existsb (fun n => is_number n v) l.

(** ** Strings *)

(** [s.split(sep)] for a non-empty separator.  [skip] counts the characters
    of a separator just matched that are still to be passed over. *)
Fixpoint split_from (sep : string) (skip : nat) (cur : string) (s : string)
  : list string :=
  match s with
  | EmptyString => [cur]
  | String c s' =>
      match skip with
      | S k => split_from sep k cur s'
      | O =>
          if String.prefix sep s
          then cur :: split_from sep (String.length sep - 1) "" s'
          else split_from sep 0 (cur ++ String c "") s'
      end
  end.

Definition split (sep : string) (s : string) : list string :=
  split_from sep 0 "" s.

(** [a.join(sep)] on strings *)
Fixpoint join (sep : string) (l : list string) : string :=
  match l with
  | [] => ""
  | [x] => x
  | x :: l' => x ++ sep ++ join sep l'
  end.

(** [s.startsWith(p)] *)
Definition startsWith (p s : string) : bool := String.prefix p s.

(** [s.slice(1)] *)
Definition slice_1 (s : string) : string :=
  match s with EmptyString => "" | String _ s' => s' end.

(** [s.slice(0, -1)] *)
Fixpoint slice_0_m1 (s : string) : string :=
  match s with
  | EmptyString => ""
  | String c s' =>
      match s' with
      | EmptyString => ""
      | _ => String c (slice_0_m1 s')
      end
  end.

(** [s.slice(-2)] *)
Definition slice_m2 (s : string) : string :=
  let n := String.length s in String.substring (n - 2) 2 s.

(** White space of [String.prototype.trim] within ASCII. *)
Definition is_space (c : ascii) : bool :=
  match Ascii.nat_of_ascii c with
  | 9 | 10 | 11 | 12 | 13 | 32 => true
  | _ => false
  end.

Fixpoint trimStart (s : string) : string :=
  match s with
  | EmptyString => ""
  | String c s' => if is_space c then trimStart s' else s
  end.

Fixpoint trimEnd (s : string) : string :=
  match s with
  | EmptyString => ""
  | String c s' =>
      match trimEnd s' with
      | EmptyString => if is_space c then "" else String c ""
      | t => String c t
      end
  end.

Definition trim (s : string) : string := trimEnd (trimStart s).

(** The characters of a string, as the one-character strings that indexing
    and iteration yield. *)
Fixpoint chars (s : string) : list string :=
  match s with
  | EmptyString => []
  | String c s' => String c "" :: chars s'
  end.

(** ** Numbers *)

Definition float_of_Z (z : Z) : float :=
  if (z <? 0)%Z then PrimFloat.opp (PrimFloat.of_uint63 (Uint63.of_Z (- z)))
  else PrimFloat.of_uint63 (Uint63.of_Z z).

Definition float_of_nat (n : nat) : float := float_of_Z (Z.of_nat n).

(** [Math.round]: the integer closest to [x], ties towards +infinity,
    computed exactly on the binary expansion; [-0] for results that round
    to zero from below. *)
Definition Math_round (x : float) : float :=
  match Prim2SF x with
  | S754_finite s m e =>
      if (0 <=? e)%Z then x
      else
        let d := (2 ^ (- e))%Z in
        let q := if s then ((d - 2 * Z.pos m) / (2 * d))%Z
                 else ((2 * Z.pos m + d) / (2 * d))%Z in
        if (q =? 0)%Z then (if s then (-0)%float else 0%float)
        else float_of_Z q
  | _ => x
  end.

(** ** Coercions *)

Section WithRuntime.
Context {rt : Runtime}.

(** [ToString] *)
Fixpoint ToString (v : value) : string :=
  match v with
  | VUndef => "undefined"
  | VNull => "null"
  | VBool true => "true"
  | VBool false => "false"
  | VNum x => Number_toString x
  | VStr s => s
  | VArr l =>
      join "," (map (fun v => if nullish v then "" else ToString v) l)
  | VObj _ => "[object Object]"
  end.

(** [ToNumber] *)
Definition ToNumber (v : value) : float :=
  match v with
  | VUndef => PrimFloat.nan
  | VNull => 0%float
  | VBool true => 1%float
  | VBool false => 0%float
  | VNum x => x
  | VStr s => String_toNumber s
  | VArr _ => String_toNumber (ToString v)
  | VObj _ => PrimFloat.nan
  end.

End WithRuntime.

(** ** Properties *)

(** The array index a property name denotes, if it is the canonical decimal
    spelling of one. *)
Definition digit_of (c : ascii) : option nat :=
  let n := Ascii.nat_of_ascii c in
  if ((48 <=? n) && (n <=? 57))%nat then Some (n - 48)%nat else None.

Fixpoint digits_value (acc : nat) (s : string) : option nat :=
  match s with
  | EmptyString => Some acc
  | String c s' =>
      match digit_of c with
      | Some d => digits_value (10 * acc + d)%nat s'
      | None => None
      end
  end.

Definition index_of_key (key : string) : option nat :=
  match key with
  | EmptyString => None
  | String c rest =>
      if Ascii.eqb c "0"%char then (if String.eqb rest "" then Some 0 else None)
      else digits_value 0 key
  end.

(** First property of that name. *)
Fixpoint field (key : string) (fields : list (string * value)) : option value :=
  match fields with
  | [] => None
  | (k, v) :: rest => if String.eqb k key then Some v else field key rest
  end.

(** [v[key]] for [v] that is neither [null] nor [undefined]. *)
Definition member (v : value) (key : string) : value :=
  match v with
  | VObj fs => default VUndef (field key fs)
  | VArr l =>
      match index_of_key key with
      | Some i => default VUndef (l !! i)
      | None =>
          if String.eqb key "length" then VNum (float_of_nat (length l))
          else VUndef
      end
  | VStr s =>
      match index_of_key key with
      | Some i => default VUndef (VStr <$> chars s !! i)
      | None =>
          if String.eqb key "length"
          then VNum (float_of_nat (String.length s))
          else VUndef
      end
  | _ => VUndef
  end.

(** The decimal spelling of the indices [0 .. n-1]. *)
Definition index_keys (n : nat) : list string :=
  map (fun i : nat => pretty i) (seq 0 n).

(** The names [Object.keys(v)] lists, for [v] that is neither [null] nor
    [undefined]. *)
Definition own_keys (v : value) : list string :=
  match v with
  | VObj fs => map fst fs
  | VArr l => index_keys (length l)
  | VStr s => index_keys (String.length s)
  | _ => []
  end.

(** ** Inherited properties *)

(** What the objects and arrays of the model inherit from
    [Object.prototype] and [Array.prototype]: functions, and the prototype
    objects themselves, which are no values of the model ([foreign]).
    [inherited v key] is [v[key]] for an object or array [v] that has no
    own property [key]: [inl VUndef] when nothing of that name is
    inherited.  [foreign_is_object f] is [typeof f === 'object'], and
    [foreign_member f key] is [f[key]]. *)
Class Prototypes : Type := {
  foreign : Type;
  inherited : value -> string -> value + foreign;
  foreign_is_object : foreign -> bool;
  foreign_member : foreign -> string -> value + foreign
}.

(** [Object.hasOwn(v, key)] for [v] that is neither [null] nor
    [undefined]. *)
Definition has_own (v : value) (key : string) : bool :=
  bool_decide (key ∈ own_keys v) ||
  match v with
  | VArr _ | VStr _ => String.eqb key "length"
  | _ => false
  end.

(** [v[key]] for an object or array [v], own or inherited. *)
Definition get_property `{Prototypes} (v : value) (key : string)
  : value + foreign :=
  if has_own v key then inl (member v key) else inherited v key.

(** [b == null] *)
Definition is_nullish `{Prototypes} (b : value + foreign) : bool :=
  match b with inl v => nullish v | inr _ => false end.

(** [o[key] = v] on an object built by the code, for a name other than
    [__proto__]: the property keeps its place when it exists and is added
    last otherwise. *)
Fixpoint obj_set (key : string) (v : value) (fields : list (string * value))
  : list (string * value) :=
  match fields with
  | [] => [(key, v)]
  | (k, w) :: rest =>
      if String.eqb k key then (k, v) :: rest
      else (k, w) :: obj_set key v rest
  end.

End JS.

(* ===================================================================== *)
(** * Method bodies: state, exceptions, effects *)
(* ===================================================================== *)

Module Eff.
Import JS.

(** An error object, with the properties the code reads or sets.  The
    message is kept as the pieces of its template literal, in order; the
    text is the concatenation of their [ToString]. *)
Record JsError : Type := {
  err_name : string;
  err_message : list value;
  err_code : value;
  err_statusCode : value;
  err_type : value;
  err_description : value;
  err_nonCritical : value;
  err_request : value
}.

Definition plain_error (name : string) (message : list value) : JsError :=
  {| err_name := name; err_message := message;
     err_code := VUndef; err_statusCode := VUndef; err_type := VUndef;
     err_description := VUndef; err_nonCritical := VUndef;
     err_request := VUndef |}.

Definition TypeError (message : list value) : JsError :=
  plain_error "TypeError" message.

(** [error.message += ...] *)
Definition add_message (more : list value) (e : JsError) : JsError :=
  {| err_name := err_name e; err_message := (err_message e ++ more)%list;
     err_code := err_code e; err_statusCode := err_statusCode e;
     err_type := err_type e; err_description := err_description e;
     err_nonCritical := err_nonCritical e; err_request := err_request e |}.

(** How a call ends: it returns, it throws, or the recursion of the model
    ran out of fuel (shown not to happen for the functions below). *)
Inductive Result (A : Type) : Type :=
| Ok (a : A)
| Throw (e : JsError)
| OutOfFuel.
Arguments Ok {A} a.
Arguments Throw {A} e.
Arguments OutOfFuel {A}.

Definition M (S A : Type) : Type := S -> Result A * S.

Definition ret {S A} (a : A) : M S A := fun s => (Ok a, s).

Definition bind {S A B} (m : M S A) (k : A -> M S B) : M S B :=
  fun s =>
    match m s with
    | (Ok a, s') => k a s'
    | (Throw e, s') => (Throw e, s')
    | (OutOfFuel, s') => (OutOfFuel, s')
    end.

Definition throw {S A} (e : JsError) : M S A := fun s => (Throw e, s).

Definition out_of_fuel {S A} : M S A := fun s => (OutOfFuel, s).

(** [try { m } catch (error) { handler }] *)
Definition try_catch {S A} (m : M S A) (handler : JsError -> M S A) : M S A :=
  fun s =>
    match m s with
    | (Throw e, s') => handler e s'
    | r => r
    end.

Definition gets {S A} (f : S -> A) : M S A := fun s => (Ok (f s), s).

Definition modify {S} (f : S -> S) : M S unit := fun s => (Ok tt, f s).

(** [for (const x of l) { body }] threading an accumulator. *)
Fixpoint for_each {S A B} (body : A -> B -> M S B) (l : list A) (acc : B)
  : M S B :=
  match l with
  | [] => ret acc
  | x :: l' => bind (body x acc) (for_each body l')
  end.

Module Notations.
  Notation "x <- m ;; k" := (bind m (fun x => k))
    (at level 100, m at next level, right associativity).
  Notation "m ;; k" := (bind m (fun _ => k))
    (at level 100, right associativity).
End Notations.
Import Notations.

(** [v.key]: a [TypeError] on [null] and [undefined]. *)
Definition prop {S} (v : value) (key : string) : M S value :=
  if nullish v
  then throw (TypeError [VStr "Cannot read properties of "; v])
  else ret (member v key).

(** [Object.keys(v)]: a [TypeError] on [null] and [undefined]. *)
Definition keys {S} (v : value) : M S (list string) :=
  if nullish v
  then throw (TypeError [VStr "Cannot convert undefined or null to object"])
  else ret (own_keys v).

(** The elements [for (const x of v)] runs over. *)
Definition iterate {S} (v : value) : M S (list value) :=
  match v with
  | VArr l => ret l
  | VStr s => ret (VStr <$> chars s)
  | _ => throw (TypeError [v; VStr " is not iterable"])
  end.

End Eff.

(* ===================================================================== *)
(** * lib/HueClient.js *)
(* ===================================================================== *)

Module HueClient.
Import JS Eff Eff.Notations.

Definition apiV1Resources : list string :=
  ["capabilities"; "config"; "info"; "lights"; "groups"; "schedules";
   "scenes"; "sensors"; "rules"; "resourcelinks"].

(** API errors that could still cause (part of) the PUT command to be
    executed. *)
Definition nonCriticalApiErrorTypes : list float :=
  [6; 7; 8; 201]%float.

Definition includes (x : string) (l : list string) : bool :=
  existsb (String.eqb x) l.

(** ** numberOfZigbeeMessages *)

(** Estimate the number of Zigbee messages resulting from PUTting [body];
    [body = {}] when the argument is [undefined]. *)
Definition numberOfZigbeeMessages {S} (body : value) : M S Z :=
  let body := match body with VUndef => VObj [] | _ => body end in
  ks <- keys body ;;
  let n := 0%Z in
  let n := if includes "on" ks then (n + 1)%Z else n in
  let n := if includes "bri" ks || includes "bri_inc" ks
           then (n + 1)%Z else n in
  let n := if includes "xy" ks || includes "ct" ks || includes "hue" ks ||
              includes "sat" ks || includes "effect" ks
           then (n + 1)%Z else n in
  ret (if (n =? 0)%Z then 1%Z else n).

(** ** The client object and its surroundings *)

(** [this._options], the part the methods below use. *)
Record Options : Type := {
  o_apiKey : value;
  o_headers : value;
  o_path : string;
  o_waitTimePut : Z;
  o_waitTimePutGroup : Z;
  o_waitTimeResend : Z
}.

(** A call of the inherited [HttpClient.request], with [this.path] as it is
    when the call is made. *)
Record HttpCall : Type := {
  call_method : string;
  call_path : string;
  call_resource : string;
  call_body : value;
  call_headers : value
}.

(** The response object: what [HttpClient.request] returns, and the
    [errors] and [success] that [request] adds to it.  [resp_success] holds
    the own properties of [response.success] and, under the name
    [success_prototype], the prototype the object has been given, if it
    has been given one (see [assign_success]). *)
Record Response : Type := {
  resp_request : value;
  resp_statusCode : Z;
  resp_headers : value;
  resp_body : value;
  resp_errors : option (list value);
  resp_success : option (gmap string value)
}.

Inductive HttpResult : Type :=
| Responds (r : Response)
| Fails (e : JsError).

(** What the outside observes of a call, in order. *)
Inductive Effect : Type :=
| Http (c : HttpCall)
| EmitError (e : JsError)
| Timeout (ms : Z).

(** The client, the number of HTTP calls made so far and the effects so
    far. *)
Record Client : Type := {
  _options : Options;
  path : string;
  waitForIt : bool;
  sent : nat;
  trace : list Effect
}.

Definition set_options (o : Options) (c : Client) : Client :=
  {| _options := o; path := path c; waitForIt := waitForIt c;
     sent := sent c; trace := trace c |}.

Definition set_path (p : string) (c : Client) : Client :=
  {| _options := _options c; path := p; waitForIt := waitForIt c;
     sent := sent c; trace := trace c |}.

Definition log (e : Effect) (c : Client) : Client :=
  {| _options := _options c; path := path c; waitForIt := waitForIt c;
     sent := sent c; trace := (trace c ++ [e])%list |}.

Definition count_call (c : Client) : Client :=
  {| _options := _options c; path := path c; waitForIt := waitForIt c;
     sent := S (sent c); trace := trace c |}.

Definition set_body (b : value) (r : Response) : Response :=
  {| resp_request := resp_request r; resp_statusCode := resp_statusCode r;
     resp_headers := resp_headers r; resp_body := b;
     resp_errors := resp_errors r; resp_success := resp_success r |}.

Definition set_results (errors : list value) (success : gmap string value)
    (r : Response) : Response :=
  {| resp_request := resp_request r; resp_statusCode := resp_statusCode r;
     resp_headers := resp_headers r; resp_body := resp_body r;
     resp_errors := Some errors; resp_success := Some success |}.

(** [this.emit('error', error)], with a listener for it attached (for a
    client without one see [Listener]). *)
Definition emit_error (e : JsError) : M Client unit :=
  modify (log (EmitError e)).

(** [await timeout(ms)] *)
Definition timeout (ms : Z) : M Client unit :=
  modify (log (Timeout ms)).

Section WithBridge.
Context {prototypes : Prototypes}.

(** The bridge and the network: the outcome of the [n]-th HTTP call. *)
Variable net : nat -> HttpCall -> HttpResult.

(** [super.request(method, resource, body, headers)] *)
Definition super_request (method resource : string) (body headers : value)
  : M Client Response :=
  fun c =>
    let call := {| call_method := method; call_path := path c;
                   call_resource := resource; call_body := body;
                   call_headers := headers |} in
    let c' := count_call (log (Http call) c) in
    match net (sent c) call with
    | Responds r => (Ok r, c')
    | Fails e => (Throw e, c')
    end.

(** ** request *)

(** [nonCriticalApiErrorTypes.includes(e.type)] *)
Definition nonCritical (e : value) : bool :=
  includes_number nonCriticalApiErrorTypes (member e "type").

(** The error thrown and emitted for an ["error"] entry [e] of the body. *)
Definition api_error (request e : value) : JsError :=
  {| err_name := "Error";
     err_message := [member e "address"; VStr ": api error "; member e "type";
                     VStr ": "; member e "description"];
     err_code := VUndef;
     err_statusCode := VUndef;
     err_type := member e "type";
     err_description := member e "description";
     err_nonCritical := VBool (nonCritical e);
     err_request := request |}.

(** The entry pushed on [response.errors]. *)
Definition error_entry (e : value) : value :=
  VObj [("type", member e "type"); ("description", member e "description")].

(** The name under which the prototype given to [response.success] is
    kept.  It is the name of no own property: a name that [request] assigns
    to is a segment of a path and holds no slash. *)
Definition success_prototype : string := "/__proto__".

(** [response.success[key] = v].  The name [__proto__] is the one that
    [Object.prototype] has a setter for.  Unless [response.success] has a
    property of that name of its own by now, or has been given a prototype
    that is [null] or has such a property of its own, the assignment goes
    to the setter, which makes an object or [null] the prototype and does
    nothing with any other value: no own property is made.  Any other
    name becomes, or stays, an own property. *)
Definition assign_success (key : string) (v : value)
    (success : gmap string value) : gmap string value :=
  if negb (String.eqb key "__proto__") then <[key := v]> success
  else
    let own := match success !! "__proto__" with
               | Some _ => true
               | None => false
               end in
    let data := match success !! success_prototype with
                | Some p => nullish p || has_own p "__proto__"
                | None => false
                end in
    if own || data then <[key := v]> success
    else if is_object v || match v with VNull => true | _ => false end
    then <[success_prototype := v]> success
    else success.

(** [response.success[key] = s[path]] for each [path] of [ks], [key] being
    the last segment of [path]. *)
Definition flatten (s : value) (ks : list string)
    (success : gmap string value) : gmap string value :=
  foldl (fun success path =>
           let a := split "/" path in
           let key := default "undefined" (last a) in
           assign_success key (member s path) success)
        success ks.

(** The loop over [Object.keys(s)]. *)
Definition add_success (s : value) (success : gmap string value)
  : M Client (gmap string value) :=
  ks <- keys s ;;
  ret (flatten s ks success).

(** One turn of the loop over [response.body]. *)
Definition process_item (request : value) (item : value)
    (acc : list value * gmap string value)
  : M Client (list value * gmap string value) :=
  let errors := acc.1 in
  let success := acc.2 in
  e <- prop item "error" ;;
  errors <- (if negb (nullish e) && is_object e then
               let errors := (errors ++ [error_entry e])%list in
               let error := api_error request e in
               emit_error error ;;
               if negb (truthy (err_nonCritical error))
               then throw error
               else ret errors
             else ret errors) ;;
  s <- prop item "success" ;;
  success <- (if negb (nullish s) && is_object s
              then add_success s success
              else ret success) ;;
  ret (errors, success).

(** The [try] block of [request]. *)
Definition request_try (method resource : string) (body : value)
  : M Client Response :=
  response <- super_request method resource body VUndef ;;
  cl <- prop (resp_headers response) "content-length" ;;
  let response := if is_string "0" cl then set_body VNull response
                  else response in
  match resp_body response with
  | VArr items =>
      acc <- for_each (process_item (resp_request response)) items ([], ∅) ;;
      ret (set_results acc.1 acc.2 response)
  | _ => ret (set_results [] ∅ response)
  end.

(** The test of the [catch] blocks: connection reset, HTTP 503 or api
    error 901. *)
Definition transient (error : JsError) : bool :=
  is_string "ECONNRESET" (err_code error) ||
  is_number 503 (err_statusCode error) ||
  is_number 901 (err_type error).

Definition retry_message (waitTimeResend : Z) : list value :=
  [VStr " - retry in "; VNum (float_of_Z waitTimeResend); VStr "ms"].

(** [request(method, resource, body, retry)]; [fuel] bounds the depth of
    the recursion. *)
Fixpoint request_loop (fuel : nat) (method resource : string) (body : value)
    (retry : nat) : M Client Response :=
  try_catch (request_try method resource body)
    (fun error =>
       if transient error then
         waitTimeResend <- gets (fun c => o_waitTimeResend (_options c)) ;;
         if negb (nullish (err_request error)) &&
            (0 <? waitTimeResend)%Z && (retry <? 5)%nat
         then
           let error := add_message (retry_message waitTimeResend) error in
           emit_error error ;;
           timeout waitTimeResend ;;
           match fuel with
           | S fuel' => request_loop fuel' method resource body (retry + 1)
           | O => out_of_fuel
           end
         else throw error
       else throw error).

(** [body = null] by default. *)
Definition or_null (body : value) : value :=
  match body with VUndef => VNull | _ => body end.

Definition request (method resource : string) (body : value) (retry : nat)
  : M Client Response :=
  request_loop (5 - retry) method resource (or_null body) retry.

(** ** request2 *)

(** [response.body?.errors ?? []] *)
Definition body_errors (body : value) : value :=
  if nullish body then VArr []
  else let e := member body "errors" in if nullish e then VArr [] else e.

Definition request2_try (method resource : string) (body : value)
  : M Client Response :=
  headers <- gets (fun c => o_headers (_options c)) ;;
  response <- super_request method resource body headers ;;
  es <- iterate (body_errors (resp_body response)) ;;
  for_each (fun e (_ : unit) =>
              emit_error (plain_error "Error" [VStr "api error "; e]))
           es tt ;;
  data <- prop (resp_body response) "data" ;;
  ret (set_body data response).

Definition request2 (method resource : string) (body : value) (retry : nat)
  : M Client Response :=
  let body := or_null body in
  try_catch (request2_try method resource body)
    (fun error =>
       if transient error then
         waitTimeResend <- gets (fun c => o_waitTimeResend (_options c)) ;;
         if negb (nullish (err_request error)) &&
            (0 <? waitTimeResend)%Z && (retry <? 5)%nat
         then
           let error := add_message (retry_message waitTimeResend) error in
           emit_error error ;;
           timeout waitTimeResend ;;
           request method resource body (retry + 1)
         else throw error
       else throw error).


(** ** get *)

(** Where a resource goes: the API version, the resource to request and
    the keys left to walk down the response ([path]). *)
Record Route : Type := {
  rt_v2 : bool;
  rt_resource : string;
  rt_path : list string
}.

(** The [switch] of [get]. *)
Definition route (resource : string) : Route :=
  let path := split "/" (slice_1 resource) in
  match path with
  | [] => {| rt_v2 := true; rt_resource := resource; rt_path := [] |}
  | p0 :: rest =>
      if includes p0 [""; "capabilities"; "config"] then
        if (1 <? length path)%nat
        then {| rt_v2 := false; rt_resource := "/" ++ p0; rt_path := rest |}
        else {| rt_v2 := false; rt_resource := resource; rt_path := [] |}
      else if includes p0 ["info"; "lights"; "groups"; "schedules"; "scenes";
                           "sensors"; "rules"; "resourcelinks"] then
        match rest with
        | p1 :: rest' =>
            if (2 <? length path)%nat
            then {| rt_v2 := false; rt_resource := "/" ++ p0 ++ "/" ++ p1;
                    rt_path := rest' |}
            else {| rt_v2 := false; rt_resource := resource; rt_path := [] |}
        | [] => {| rt_v2 := false; rt_resource := resource; rt_path := [] |}
        end
      else
        let resource := if String.eqb p0 "resource" then "/" else resource in
        match rest with
        | p1 :: rest' =>
            {| rt_v2 := true; rt_resource := "/" ++ p0 ++ "/" ++ p1;
               rt_path := "0" :: rest' |}
        | [] => {| rt_v2 := true; rt_resource := resource; rt_path := [] |}
        end
  end.

(** The base path of the API v2: [this.path] for a v2 request. *)
Definition clip_v2 : string := "/clip/v2/resource".

(** [if (typeof body === 'object' && body != null) body = body[key]] *)
Definition descend (body : value + foreign) (key : string)
  : value + foreign :=
  match body with
  | inl v => if is_object v then get_property v key else body
  | inr f => if foreign_is_object f then foreign_member f key else body
  end.

(** [for (const key of path) { if (typeof body === 'object' && body != null)
    body = body[key] }] *)
Definition navigate (path : list string) (body : value) : value + foreign :=
  foldl descend (inl body) path.

(** The error of [get] for keys that lead nowhere. *)
Definition NotFound (path : list string) (resource : string) : JsError :=
  plain_error "Error"
    [VStr "/"; VStr (join "/" path); VStr ": not found in resource ";
     VStr resource].

(** [get] up to [await request('GET', resource)]. *)
Definition get_request (resource : string) : M Client Response :=
  p <- gets (fun c => o_path (_options c)) ;;
  modify (set_path p) ;;
  let r := route resource in
  (if rt_v2 r then modify (set_path clip_v2) else ret tt) ;;
  (if rt_v2 r then request2 else request) "GET" (rt_resource r) VUndef 0.

Definition get (resource : string) : M Client (value + foreign) :=
  if negb (startsWith "/" resource)
  then throw (TypeError [VStr resource; VStr ": invalid resource"])
  else
    response <- get_request resource ;;
    let r := route resource in
    let body := navigate (rt_path r) (resp_body response) in
    if is_nullish body && (0 <? length (rt_path r))%nat
    then throw (NotFound (rt_path r) (rt_resource r))
    else ret body.

(** ** post, delete, and put once past the gate *)

(** [apiV1Resources.includes(resource.slice(1).split('/')[0])] *)
Definition is_v1 (resource : string) : bool :=
  match split "/" (slice_1 resource) with
  | p0 :: _ => includes p0 apiV1Resources
  | [] => false
  end.

(** The two branches that [put], [post] and [delete] end with. *)
Definition dispatch (method resource : string) (body : value)
  : M Client Response :=
  if is_v1 resource then
    p <- gets (fun c => o_path (_options c)) ;;
    modify (set_path p) ;;
    request method resource body 0
  else
    modify (set_path clip_v2) ;;
    request2 method resource body 0.

Definition post (resource : string) (body : value) : M Client Response :=
  dispatch "POST" resource body.

Definition delete (resource : string) (body : value) : M Client Response :=
  dispatch "DELETE" resource body.

End WithBridge.

(** ** The API key *)

Section Credentials.
Context {rt : Runtime}.

(** [set apiKey (value)] *)
Definition set_apiKey (value : value) (o : Options) : Options :=
  {| o_apiKey := value;
     o_headers := VObj [("hue-application-key", value)];
     o_path := if negb (nullish value) then "/api" ++ "/" ++ ToString value
               else "/api";
     o_waitTimePut := o_waitTimePut o;
     o_waitTimePutGroup := o_waitTimePutGroup o;
     o_waitTimeResend := o_waitTimeResend o |}.

(** The part of the constructor that sets up [_options.path] and
    [_options.headers] from [_options.apiKey] as the option parser has left
    it: [undefined] when no key is given, the key otherwise (the parser
    rejects a key that is no string or is empty). *)
Definition new_options (apiKey : value)
    (waitTimePut waitTimePutGroup waitTimeResend : Z) : Options :=
  {| o_apiKey := apiKey;
     o_headers := if truthy apiKey
                  then VObj [("hue-application-key", apiKey)] else VUndef;
     o_path := if truthy apiKey then "/api" ++ "/" ++ ToString apiKey
               else "/api";
     o_waitTimePut := waitTimePut;
     o_waitTimePutGroup := waitTimePutGroup;
     o_waitTimeResend := waitTimeResend |}.

(** The network, and [os.hostname()]. *)
Variable net : nat -> HttpCall -> HttpResult.
Variable hostname : string.

(** [success.username], own or inherited from the prototype that
    [success] has been given. *)
Definition username (success : gmap string value) : value :=
  match success !! "username" with
  | Some v => v
  | None =>
      match success !! success_prototype with
      | Some p => member p "username"
      | None => VUndef
      end
  end.

(** [response.success.username] *)
Definition success_username (response : Response) : M Client value :=
  match resp_success response with
  | Some success => ret (username success)
  | None => throw (TypeError [VStr "Cannot read properties of undefined"])
  end.

Definition getApiKey (application : string) : M Client value :=
  if String.eqb application ""
  then throw (TypeError [VStr application; VStr ": invalid application name"])
  else
    apiKey <- gets (fun c => o_apiKey (_options c)) ;;
    let body :=
      VObj [("devicetype",
             VStr (application ++ "#" ++ hd "" (split "." hostname)))] in
    modify (fun c => set_options (set_apiKey VNull (_options c)) c) ;;
    try_catch
      (modify (set_path "/api") ;;
       response <- request net "POST" "/" body 0 ;;
       username <- success_username response ;;
       modify (fun c => set_options (set_apiKey username (_options c)) c) ;;
       gets (fun c => o_apiKey (_options c)))
      (fun error =>
         modify (fun c => set_options (set_apiKey apiKey (_options c)) c) ;;
         throw error).

End Credentials.

(** ** put and the gate *)

Section Throttle.

(** A call of [put] that is waiting for ['_go']. *)
Record PutCall : Type := {
  put_resource : string;
  put_body : value
}.

(** What a call of [put], [post] or [delete] came to: it went on to
    [request] or [request2] (see [dispatch]), or it was rejected before
    that.  [gate] is the value of [this.waitForIt] that the call found when
    it reached the statements after its wait, if it has one. *)
Inductive Outcome : Type :=
| Started (method resource : string) (body : value) (gate : bool)
| Rejected (resource : string) (e : JsError).

(** The client, the calls of [put] held at [await once(this, '_go')] in
    the order they arrived there, the timers set and not yet fired, and
    what has happened so far. *)
Record Session : Type := {
  client : Client;
  waiting : list PutCall;
  timers : list Z;
  outcomes : list Outcome
}.

Definition set_waitForIt (b : bool) (c : Client) : Client :=
  {| _options := _options c; path := path c; waitForIt := b;
     sent := sent c; trace := trace c |}.

Definition record (o : Outcome) (s : Session) : Session :=
  {| client := client s; waiting := waiting s; timers := timers s;
     outcomes := (outcomes s ++ [o])%list |}.

(** [this.waitForIt = true; setTimeout(..., timeout)] *)
Definition close_gate (timeout : Z) (s : Session) : Session :=
  {| client := set_waitForIt true (client s); waiting := waiting s;
     timers := (timers s ++ [timeout])%list; outcomes := outcomes s |}.

Definition wait (w : PutCall) (s : Session) : Session :=
  {| client := client s; waiting := (waiting s ++ [w])%list;
     timers := timers s; outcomes := outcomes s |}.

(** [put] from the computation of [timeout] on. *)
Definition put_pass (w : PutCall) (s : Session) : Session :=
  match numberOfZigbeeMessages (put_body w) (client s) with
  | (Ok n, _) =>
      let o := _options (client s) in
      let timeout :=
        (n * (if startsWith "/groups" (put_resource w)
              then o_waitTimePutGroup o else o_waitTimePut o))%Z in
      let gate := waitForIt (client s) in
      let s := if (0 <? timeout)%Z then close_gate timeout s else s in
      record (Started "PUT" (put_resource w) (put_body w) gate) s
  | (Throw e, _) => record (Rejected (put_resource w) e) s
  | (OutOfFuel, _) => s
  end.

(** [put] at the test of [this.waitForIt], on entry and after each
    [await once(this, '_go')]. *)
Definition put (w : PutCall) (s : Session) : Session :=
  if waitForIt (client s) then wait w s else put_pass w s.

(** The calls held at [await once(this, '_go')] go on, one after the
    other in the order they arrived, when ['_go'] is emitted, and also
    when ['error'] is, which makes [once] throw. *)
Definition resume_all (s : Session) : Session :=
  foldl (fun s w => put w s)
        {| client := client s; waiting := []; timers := timers s;
           outcomes := outcomes s |}
        (waiting s).

(** The callback of [setTimeout]. *)
Definition timer_fires (s : Session) : Session :=
  match timers s with
  | [] => s
  | _ :: rest =>
      resume_all
        {| client := set_waitForIt false (client s); waiting := waiting s;
           timers := rest; outcomes := outcomes s |}
  end.

Inductive Event : Type :=
| CallPut (resource : string) (body : value)
| CallPost (resource : string) (body : value)
| CallDelete (resource : string) (body : value)
| TimerFires
| ErrorEmitted.

Definition step (s : Session) (ev : Event) : Session :=
  match ev with
  | CallPut resource body =>
      put {| put_resource := resource; put_body := body |} s
  | CallPost resource body =>
      record (Started "POST" resource body (waitForIt (client s))) s
  | CallDelete resource body =>
      record (Started "DELETE" resource body (waitForIt (client s))) s
  | TimerFires => timer_fires s
  | ErrorEmitted => resume_all s
  end.

Definition run (events : list Event) (s : Session) : Session :=
  foldl step s events.

(** A client just constructed ([this.waitForIt = false]), on which no call
    has been made yet. *)
Definition new_session (c : Client) : Session :=
  {| client := set_waitForIt false c;
     waiting := []; timers := []; outcomes := [] |}.

End Throttle.

End HueClient.

(* ===================================================================== *)
(** * lib/EventStreamClient.js *)
(* ===================================================================== *)

Module EventStreamClient.
Import JS Eff Eff.Notations.

(** [this.options], the part the methods below use; [name] is
    [this.options.client.name]. *)
Record Options : Type := {
  retryTime : Z;
  raw : bool;
  version : nat;
  url : string;
  resource : string;
  name : string
}.

(** What the outside observes, in order: events emitted, the wait before
    a reconnect, requests opened by [listen] and destroyed by [close]. *)
Inductive Effect : Type :=
| Emit (event : string) (args : list value)
| EmitError (e : JsError)
| Sleep (ms : Z)
| Opened (id : nat)
| Destroyed (id : nat).

(** The client: [this.request] (the id of the request it holds, if any),
    [this.listening], [this.requestId], [this.buttonMap], the text [s]
    gathered by the ['data'] handler, the sockets that carry the ['close']
    listener of [listen] (named by the id of their request), and the
    effects so far. *)
Record Stream : Type := {
  options : Options;
  request : option nat;
  listening : bool;
  requestId : nat;
  buttonMap : option (gmap string float);
  s : string;
  sockets : list nat;
  effects : list Effect
}.

Definition log (e : Effect) (c : Stream) : Stream :=
  {| options := options c; request := request c; listening := listening c;
     requestId := requestId c; buttonMap := buttonMap c; s := s c;
     sockets := sockets c; effects := (effects c ++ [e])%list |}.

Definition set_request (r : option nat) (c : Stream) : Stream :=
  {| options := options c; request := r; listening := listening c;
     requestId := requestId c; buttonMap := buttonMap c; s := s c;
     sockets := sockets c; effects := effects c |}.

Definition set_listening (b : bool) (c : Stream) : Stream :=
  {| options := options c; request := request c; listening := b;
     requestId := requestId c; buttonMap := buttonMap c; s := s c;
     sockets := sockets c; effects := effects c |}.

Definition set_requestId (n : nat) (c : Stream) : Stream :=
  {| options := options c; request := request c; listening := listening c;
     requestId := n; buttonMap := buttonMap c; s := s c;
     sockets := sockets c; effects := effects c |}.

Definition set_buttonMap (m : gmap string float) (c : Stream) : Stream :=
  {| options := options c; request := request c; listening := listening c;
     requestId := requestId c; buttonMap := Some m; s := s c;
     sockets := sockets c; effects := effects c |}.

Definition set_s (t : string) (c : Stream) : Stream :=
  {| options := options c; request := request c; listening := listening c;
     requestId := requestId c; buttonMap := buttonMap c; s := t;
     sockets := sockets c; effects := effects c |}.

Definition add_socket (id : nat) (c : Stream) : Stream :=
  {| options := options c; request := request c; listening := listening c;
     requestId := requestId c; buttonMap := buttonMap c; s := s c;
     sockets := (sockets c ++ [id])%list; effects := effects c |}.

Definition emit (event : string) (args : list value) : M Stream unit :=
  modify (log (Emit event args)).

(** [this.emit('error', error)], with a listener for it attached (for a
    client without one see [StreamListener]). *)
Definition emit_error (e : JsError) : M Stream unit :=
  modify (log (EmitError e)).

(** [this.options.url + this.options.resource] *)
Definition stream_url (c : Stream) : string :=
  url (options c) ++ resource (options c).

(** ** listen and close *)

(** [listen()]: a new request, numbered [++this.requestId], becomes
    [this.request]. *)
Definition listen : M Stream unit :=
  id <- gets (fun c => S (requestId c)) ;;
  modify (set_requestId id) ;;
  modify (set_request (Some id)) ;;
  modify (log (Opened id)).

(** [close(retry)] *)
Definition close (retry : bool) : M Stream unit :=
  r <- gets request ;;
  match r with
  | Some id => modify (log (Destroyed id)) ;; modify (set_request None)
  | None => ret tt
  end ;;
  l <- gets listening ;;
  (if l then
     u <- gets stream_url ;;
     emit "closed" [VStr u] ;;
     modify (set_listening false)
   else ret tt) ;;
  t <- gets (fun c => retryTime (options c)) ;;
  if retry && (0 <? t)%Z then
    modify (log (Sleep (t * 1000))) ;;
    listen
  else ret tt.

(** [requestInfo] of the request numbered [id]. *)
Definition requestInfo (id : nat) (c : Stream) : value :=
  VObj [("name", VStr (name (options c)));
        ("id", VNum (float_of_nat id));
        ("method", VStr "GET");
        ("resource", VStr (resource (options c)));
        ("url", VStr (stream_url c))].

(** The handler of ['socket'] on the request numbered [id]: the socket
    gets its ['close'] listener. *)
Definition on_socket (id : nat) : M Stream unit :=
  info <- gets (requestInfo id) ;;
  emit "request" [info] ;;
  modify (add_socket id).

(** The handler of the socket's ['close']. *)
Definition on_socket_close : M Stream unit :=
  try_catch (close true) emit_error.

(** The handler of ['response'] on the request numbered [id]. *)
Definition on_response (id : nat) : M Stream unit :=
  info <- gets (requestInfo id) ;;
  emit "response"
    [VObj [("statusCode", VNum 200); ("statusMessage", VStr "OK");
           ("request", info)]] ;;
  modify (set_listening true) ;;
  u <- gets stream_url ;;
  emit "listening" [VStr u] ;;
  modify (set_s "").

Section WithRuntime.
Context {rt : Runtime}.

(** ** init *)

(** [this.buttonMap[key] = x] for a number [x].  The name [__proto__]
    goes to the setter of [Object.prototype], which does nothing with a
    number. *)
Definition set_button (key : string) (x : float) : M Stream unit :=
  m <- gets buttonMap ;;
  match m with
  | Some m =>
      if String.eqb key "__proto__" then ret tt
      else modify (set_buttonMap (<[key := x]> m))
  | None => throw (TypeError [VStr "Cannot set properties of undefined"])
  end.

(** [init()], [response] being what [client.get('/button')] returned. *)
Definition init (response : value) : M Stream unit :=
  v <- gets (fun c => version (options c)) ;;
  m <- gets buttonMap ;;
  if (v =? 1)%nat && (match m with None => true | Some _ => false end) then
    modify (set_buttonMap ∅) ;;
    buttons <- iterate response ;;
    for_each
      (fun button (_ : unit) =>
         id <- prop button "id" ;;
         metadata <- prop button "metadata" ;;
         control_id <- prop metadata "control_id" ;;
         set_button (ToString id) (ToNumber control_id * 1000)%float)
      buttons tt ;;
    modify (set_requestId 1)
  else ret tt.

(** ** _parseUpdate1 *)

(** The objects [attr], [state] and [config] of one turn of the loop. *)
Record Changes : Type := {
  attr : list (string * value);
  state : list (string * value);
  config : list (string * value)
}.

Definition set_attr (key : string) (v : value) (ch : Changes) : Changes :=
  {| attr := obj_set key v (attr ch); state := state ch;
     config := config ch |}.

Definition set_state (key : string) (v : value) (ch : Changes) : Changes :=
  {| attr := attr ch; state := obj_set key v (state ch);
     config := config ch |}.

Definition set_config (key : string) (v : value) (ch : Changes) : Changes :=
  {| attr := attr ch; state := state ch;
     config := obj_set key v (config ch) |}.

(** [resource.startsWith(p)] *)
Definition starts_with (resource : value) (p : string) : M Stream bool :=
  match resource with
  | VStr r => ret (startsWith p r)
  | _ => throw (TypeError [VStr "resource.startsWith is not a function"])
  end.

(** [v.slice(0, -1)] *)
Definition slice_off_last (v : value) : M Stream value :=
  match v with
  | VStr t => ret (VStr (slice_0_m1 t))
  | VArr l => ret (VArr (removelast l))
  | _ => throw (TypeError [VStr "slice is not a function"])
  end.

(** The phases of a button event. *)
Definition button_phase (event : string) : option float :=
  if String.eqb event "initial_press" then Some 0%float
  else if String.eqb event "repeat" then Some 1%float
  else if String.eqb event "short_release" then Some 2%float
  else if String.eqb event "long_release" then Some 3%float
  else None.

(** A number that may be [undefined], as an operand of [+]. *)
Definition operand (x : option float) : float := default PrimFloat.nan x.

(** The [switch (key)]. *)
Definition parse_key (obj data resource : value) (key : string)
    (ch : Changes) : M Stream Changes :=
  let value := member data key in
  if String.eqb key "on" then
    on <- prop value "on" ;;
    ret (set_state "on" on ch)
  else if String.eqb key "dimming" then
    brightness <- prop value "brightness" ;;
    ret (set_state "bri"
           (VNum (Math_round (ToNumber brightness * 2.54)%float)) ch)
  else if String.eqb key "color" then
    xy <- prop value "xy" ;;
    x <- prop xy "x" ;;
    y <- prop xy "y" ;;
    ret (set_state "xy" (VArr [x; y]) ch)
  else if String.eqb key "color_temperature" then
    mirek_valid <- prop value "mirek_valid" ;;
    if truthy mirek_valid then
      mirek <- prop value "mirek" ;;
      ret (set_state "ct" mirek ch)
    else ret ch
  else if String.eqb key "status" then
    sensors <- starts_with resource "/sensors" ;;
    if sensors then
      ret (set_config "reachable" (VBool (is_string "connected" value)) ch)
    else
      scenes <- starts_with resource "/scenes" ;;
      if scenes then
        active <- prop value "active" ;;
        ret (set_attr "active" active ch)
      else
        ret (set_state "reachable" (VBool (is_string "connected" value)) ch)
  else if String.eqb key "button" then
    map <- gets buttonMap ;;
    match map with
    | None => throw (TypeError [VStr "Cannot read properties of undefined"])
    | Some map =>
        let base := map !! ToString (member data "id") in
        button_report <- prop value "button_report" ;;
        event <- prop button_report "event" ;;
        let ch := set_state "buttonevent"
                    (VNum (operand base +
                           operand (button_phase (ToString event)))%float)
                    ch in
        updated <- prop button_report "updated" ;;
        lastupdated <- slice_off_last updated ;;
        ret (set_state "lastupdated" lastupdated ch)
    end
  else if String.eqb key "relative_rotary" then
    rotary_report <- prop value "rotary_report" ;;
    action <- prop rotary_report "action" ;;
    let ch := set_state "rotaryevent"
                (VNum (if is_string "start" action then 1 else 2)%float) ch in
    rotation <- prop rotary_report "rotation" ;;
    steps <- prop rotation "steps" ;;
    direction <- prop rotation "direction" ;;
    let ch := set_state "expectedrotation"
                (VNum (ToNumber steps *
                       (if is_string "clock_wise" direction then 1 else -1))%float)
                ch in
    duration <- prop rotation "duration" ;;
    let ch := set_state "expectedeventduration" duration ch in
    updated <- prop rotary_report "updated" ;;
    lastupdated <- slice_off_last updated ;;
    ret (set_state "lastupdated" lastupdated ch)
  else if String.eqb key "motion" then
    motion_valid <- prop value "motion_valid" ;;
    if truthy motion_valid then
      motion <- prop value "motion" ;;
      let ch := set_state "presence" motion ch in
      creationtime <- prop obj "creationtime" ;;
      lastupdated <- slice_off_last creationtime ;;
      ret (set_state "lastupdated" lastupdated ch)
    else ret ch
  else if String.eqb key "light" then
    light_level_valid <- prop value "light_level_valid" ;;
    if truthy light_level_valid then
      light_level <- prop value "light_level" ;;
      let ch := set_state "lightlevel" light_level ch in
      creationtime <- prop obj "creationtime" ;;
      lastupdated <- slice_off_last creationtime ;;
      ret (set_state "lastupdated" lastupdated ch)
    else ret ch
  else if String.eqb key "temperature" then
    temperature_valid <- prop value "temperature_valid" ;;
    if truthy temperature_valid then
      temperature <- prop value "temperature" ;;
      let ch := set_state "temperature"
                  (VNum (Math_round (ToNumber temperature * 100)%float)) ch in
      creationtime <- prop obj "creationtime" ;;
      lastupdated <- slice_off_last creationtime ;;
      ret (set_state "lastupdated" lastupdated ch)
    else ret ch
  else if String.eqb key "enabled" then
    ret (set_config "on" value ch)
  else if String.eqb key "metadata" then
    name <- prop value "name" ;;
    ret (set_attr "name" name ch)
  else ret ch.

Definition nonempty (o : list (string * value)) : bool :=
  match o with [] => false | _ => true end.

(** One turn of the loop over [obj.data]. *)
Definition parse_data1 (obj data : value) : M Stream unit :=
  resource <- prop data "id_v1" ;;
  ks <- keys data ;;
  ch <- for_each (parse_key obj data resource) ks
          {| attr := []; state := []; config := [] |} ;;
  let emitted := negb (nullish resource) &&
                 (nonempty (attr ch) || nonempty (state ch) ||
                  nonempty (config ch)) in
  (if negb (nullish resource) then
     (if nonempty (attr ch)
      then emit "changed" [resource; VObj (attr ch)] else ret tt) ;;
     (if nonempty (state ch)
      then emit "changed"
             [VStr (ToString resource ++ "/state"); VObj (state ch)]
      else ret tt) ;;
     (if nonempty (config ch)
      then emit "changed"
             [VStr (ToString resource ++ "/config"); VObj (config ch)]
      else ret tt)
   else ret tt) ;;
  if negb emitted then emit "notification" [obj] else ret tt.

Definition _parseUpdate1 (obj : value) : M Stream unit :=
  data <- prop obj "data" ;;
  l <- iterate data ;;
  for_each (fun data (_ : unit) => parse_data1 obj data) l tt.

(** ** _parseUpdate2 *)

(** [['', data.type, data.id].join('/')] *)
Definition resource2 (type id : value) : string :=
  join "/" (map (fun v => if nullish v then "" else ToString v)
              [VStr ""; type; id]).

(** [attr[key] = v] in [_parseUpdate2], where each key comes once.  The
    name [__proto__] goes to the setter of [Object.prototype]: no own
    property is made of it (an object or [null] becomes the prototype of
    [attr], which is not kept here). *)
Definition set_attribute (key : string) (v : value)
    (attr : list (string * value)) : list (string * value) :=
  if String.eqb key "__proto__" then attr else obj_set key v attr.

Definition parse_data2 (obj data : value) : M Stream unit :=
  type <- prop data "type" ;;
  id <- prop data "id" ;;
  let resource := resource2 type id in
  ks <- keys data ;;
  let attr :=
    foldl (fun attr key =>
             if negb (existsb (String.eqb key) ["id"; "id_v1"; "owner"; "type"])
             then set_attribute key (member data key) attr else attr)
          [] ks in
  if nonempty attr then emit "changed" [VStr resource; VObj attr]
  else emit "notification" [obj].

Definition _parseUpdate2 (obj : value) : M Stream unit :=
  data <- prop obj "data" ;;
  l <- iterate data ;;
  for_each (fun data (_ : unit) => parse_data2 obj data) l tt.

(** ** _parseContainer *)

Definition _parseContainer (container : value) : M Stream unit :=
  l <- iterate container ;;
  for_each
    (fun obj (_ : unit) =>
       type <- prop obj "type" ;;
       if is_string "update" type then
         v <- gets (fun c => version (options c)) ;;
         match v with
         | 1 => _parseUpdate1 obj
         | 2 => _parseUpdate2 obj
         | _ => throw (TypeError [VStr "this[...] is not a function"])
         end
       else emit "notification" [obj])
    l tt.

(** ** The ['data'] handler of the response *)

(** The handler is given here for the text of a chunk; [StreamListener]
    has it for the bytes. *)

Definition parse_line (line : string) : M Stream unit :=
  let a := split ": " line in
  if String.eqb (default "" (a !! 0%nat)) "data" then
    match JSON_parse (default "undefined" (a !! 1%nat)) with
    | Some container =>
        r <- gets (fun c => raw (options c)) ;;
        if r then emit "notification" [container]
        else _parseContainer container
    | None => throw (plain_error "SyntaxError" [VStr "JSON.parse"])
    end
  else ret tt.

Definition on_data (buffer : string) : M Stream unit :=
  try_catch
    (t <- gets (fun c => s c ++ buffer) ;;
     modify (set_s t) ;;
     if negb (String.eqb (slice_m2 t) (String "010" (String "010" "")))
     then ret tt
     else
       let t := trim t in
       modify (set_s t) ;;
       emit "data" [VStr t] ;;
       let lines := split (String "010" "") t in
       modify (set_s "") ;;
       for_each (fun line (_ : unit) => parse_line line) lines tt)
    emit_error.

(** ** What happens to the client *)

(** The calls of its user and the events of the request it holds, of the
    response and of the sockets.  [close] removes the listeners of the
    request it destroys; nothing removes the ['close'] listener of a
    socket. *)
Inductive Event : Type :=
| UserListen
| UserClose
| SocketAssigned
| ResponseArrives
| Data (buffer : string)
| SocketClosed (id : nat).

Definition handle (ev : Event) : M Stream unit :=
  match ev with
  | UserListen => listen
  | UserClose => close false
  | SocketAssigned =>
      r <- gets request ;;
      match r with Some id => on_socket id | None => ret tt end
  | ResponseArrives =>
      r <- gets request ;;
      match r with Some id => on_response id | None => ret tt end
  | Data buffer =>
      l <- gets listening ;;
      if l then on_data buffer else ret tt
  | SocketClosed id =>
      ss <- gets sockets ;;
      if bool_decide (id ∈ ss) then on_socket_close else ret tt
  end.

End WithRuntime.

End EventStreamClient.

(* ===================================================================== *)
(** * Reference notions and sample data *)
(* ===================================================================== *)

Module Reference.
Import JS Eff HueClient.

(** A field group is present in a body when one of its names is among the
    body's own properties. *)
Definition group_present (names : list string) (body : value) : Z :=
  if decide (Exists (fun k => k ∈ own_keys body) names) then 1%Z else 0%Z.

(** One message per field group present: on/off; brightness; colour. *)
Definition field_groups (body : value) : Z :=
  (group_present ["on"] body +
   group_present ["bri"; "bri_inc"] body +
   group_present ["xy"; "ct"; "hue"; "sat"; "effect"] body)%Z.

(** The value that a list of keys leads to in a body, when every key on
    the way is a key of a keyed structure (an object or an array). *)
Fixpoint resolve (path : list string) (body : value) : option value :=
  match path with
  | [] => Some body
  | key :: rest =>
      if is_object body && bool_decide (key ∈ own_keys body)
      then resolve rest (member body key)
      else None
  end.

(** The entries that the ["error"] objects of a list of items leave in
    the list of errors, in order. *)
Definition recorded_errors (items : list value) : list value :=
  omap (fun item =>
          let e := member item "error" in
          if negb (nullish e) && is_object e then Some (error_entry e)
          else None)
       items.

(** The ['error'] events of the ["error"] objects of a list of items, in
    order. *)
Definition emitted_errors (request : value) (items : list value)
  : list Effect :=
  omap (fun item =>
          let e := member item "error" in
          if negb (nullish e) && is_object e
          then Some (EmitError (api_error request e)) else None)
       items.

(** The client after the effects [t]. *)
Definition logs (t : list Effect) (c : Client) : Client :=
  foldl (fun c e => log e c) c t.

(** What the ["success"] object of an item adds to the successes. *)
Definition item_success (item : value) (success : gmap string value)
  : gmap string value :=
  let s := member item "success" in
  if negb (nullish s) && is_object s then flatten s (own_keys s) success
  else success.

(** An item that the loop of [request] gets past: it is neither [null] nor
    [undefined], and an ["error"] object it carries has a non-critical
    type. *)
Definition passable (item : value) : Prop :=
  nullish item = false /\
  (let e := member item "error" in
   negb (nullish e) && is_object e = true ->
   nonCritical e = true).

(** [m] keeps the effects observed so far and adds to them, does not touch
    [_options], and does not run out of fuel. *)
Definition orderly {A} (m : M Client A) : Prop :=
  forall c,
    (exists t, trace (m c).2 = (trace c ++ t)%list) /\
    _options (m c).2 = _options c /\
    (m c).1 <> OutOfFuel.

(** The first effect that [m] adds in state [c] is the HTTP call [call]. *)
Definition calls_first {A} (call : HttpCall) (m : M Client A) (c : Client)
  : Prop :=
  exists rest, trace (m c).2 = (trace c ++ Http call :: rest)%list.

(** The HTTP call of an attempt of [request] made in state [c]. *)
Definition v1_call (method resource : string) (body : value) (c : Client)
  : HttpCall :=
  {| call_method := method; call_path := path c; call_resource := resource;
     call_body := body; call_headers := VUndef |}.

(** The HTTP call of [request2] made in state [c]. *)
Definition v2_call (method resource : string) (body : value) (c : Client)
  : HttpCall :=
  {| call_method := method; call_path := path c; call_resource := resource;
     call_body := body; call_headers := o_headers (_options c) |}.

(** The state in which the outcome of [call] is dealt with. *)
Definition called (call : HttpCall) (c : Client) : Client :=
  count_call (log (Http call) c).

(** The condition under which the [catch] blocks try again. *)
Definition retries (error : JsError) (retry : nat) (c : Client) : bool :=
  transient error && negb (nullish (err_request error)) &&
  (0 <? o_waitTimeResend (_options c))%Z && (retry <? 5)%nat.

(** The state in which the next attempt is made. *)
Definition resent (error : JsError) (c : Client) : Client :=
  let w := o_waitTimeResend (_options c) in
  log (Timeout w) (log (EmitError (add_message (retry_message w) error)) c).

(** A request was started while the gate was open, as far as [put] is
    concerned; the requests of [post] and [delete] are left out of
    account. *)
Definition put_found_open (o : Outcome) : Prop :=
  match o with
  | Started method _ _ gate => method = "PUT" -> gate = false
  | Rejected _ _ => True
  end.

(** A request was started while the gate was open. *)
Definition found_open (o : Outcome) : Prop :=
  match o with
  | Started _ _ _ gate => gate = false
  | Rejected _ _ => True
  end.

(** What holds of a session at any time: with the gate open no call is
    held and no timer is set, with the gate closed one timer is set, and
    every [put] so far found the gate open when it went on. *)
Definition steady (s : Session) : Prop :=
  (waitForIt (client s) = false -> waiting s = [] /\ timers s = []) /\
  (waitForIt (client s) = true -> length (timers s) = 1) /\
  Forall put_found_open (outcomes s).

Section WithRuntime.
Context {rt : Runtime}.

(** The client as [getApiKey] has it when it posts: no API key, and
    [this.path = '/api']. *)
Definition unauthenticated (c : Client) : Client :=
  set_path "/api" (set_options (set_apiKey VNull (_options c)) c).

(** The body that [getApiKey] posts. *)
Definition devicetype (application hostname : string) : value :=
  VObj [("devicetype",
         VStr (application ++ "#" ++ hd "" (split "." hostname)))].

End WithRuntime.

End Reference.

Module Samples.
Import JS Eff HueClient.

(** A runtime for sample data that holds no numbers to format or parse. *)
Definition text_runtime : Runtime :=
  {| Number_toString := fun _ => "";
     String_toNumber := fun _ => PrimFloat.nan;
     JSON_parse := fun _ => None |}.

Definition sample_options : Options :=
  {| o_apiKey := VStr "key";
     o_headers := VObj [("hue-application-key", VStr "key")];
     o_path := "/api/key";
     o_waitTimePut := 50;
     o_waitTimePutGroup := 1000;
     o_waitTimeResend := 300 |}.

Definition sample_client : Client :=
  {| _options := sample_options; path := "/api/key"; waitForIt := false;
     sent := 0; trace := [] |}.

(** A response with status 200 and the given body. *)
Definition response_of (body : value) : Response :=
  {| resp_request := VObj [("method", VStr "GET")];
     resp_statusCode := 200;
     resp_headers := VObj [];
     resp_body := body;
     resp_errors := None;
     resp_success := None |}.

Definition respond (body : value) : HttpResult := Responds (response_of body).

(** What a response inherits in Node.js: the functions of
    [Object.prototype] and [Array.prototype], named here by where they
    are defined, and the two prototype objects, which [__proto__] gives
    access to. *)
Inductive Builtin : Type :=
| Function (name : string)
| ObjectPrototype
| ArrayPrototype.

Definition object_functions : list string :=
  ["hasOwnProperty"; "isPrototypeOf"; "propertyIsEnumerable";
   "toLocaleString"; "toString"; "valueOf"; "__defineGetter__";
   "__defineSetter__"; "__lookupGetter__"; "__lookupSetter__"].

Definition array_functions : list string :=
  ["at"; "concat"; "copyWithin"; "entries"; "every"; "fill"; "filter";
   "find"; "findIndex"; "findLast"; "findLastIndex"; "flat"; "flatMap";
   "forEach"; "includes"; "indexOf"; "join"; "keys"; "lastIndexOf"; "map";
   "pop"; "push"; "reduce"; "reduceRight"; "reverse"; "shift"; "slice";
   "some"; "sort"; "splice"; "toLocaleString"; "toReversed"; "toSorted";
   "toSpliced"; "toString"; "unshift"; "values"; "with"].

(** [Object.prototype[key]] *)
Definition object_prototype_member (key : string) : value + Builtin :=
  if String.eqb key "__proto__" then inl VNull
  else if String.eqb key "constructor" then inr (Function "Object")
  else if HueClient.includes key object_functions
  then inr (Function ("Object.prototype." ++ key))
  else inl VUndef.

(** [Array.prototype[key]] *)
Definition array_prototype_member (key : string) : value + Builtin :=
  if String.eqb key "__proto__" then inr ObjectPrototype
  else if String.eqb key "constructor" then inr (Function "Array")
  else if String.eqb key "length" then inl (VNum 0)
  else if HueClient.includes key array_functions
  then inr (Function ("Array.prototype." ++ key))
  else object_prototype_member key.

Definition node_prototypes : Prototypes :=
  {| foreign := Builtin;
     inherited := fun v key =>
       match v with
       | VArr _ =>
           if String.eqb key "__proto__" then inr ArrayPrototype
           else array_prototype_member key
       | _ =>
           if String.eqb key "__proto__" then inr ObjectPrototype
           else object_prototype_member key
       end;
     foreign_is_object := fun f =>
       match f with Function _ => false | _ => true end;
     foreign_member := fun f key =>
       match f with
       | Function _ => inl VUndef
       | ObjectPrototype => object_prototype_member key
       | ArrayPrototype => array_prototype_member key
       end |}.

(** [{state: {on: true, bri: 100}, name: "desk"}] *)
Definition sample_light : value :=
  VObj [("state", VObj [("on", VBool true); ("bri", VNum 100)]);
        ("name", VStr "desk")].

Definition light_net : nat -> HttpCall -> HttpResult :=
  fun _ _ => respond sample_light.

(** [[{error: {type, address, description}},
      {success: {"/lights/1/state/on": true}}]] *)
Definition batch (type : float) : value :=
  VArr [VObj [("error",
               VObj [("type", VNum type);
                     ("address", VStr "/lights/1/state/bri");
                     ("description", VStr "not now")])];
        VObj [("success", VObj [("/lights/1/state/on", VBool true)])]].

(** The bridge refuses one value (api error 7) and takes the other. *)
Definition invalid_value_net : nat -> HttpCall -> HttpResult :=
  fun _ _ => respond (batch 7).

(** The bridge reports an unknown resource (api error 3). *)
Definition unknown_resource_net : nat -> HttpCall -> HttpResult :=
  fun _ _ => respond (batch 3).

(** The bridge is too busy (api error 901) the first time and accepts the
    command the second time. *)
Definition busy_once_net : nat -> HttpCall -> HttpResult :=
  fun n _ =>
    match n with
    | 0 => respond (batch 901)
    | _ => respond (VArr [VObj [("success",
                                 VObj [("/lights/1/state/on", VBool true)])]])
    end.

(** A connection reset, on a request that had been made. *)
Definition reset_error : JsError :=
  {| err_name := "Error"; err_message := [VStr "read ECONNRESET"];
     err_code := VStr "ECONNRESET"; err_statusCode := VUndef;
     err_type := VUndef; err_description := VUndef;
     err_nonCritical := VUndef;
     err_request := VObj [("method", VStr "GET")] |}.

(** [{errors: [], data: [{id: "3", on: {on: true}}]}] *)
Definition v2_body : value :=
  VObj [("errors", VArr []);
        ("data", VArr [VObj [("id", VStr "3");
                             ("on", VObj [("on", VBool true)])]])].

(** The connection is reset the first time; the second time the bridge
    answers with a v2 body. *)
Definition reset_once_net : nat -> HttpCall -> HttpResult :=
  fun n _ =>
    match n with
    | 0 => Fails reset_error
    | _ => respond v2_body
    end.

(** The link button has not been pressed (api error 101). *)
Definition unlinked_net : nat -> HttpCall -> HttpResult :=
  fun _ _ =>
    respond (VArr [VObj [("error",
                          VObj [("type", VNum 101); ("address", VStr "");
                                ("description",
                                 VStr "link button not pressed")])]]).

(** The link button has been pressed: the bridge makes a key. *)
Definition linked_net : nat -> HttpCall -> HttpResult :=
  fun _ _ =>
    respond (VArr [VObj [("success", VObj [("username", VStr "newkey")])]]).

(** A client constructed without an API key. *)
Definition keyless_client : Client :=
  {| _options := new_options (rt := text_runtime) VUndef 50 1000 300;
     path := ""; waitForIt := false; sent := 0; trace := [] |}.

End Samples.

Module StreamReference.
Import JS Eff EventStreamClient.

(** What [close] does before it looks at [retry]: the request, if there is
    one, is destroyed, and ['closed'] is emitted if the client was
    listening. *)
Definition closing_effects (c : Stream) : list Effect :=
  (match request c with Some id => [Destroyed id] | None => [] end ++
   (if listening c then [Emit "closed" [VStr (stream_url c)]] else []))%list.

(** The client once closed, with the effects [more] after those of the
    closing. *)
Definition closed (more : list Effect) (c : Stream) : Stream :=
  {| options := options c; request := None; listening := false;
     requestId := requestId c; buttonMap := buttonMap c; s := s c;
     sockets := sockets c;
     effects := (effects c ++ closing_effects c ++ more)%list |}.

(** The client once closed and listening again on a new request. *)
Definition reconnected (c : Stream) : Stream :=
  let id := S (requestId c) in
  {| options := options c; request := Some id; listening := false;
     requestId := id; buttonMap := buttonMap c; s := s c;
     sockets := sockets c;
     effects := (effects c ++ closing_effects c ++
                 [Sleep (retryTime (options c) * 1000); Opened id])%list |}.

(** An effect that belongs to a reconnect. *)
Definition reconnects (e : Effect) : bool :=
  match e with Sleep _ | Opened _ => true | _ => false end.

(** [round(254 p / 100)], halves up, for a percentage [p]. *)
Definition scaled (p : nat) : Z := ((254 * Z.of_nat p + 50) / 100)%Z.

End StreamReference.

Module StreamSamples.
Import JS Eff EventStreamClient.

Definition quoted (t : string) : string :=
  String "034" t ++ String "034" "".

(** The text [[{"type":"update","data":[{"id_v1":"/lights/1",
    "on":{"on":true},"dimming":{"brightness":50}}]}]]. *)
Definition light_update_text : string :=
  "[{" ++ quoted "type" ++ ":" ++ quoted "update" ++ "," ++
  quoted "data" ++ ":[{" ++ quoted "id_v1" ++ ":" ++ quoted "/lights/1" ++
  "," ++ quoted "on" ++ ":{" ++ quoted "on" ++ ":true}," ++
  quoted "dimming" ++ ":{" ++ quoted "brightness" ++ ":50}}]}]".

(** The value that text stands for. *)
Definition light_update : value :=
  VArr [VObj [("type", VStr "update");
              ("data",
               VArr [VObj [("id_v1", VStr "/lights/1");
                           ("on", VObj [("on", VBool true)]);
                           ("dimming", VObj [("brightness", VNum 50)])]])]].

(** The frame that carries it: a [data: ] line and a blank line. *)
Definition light_update_frame : string :=
  "data: " ++ light_update_text ++ String "010" (String "010" "").

(** A runtime that reads that text. *)
Definition light_runtime : Runtime :=
  {| Number_toString := fun _ => "";
     String_toNumber := fun _ => PrimFloat.nan;
     JSON_parse := fun t =>
       if String.eqb t light_update_text then Some light_update else None |}.

(** A client for change events in the style of the API v1, listening. *)
Definition sample_stream : Stream :=
  {| options := {| retryTime := 10; raw := false; version := 1;
                   url := "https://192.168.1.2";
                   resource := "/eventstream/clip/v2";
                   name := "bridge" |};
     request := Some 1; listening := true; requestId := 1;
     buttonMap := Some ∅; s := ""; sockets := [1]; effects := [] |}.

End StreamSamples.

(* ===================================================================== *)
(** * Further methods and notions *)
(* ===================================================================== *)

Module HueClientMore.
Import JS Eff Eff.Notations HueClient Reference.

(** The key under which [request] files a success: the last segment of
    its path. *)
Definition last_segment (path : string) : string :=
  default "undefined" (last (split "/" path)).

(** An entry of [response.errors] has one of the non-critical types. *)
Definition noncritical_entry (entry : value) : Prop :=
  includes_number nonCriticalApiErrorTypes (member entry "type") = true.

(** The ['error'] event of [request2] for an entry of [body.errors]. *)
Definition v2_error (e : value) : Effect :=
  EmitError (plain_error "Error" [VStr "api error "; e]).

Section WithBridge.
Variable net : nat -> HttpCall -> HttpResult.

(** [getApplicationKey()] *)
Definition getApplicationKey : M Client value :=
  modify (set_path "/") ;;
  response <- request2 net "GET" "/auth/v1" VUndef 0 ;;
  prop (resp_headers response) "hue-application-id".

End WithBridge.

(** What a route spells: the resource requested, followed by the keys left
    to walk down the response, without the index ["0"] that [get] puts in
    front of them for a resource of the API v2. *)
Definition spelled (r : Route) : string :=
  join "/" (rt_resource r :: (if rt_v2 r then tail (rt_path r)
                              else rt_path r)).

(** The first segment of a resource, by which [get], [put], [post] and
    [delete] choose the API version. *)
Definition first_segment (resource : string) : string :=
  hd "" (split "/" (slice_1 resource)).

(** The calls of [put] among some events, in order. *)
Definition puts_of (events : list Event) : list PutCall :=
  omap (fun ev =>
          match ev with
          | CallPut resource body =>
              Some {| put_resource := resource; put_body := body |}
          | _ => None
          end)
       events.

(** The calls of [put] that have come to an end, in order: those that
    went on to a request, and those that were rejected, whose body was
    [null]. *)
Definition settled (outcomes : list Outcome) : list PutCall :=
  omap (fun o =>
          match o with
          | Started method resource body _ =>
              if String.eqb method "PUT"
              then Some {| put_resource := resource; put_body := body |}
              else None
          | Rejected resource _ =>
              Some {| put_resource := resource; put_body := VNull |}
          end)
       outcomes.

(** The calls of [put] so far: those that have come to an end, then those
    that are held. *)
Definition queue (s : Session) : list PutCall :=
  (settled (outcomes s) ++ waiting s)%list.

(** The gate is open and nothing is pending. *)
Definition idle (s : Session) : Prop :=
  waitForIt (client s) = false /\ waiting s = [] /\ timers s = [].

(** The wait time that applies to a resource. *)
Definition wait_time (o : Options) (resource : string) : Z :=
  if startsWith "/groups" resource then o_waitTimePutGroup o
  else o_waitTimePut o.

(** [unlock()], [touchlink()], [restart()] and [search()], as the calls of
    [put] and [post] they make. *)
Definition unlock : Event := CallPut "/config" (VObj [("linkbutton", VBool true)]).
Definition touchlink : Event := CallPut "/config" (VObj [("touchlink", VBool true)]).
Definition restart : Event := CallPut "/config" (VObj [("reboot", VBool true)]).
Definition search : Event := CallPost "/lights" VUndef.

End HueClientMore.

Module MoreSamples.
Import JS Eff HueClient Samples.

(** [{errors: [{description: "device unreachable"}], data: []}] *)
Definition v2_error_body : value :=
  VObj [("errors", VArr [VObj [("description", VStr "device unreachable")]]);
        ("data", VArr [])].

(** The bridge answers with an API v2 error. *)
Definition busy_v2_net : nat -> HttpCall -> HttpResult :=
  fun _ _ => respond v2_error_body.

(** The bridge answers without a body. *)
Definition silent_net : nat -> HttpCall -> HttpResult :=
  fun _ _ => respond VNull.

(** The answer to [GET /auth/v1]. *)
Definition auth_response : Response :=
  {| resp_request := VObj [("method", VStr "GET")];
     resp_statusCode := 200;
     resp_headers := VObj [("hue-application-id", VStr "app-id")];
     resp_body := VObj [];
     resp_errors := None;
     resp_success := None |}.

Definition auth_net : nat -> HttpCall -> HttpResult :=
  fun _ _ => Responds auth_response.

(** A client made with [waitTimePut] and [waitTimePutGroup] 0. *)
Definition unthrottled_client : Client :=
  {| _options :=
       {| o_apiKey := VStr "key";
          o_headers := VObj [("hue-application-key", VStr "key")];
          o_path := "/api/key";
          o_waitTimePut := 0;
          o_waitTimePutGroup := 0;
          o_waitTimeResend := 300 |};
     path := "/api/key"; waitForIt := false; sent := 0; trace := [] |}.

End MoreSamples.

Module StreamMore.
Import JS Eff Eff.Notations EventStreamClient.

(** The client after the effects [t]. *)
Definition emits (t : list Effect) (c : Stream) : Stream :=
  foldl (fun c e => log e c) c t.

(** [m] reads the client and leaves it as it is. *)
Definition reads {A} (m : M Stream A) : Prop :=
  forall c, (m c).2 = c /\ (m c).1 <> OutOfFuel.

(** [m] does nothing to the client but add effects. *)
Definition emitting {A} (m : M Stream A) : Prop :=
  forall c, (exists t, (m c).2 = emits t c) /\ (m c).1 <> OutOfFuel.

(** [m] leaves a client that has a button map with one. *)
Definition keeps_map {A} (m : M Stream A) : Prop :=
  forall c, buttonMap c <> None ->
            buttonMap (m c).2 <> None /\ (m c).1 <> OutOfFuel.

(** The text gathered so far ends a frame: [s.slice(-2) === '\n\n']. *)
Definition frame_ended (t : string) : bool :=
  String.eqb (slice_m2 t) (String "010" (String "010" "")).

(** The keys that [_parseUpdate2] leaves out. *)
Definition administrative (key : string) : bool :=
  existsb (String.eqb key) ["id"; "id_v1"; "owner"; "type"].

(** The names of an entry that [_parseUpdate2] makes attributes of: all
    but the ones it leaves out and [__proto__], which an assignment makes
    no property of. *)
Definition passed_on (key : string) : bool :=
  negb (administrative key) && negb (String.eqb key "__proto__").

(** The properties of an entry that [_parseUpdate2] passes on. *)
Definition attributes (fields : list (string * value))
  : list (string * value) :=
  List.filter (fun kv => passed_on kv.1) fields.

(** An object as [JSON.parse] makes it: no two properties of one name. *)
Definition well_keyed (data : value) : Prop :=
  exists fields, data = VObj fields /\ NoDup (map fst fields).

Section WithRuntime.
Context {rt : Runtime}.

(** The event of [_parseUpdate2] for an entry [data] of the update
    [obj]. *)
Definition changed2 (obj data : value) : Effect :=
  match data with
  | VObj fields =>
      if nonempty (attributes fields)
      then Emit "changed"
             [VStr (resource2 (member data "type") (member data "id"));
              VObj (attributes fields)]
      else Emit "notification" [obj]
  | _ => Emit "notification" [obj]
  end.

End WithRuntime.

Section WithRuntime.
Context {rt : Runtime}.

(** What [init] makes of a button that has an [id] and [metadata] to
    read: the name and the number it puts in the button map. *)
Definition button_entry (button : value) : option (string * float) :=
  if nullish button || nullish (member button "metadata") then None
  else Some (ToString (member button "id"),
             (ToNumber (member (member button "metadata") "control_id")
              * 1000)%float).

(** What [init] does once it has set the empty button map. *)
Definition fill_map (response : value) : M Stream unit :=
  buttons <- iterate response ;;
  for_each
    (fun button (_ : unit) =>
       id <- prop button "id" ;;
       metadata <- prop button "metadata" ;;
       control_id <- prop metadata "control_id" ;;
       set_button (ToString id) (ToNumber control_id * 1000)%float)
    buttons tt ;;
  modify (set_requestId 1).

(** The button map after the buttons of a list. *)
Definition button_map (buttons : list value) (m : gmap string float)
  : gmap string float :=
  foldl (fun m button =>
           match button_entry button with
           | Some (key, x) =>
               if String.eqb key "__proto__" then m else <[key := x]> m
           | None => m
           end)
        m buttons.

End WithRuntime.

(** An object that [_parseContainer] does not decode. *)
Definition opaque (obj : value) : Prop :=
  nullish obj = false /\ is_string "update" (member obj "type") = false.

(** The events that one entry of an update can yield. *)
Definition change_or_notification (e : Effect) : Prop :=
  match e with
  | Emit event _ => event = "changed" \/ event = "notification"
  | _ => False
  end.

(** An event other than ['changed']. *)
Definition not_changed (e : Effect) : Prop :=
  match e with
  | Emit event _ => event <> "changed"
  | _ => True
  end.

End StreamMore.

Module MoreStreamSamples.
Import JS Eff EventStreamClient.

(** [{type: "update", data: [{id: "3", id_v1: "/lights/1",
    on: {on: true}, owner: {rid: "9"}, type: "light"}]}] *)
Definition light_update2 : value :=
  VObj [("type", VStr "update");
        ("data",
         VArr [VObj [("id", VStr "3"); ("id_v1", VStr "/lights/1");
                     ("on", VObj [("on", VBool true)]);
                     ("owner", VObj [("rid", VStr "9")]);
                     ("type", VStr "light")]])].

(** [{type: "update", data: [{id: "3", type: "light",
    "__proto__": {on: true}}]}], as [JSON.parse] makes it: with
    [__proto__] as a property of the entry. *)
Definition proto_update2 : value :=
  VObj [("type", VStr "update");
        ("data",
         VArr [VObj [("id", VStr "3"); ("type", VStr "light");
                     ("__proto__", VObj [("on", VBool true)])]])].

(** A client for events in the style of the API v1, just made. *)
Definition new_stream : Stream :=
  {| options := {| retryTime := 10; raw := false; version := 1;
                   url := "https://192.168.1.2";
                   resource := "/eventstream/clip/v2";
                   name := "bridge" |};
     request := None; listening := false; requestId := 0;
     buttonMap := None; s := ""; sockets := []; effects := [] |}.

(** [[{id: "a", metadata: {control_id: 1}}, {id: "b"}]]: the second
    button has no [metadata]. *)
Definition broken_buttons : value :=
  VArr [VObj [("id", VStr "a");
              ("metadata", VObj [("control_id", VNum 1)])];
        VObj [("id", VStr "b")]].

(** A client made with [raw] set, listening. *)
Definition raw_stream : Stream :=
  {| options := {| retryTime := 10; raw := true; version := 1;
                   url := "https://192.168.1.2";
                   resource := "/eventstream/clip/v2";
                   name := "bridge" |};
     request := Some 1; listening := true; requestId := 1;
     buttonMap := Some ∅; s := ""; sockets := [1]; effects := [] |}.

(** A client made with [retryTime] 0, listening. *)
Definition no_retry_stream : Stream :=
  {| options := {| retryTime := 0; raw := false; version := 1;
                   url := "https://192.168.1.2";
                   resource := "/eventstream/clip/v2";
                   name := "bridge" |};
     request := Some 1; listening := true; requestId := 1;
     buttonMap := Some ∅; s := ""; sockets := [1]; effects := [] |}.

(** A frame whose data is no JSON text. *)
Definition broken_frame : string :=
  "data: [" ++ String "010" (String "010" "").

(** [buffer.toString('utf-8')] on the bytes of ASCII text: one character
    for each byte. *)
Definition ascii_toString (buffer : list Byte.byte) : string :=
  String.string_of_list_byte buffer.

(** The bytes of [data: []], cut in two. *)
Definition first_chunk : list Byte.byte := String.list_byte_of_string "da".

Definition second_chunk : list Byte.byte :=
  String.list_byte_of_string "ta: []".

(** [{type: "update", creationtime: "2024-01-01T00:00:00Z",
    data: [{id_v1: "/sensors/2", enabled: true,
            motion: {motion: true, motion_valid: true}},
           {id: "7"}]}] *)
Definition sensor_update : value :=
  VObj [("type", VStr "update");
        ("creationtime", VStr "2024-01-01T00:00:00Z");
        ("data",
         VArr [VObj [("id_v1", VStr "/sensors/2");
                     ("enabled", VBool true);
                     ("motion", VObj [("motion", VBool true);
                                      ("motion_valid", VBool true)])];
               VObj [("id", VStr "7")]])].

End MoreStreamSamples.

(* ===================================================================== *)
(** * lib/HueDiscovery.js *)
(* ===================================================================== *)

Module HueDiscovery.
Import JS Eff Eff.Notations.

(** The events that the discovery emits itself; those it passes on from
    its HTTP and UPnP clients are left out. *)
Inductive Effect : Type :=
| Emit (event : string) (args : list value)
| EmitError (e : JsError).

(** [this.bridgeMap]; the jobs that [_found] has pushed on [this.jobs] and
    that have not come to an end, each named by its host, in the order
    they were pushed; the events so far. *)
Record Discovery : Type := {
  bridgeMap : gmap string value;
  jobs : list string;
  effects : list Effect
}.

Definition log (e : Effect) (d : Discovery) : Discovery :=
  {| bridgeMap := bridgeMap d; jobs := jobs d;
     effects := (effects d ++ [e])%list |}.

Definition set_bridgeMap (m : gmap string value) (d : Discovery)
  : Discovery :=
  {| bridgeMap := m; jobs := jobs d; effects := effects d |}.

Definition set_jobs (l : list string) (d : Discovery) : Discovery :=
  {| bridgeMap := bridgeMap d; jobs := l; effects := effects d |}.

Definition emit (event : string) (args : list value) : M Discovery unit :=
  modify (log (Emit event args)).

Definition emit_error (e : JsError) : M Discovery unit :=
  modify (log (EmitError e)).

(** [error.request = request] *)
Definition with_request (request : value) (e : JsError) : JsError :=
  {| err_name := err_name e; err_message := err_message e;
     err_code := err_code e; err_statusCode := err_statusCode e;
     err_type := err_type e; err_description := err_description e;
     err_nonCritical := err_nonCritical e; err_request := request |}.

(** [typeof v === 'string'] *)
Definition typeof_string (v : value) : bool :=
  match v with VStr _ => true | _ => false end.

(** [this.bridgeMap[host]] *)
Definition entry (host : string) (d : Discovery) : value :=
  default VUndef (bridgeMap d !! host).

(** The first job of a host, taken off the list. *)
Fixpoint without (host : string) (l : list string) : list string :=
  match l with
  | [] => []
  | h :: l' => if String.eqb h host then l' else h :: without host l'
  end.

(** How [client.get('/config')] ends. *)
Inductive Outcome : Type :=
| Responds (body request : value)
| Fails (error : JsError).

Section WithPatterns.

(** [/[0-9A-Fa-f]{16}/.test(v)] and [/^00212E[0-9A-F]{10}$/.test(v)] *)
Variable has_bridgeid : value -> bool.
Variable is_deconz : value -> bool.

(** The first test of [config]: the response is no bridge configuration. *)
Definition invalid (body : value) : bool :=
  nullish body || negb (is_object body) ||
  negb (typeof_string (member body "apiversion")) ||
  negb (has_bridgeid (member body "bridgeid")) ||
  negb (typeof_string (member body "name")) ||
  negb (typeof_string (member body "swversion")).

(** [config(host)], from the end of [client.get('/config')] on. *)
Definition config (host : string) (o : Outcome) : M Discovery value :=
  match o with
  | Fails error => throw error
  | Responds body request =>
      if invalid body then
        let error := with_request request
                       (plain_error "Error" [VStr "invalid response"]) in
        emit_error error ;;
        throw error
      else if is_deconz (member body "bridgeid") then
        let error :=
          with_request request
            (plain_error "Error"
               [VStr host; VStr ": deCONZ gateway no longer supported"]) in
        emit_error error ;;
        throw error
      else ret body
  end.

(** [_found(name, id, host)]: the job it pushes is started. *)
Definition _found (name : string) (id : value) (host : string)
  : M Discovery unit :=
  emit "found" [VStr name; id; VStr host] ;;
  e <- gets (entry host) ;;
  if nullish e then
    modify (fun d => set_bridgeMap (<[host := id]> (bridgeMap d)) d) ;;
    modify (fun d => set_jobs (jobs d ++ [host]) d)
  else ret tt.

(** The rest of the job: [config(host).then(...).catch(...)]. *)
Definition job_ends (host : string) (o : Outcome) : M Discovery unit :=
  try_catch
    (body <- config host o ;;
     modify (fun d => set_bridgeMap (<[host := body]> (bridgeMap d)) d))
    (fun error =>
       modify (fun d => set_bridgeMap (delete host (bridgeMap d)) d) ;;
       if nullish (err_request error) then emit_error error else ret tt).

(** What happens during [discover]: a search finds a bridge, or the
    request of a job comes to an end. *)
Inductive Event : Type :=
| Found (name : string) (id : value) (host : string)
| JobEnds (host : string) (o : Outcome).

Definition step (d : Discovery) (ev : Event) : Discovery :=
  match ev with
  | Found name id host => (_found name id host d).2
  | JobEnds host o =>
      if bool_decide (host ∈ jobs d)
      then (job_ends host o (set_jobs (without host (jobs d)) d)).2
      else d
  end.

Definition run (events : list Event) (d : Discovery) : Discovery :=
  foldl step d events.

(** [discover], once [this.bridgeMap = {}] and [this.jobs = []]. *)
Definition start : Discovery :=
  {| bridgeMap := ∅; jobs := []; effects := [] |}.

End WithPatterns.

(** ** The host of a bridge found *)

Section Hosts.
Context {rt : Runtime}.

(** [parseInt(v)] *)
Variable parseInt : value -> float.

(** The host that the ['deviceFound'] handler of [_upnp] passes to
    [_found] for a device at [location]; [None] when it calls nothing. *)
Definition upnp_host (location : string) : option string :=
  let a := split "/" location in
  if (3 <? length a)%nat then
    match a !! 2%nat with
    | Some host =>
        let b := split ":" host in
        let port := parseInt (default VUndef (VStr <$> b !! 1%nat)) in
        Some (if PrimFloat.eqb port 80 then default "" (b !! 0%nat)
              else host)
    | None => None
    end
  else None.

(** The host that the loop of [_nupnp] passes to [_found] for a [bridge]
    of the response; [None] when reading it throws a [TypeError]. *)
Definition nupnp_host (bridge : value) : option value :=
  if nullish bridge then None
  else
    let host := member bridge "internalipaddress" in
    let port := member bridge "internalport" in
    Some (if negb (nullish port) && negb (is_number 80 port)
          then VStr (ToString host ++ ":" ++ ToString port)
          else host).

End Hosts.

End HueDiscovery.

Module DiscoveryReference.
Import JS Eff HueDiscovery.

(** A search reports a bridge with an id. *)
Definition announced (ev : Event) : Prop :=
  match ev with
  | Found _ id _ => nullish id = false
  | JobEnds _ _ => True
  end.

(** The character [ch] does not occur in [s]. *)
Fixpoint without_char (ch : ascii) (s : string) : bool :=
  match s with
  | EmptyString => true
  | String c s' => negb (Ascii.eqb c ch) && without_char ch s'
  end.

(** A body that [config] returns. *)
Definition verified (has_bridgeid is_deconz : value -> bool) (body : value)
  : bool :=
  negb (invalid has_bridgeid body) && negb (is_deconz (member body "bridgeid")).

(** Every host with a job has an entry, no host has two jobs, and the
    entry of a host without a job is a verified configuration. *)
Definition sound (has_bridgeid is_deconz : value -> bool) (d : Discovery)
  : Prop :=
  NoDup (jobs d) /\
  (forall host, host ∈ jobs d -> nullish (entry host d) = false) /\
  (forall host v,
      bridgeMap d !! host = Some v -> host ∉ jobs d ->
      verified has_bridgeid is_deconz v = true).

End DiscoveryReference.

Module DiscoverySamples.
Import JS Eff HueDiscovery.

(** The patterns, on the sample ids below. *)
Definition sample_has_bridgeid (v : value) : bool :=
  is_string "001788FFFE100001" v.

Definition sample_is_deconz (v : value) : bool := false.

(** The public configuration of a bridge. *)
Definition sample_config : value :=
  VObj [("apiversion", VStr "1.60.0");
        ("bridgeid", VStr "001788FFFE100001");
        ("name", VStr "Hue Bridge");
        ("swversion", VStr "1960149090")].

(** One bridge is found twice and answers; at another address something
    answers that is no bridge. *)
Definition sample_events : list Event :=
  [Found "mdns" (VStr "001788FFFE100001") "192.168.1.2";
   Found "upnp" (VStr "001788FFFE100001") "192.168.1.2";
   Found "meethue.com" (VStr "001788FFFE100002") "192.168.1.3";
   JobEnds "192.168.1.3" (Responds (VStr "hello") (VObj []));
   JobEnds "192.168.1.2" (Responds sample_config (VObj []))].

(** [parseInt] on the port numbers of the samples. *)
Definition sample_parseInt (v : value) : float :=
  if is_string "80" v then 80%float
  else if is_string "8080" v then 8080%float
  else PrimFloat.nan.

End DiscoverySamples.

(* ===================================================================== *)
(** * lib/HueError.js *)
(* ===================================================================== *)

Module HueError.
Import JS Eff.

(** The first argument of the constructor of [HttpError]: a template
    literal, kept as its pieces, or a value passed as it is. *)
Inductive Message : Type :=
| Template (pieces : list value)
| Passed (v : value).

(** A [HueError]: the arguments it passes to the constructor of
    [HttpError], and the properties it sets itself ([undefined] when it
    does not set them). *)
Record HueError : Type := {
  message : Message;
  request : value;
  statusCode : value;
  statusMessage : value;
  type : value;
  address : value;
  nonCritical : value;
  description : value
}.

(** API errors that could still cause (part of) the PUT command to be
    executed. *)
Definition nonCriticalApiErrorTypes : list float :=
  [6; 7; 8; 201]%float.

(** [new HueError(e, response)]; [None] when it throws a [TypeError], for
    an [e] or a [response] that is [null] or [undefined]. *)
Definition new (e response : value) : option HueError :=
  if nullish e || nullish response then None
  else if negb (nullish (member e "type")) then
    let a := if negb (is_string "" (member e "address")) then ": " else "" in
    Some {| message := Template [member e "address"; VStr a;
                                 VStr "api error "; member e "type";
                                 VStr ": "; member e "description"];
            request := member response "request";
            statusCode := member response "statusCode";
            statusMessage := member response "statusMessage";
            type := member e "type";
            address := member e "address";
            nonCritical :=
              VBool (includes_number nonCriticalApiErrorTypes
                       (member e "type"));
            description := member e "description" |}
  else
    Some {| message := Passed (member e "description");
            request := member response "request";
            statusCode := member response "statusCode";
            statusMessage := member response "statusMessage";
            type := VUndef;
            address := VUndef;
            nonCritical := VUndef;
            description := member e "description" |}.

Section WithRuntime.
Context {rt : Runtime}.

(** The text of a template literal. *)
Definition text (pieces : list value) : string :=
  String.concat "" (map ToString pieces).

End WithRuntime.

End HueError.

(* ===================================================================== *)
(** * The listeners for ['error'] *)
(* ===================================================================== *)

(** [emit('error', error)] of an [EventEmitter] calls the listeners for
    ['error'], and throws [error] when there is none.  The definitions
    of [HueClient] and [EventStreamClient] above are those of a client
    with such a listener attached; here the methods that emit ['error']
    are given for either case. *)

Module Listener.
Import JS Eff Eff.Notations HueClient.

Section WithListener.

(** Whether a listener for ['error'] is attached to the client. *)
Variable heard : bool.

(** [this.emit('error', error)] *)
Definition emit_error (e : JsError) : M Client unit :=
  if heard then HueClient.emit_error e else throw e.

Variable net : nat -> HttpCall -> HttpResult.

(** One turn of the loop over [response.body]. *)
Definition process_item (request : value) (item : value)
    (acc : list value * gmap string value)
  : M Client (list value * gmap string value) :=
  let errors := acc.1 in
  let success := acc.2 in
  e <- prop item "error" ;;
  errors <- (if negb (nullish e) && is_object e then
               let errors := (errors ++ [error_entry e])%list in
               let error := api_error request e in
               emit_error error ;;
               if negb (truthy (err_nonCritical error))
               then throw error
               else ret errors
             else ret errors) ;;
  s <- prop item "success" ;;
  success <- (if negb (nullish s) && is_object s
              then add_success s success
              else ret success) ;;
  ret (errors, success).

(** The [try] block of [request]. *)
Definition request_try (method resource : string) (body : value)
  : M Client Response :=
  response <- super_request net method resource body VUndef ;;
  cl <- prop (resp_headers response) "content-length" ;;
  let response := if is_string "0" cl then set_body VNull response
                  else response in
  match resp_body response with
  | VArr items =>
      acc <- for_each (process_item (resp_request response)) items ([], ∅) ;;
      ret (set_results acc.1 acc.2 response)
  | _ => ret (set_results [] ∅ response)
  end.

(** [request(method, resource, body, retry)]; [fuel] bounds the depth of
    the recursion. *)
Fixpoint request_loop (fuel : nat) (method resource : string) (body : value)
    (retry : nat) : M Client Response :=
  try_catch (request_try method resource body)
    (fun error =>
       if transient error then
         waitTimeResend <- gets (fun c => o_waitTimeResend (_options c)) ;;
         if negb (nullish (err_request error)) &&
            (0 <? waitTimeResend)%Z && (retry <? 5)%nat
         then
           let error := add_message (retry_message waitTimeResend) error in
           emit_error error ;;
           timeout waitTimeResend ;;
           match fuel with
           | S fuel' => request_loop fuel' method resource body (retry + 1)
           | O => out_of_fuel
           end
         else throw error
       else throw error).

Definition request (method resource : string) (body : value) (retry : nat)
  : M Client Response :=
  request_loop (5 - retry) method resource (or_null body) retry.

Definition request2_try (method resource : string) (body : value)
  : M Client Response :=
  headers <- gets (fun c => o_headers (_options c)) ;;
  response <- super_request net method resource body headers ;;
  es <- iterate (body_errors (resp_body response)) ;;
  for_each (fun e (_ : unit) =>
              emit_error (plain_error "Error" [VStr "api error "; e]))
           es tt ;;
  data <- prop (resp_body response) "data" ;;
  ret (set_body data response).

Definition request2 (method resource : string) (body : value) (retry : nat)
  : M Client Response :=
  let body := or_null body in
  try_catch (request2_try method resource body)
    (fun error =>
       if transient error then
         waitTimeResend <- gets (fun c => o_waitTimeResend (_options c)) ;;
         if negb (nullish (err_request error)) &&
            (0 <? waitTimeResend)%Z && (retry <? 5)%nat
         then
           let error := add_message (retry_message waitTimeResend) error in
           emit_error error ;;
           timeout waitTimeResend ;;
           request method resource body (retry + 1)
         else throw error
       else throw error).

End WithListener.

End Listener.

Module StreamListener.
Import JS Eff Eff.Notations EventStreamClient.

Section WithListener.
Context {rt : Runtime}.

(** Whether a listener for ['error'] is attached to the client. *)
Variable heard : bool.

(** [this.emit('error', error)] *)
Definition emit_error (e : JsError) : M Stream unit :=
  if heard then EventStreamClient.emit_error e else throw e.

(** The [try] block of the ['data'] handler. *)
Definition gather (buffer : string) : M Stream unit :=
  t <- gets (fun c => s c ++ buffer) ;;
  modify (set_s t) ;;
  if negb (String.eqb (slice_m2 t) (String "010" (String "010" "")))
  then ret tt
  else
    let t := trim t in
    modify (set_s t) ;;
    emit "data" [VStr t] ;;
    let lines := split (String "010" "") t in
    modify (set_s "") ;;
    for_each (fun line (_ : unit) => parse_line line) lines tt.

(** The ['data'] handler of the response. *)
Definition on_data (buffer : string) : M Stream unit :=
  try_catch (gather buffer) emit_error.

(** The handler as the response calls it: with the chunk of bytes that
    has arrived, which [buffer.toString('utf-8')] decodes on its own. *)
Variable toString : list Byte.byte -> string.

Definition on_buffer (buffer : list Byte.byte) : M Stream unit :=
  on_data (toString buffer).

End WithListener.

End StreamListener.

(* ===================================================================== *)
(** * The event stream client over time *)
(* ===================================================================== *)

Module StreamRun.
Import JS Eff Eff.Notations EventStreamClient.

(** The client as its constructor leaves it. *)
Definition new_stream (o : Options) : Stream :=
  {| options := o; request := None; listening := false; requestId := 0;
     buttonMap := None; s := ""; sockets := []; effects := [] |}.

(** A call of [close()] by the user and what Node.js makes follow it:
    [request.destroy()] destroys the socket of the request, and the
    socket, once closed, emits ['close']. *)
Definition user_closes (c : Stream) : list Event :=
  UserClose ::
  match request c with Some id => [SocketClosed id] | None => [] end.

Section WithRuntime.
Context {rt : Runtime}.

(** The events of a list, each handled when it comes. *)
Definition run (events : list Event) : M Stream unit :=
  for_each (fun ev (_ : unit) => handle ev) events tt.

End WithRuntime.

End StreamRun.

(* ===================================================================== *)
(** * Properties of lib/HueClient.js *)
(* ===================================================================== *)

Module HueClientFacts.
Import JS Eff Eff.Notations HueClient Reference.

(** ** Calls add to the trace, leave the options alone and return *)

Create HintDb orderly.

Lemma orderly_pure {A} (r : Result A) :
  r <> OutOfFuel -> orderly (fun c => (r, c)).
Proof.
  intros Hr c. split; [|by split]. exists []. simpl. by rewrite app_nil_r.
Qed.

Lemma orderly_ret {A} (a : A) : orderly (ret a).
Proof. by apply orderly_pure. Qed.

Lemma orderly_throw {A} (e : JsError) : orderly (@throw Client A e).
Proof. by apply orderly_pure. Qed.

Lemma orderly_gets {A} (f : Client -> A) : orderly (gets f).
Proof. intros c. split; [|by split]. exists []. simpl. by rewrite app_nil_r. Qed.

Lemma orderly_log (e : Effect) : orderly (modify (log e)).
Proof. intros c. split; [by exists [e] | by split]. Qed.

Lemma orderly_set_path (p : string) : orderly (modify (set_path p)).
Proof. intros c. split; [|by split]. exists []. simpl. by rewrite app_nil_r. Qed.

Lemma orderly_bind {A B} (m : M Client A) (k : A -> M Client B) :
  orderly m -> (forall a, orderly (k a)) -> orderly (bind m k).
Proof.
  intros Hm Hk c. unfold bind. destruct (Hm c) as ([t Ht] & Ho & Hf).
  destruct (m c) as [[a|e|] c'] eqn:E; simpl in *.
  - destruct (Hk a c') as ([t' Ht'] & Ho' & Hf'). repeat split.
    + exists (t ++ t')%list. by rewrite Ht', Ht, app_assoc.
    + congruence.
    + done.
  - repeat split; [by exists t | done | done].
  - done.
Qed.

Lemma orderly_try_catch {A} (m : M Client A) (h : JsError -> M Client A) :
  orderly m -> (forall e, orderly (h e)) -> orderly (try_catch m h).
Proof.
  intros Hm Hh c. unfold try_catch. destruct (Hm c) as ([t Ht] & Ho & Hf).
  destruct (m c) as [[a|e|] c'] eqn:E; simpl in *.
  - repeat split; [by exists t | done | done].
  - destruct (Hh e c') as ([t' Ht'] & Ho' & Hf'). repeat split.
    + exists (t ++ t')%list. by rewrite Ht', Ht, app_assoc.
    + congruence.
    + done.
  - done.
Qed.

Lemma orderly_for_each {A B} (body : A -> B -> M Client B) (l : list A) :
  (forall x acc, orderly (body x acc)) ->
  forall acc, orderly (for_each body l acc).
Proof.
  intros Hbody. induction l as [|x l IH]; intros acc; simpl.
  - apply orderly_ret.
  - apply orderly_bind; [apply Hbody | apply IH].
Qed.

Lemma orderly_prop (v : value) (key : string) : orderly (prop v key).
Proof. unfold prop. destruct (nullish v); [apply orderly_throw | apply orderly_ret]. Qed.

Lemma orderly_keys (v : value) : orderly (keys v).
Proof. unfold keys. destruct (nullish v); [apply orderly_throw | apply orderly_ret]. Qed.

Lemma orderly_iterate (v : value) : orderly (iterate v).
Proof. destruct v; first [apply orderly_throw | apply orderly_ret]. Qed.

#[local] Hint Resolve orderly_ret orderly_throw orderly_gets orderly_log
  orderly_set_path orderly_prop orderly_keys orderly_iterate : orderly.

(** Takes a computation apart along its binds, branches and loops. *)
Ltac orderly_step :=
  lazymatch goal with
  | |- orderly (bind _ _) => apply orderly_bind; [|intros ?]
  | |- orderly (try_catch _ _) => apply orderly_try_catch; [|intros ?]
  | |- orderly (for_each _ _ _) => apply orderly_for_each; intros ? ?
  | |- orderly (let x := _ in _) => cbv zeta
  | |- orderly (if ?b then _ else _) => destruct b
  | |- orderly (match ?x with _ => _ end) => destruct x
  | |- orderly (emit_error _) => apply orderly_log
  | |- orderly (timeout _) => apply orderly_log
  | |- _ => solve [eauto with orderly]
  end.

Ltac orderly_auto := repeat orderly_step.

Section Orderly.
Variable net : nat -> HttpCall -> HttpResult.

Lemma orderly_super_request (method resource : string) (body headers : value) :
  orderly (super_request net method resource body headers).
Proof.
  intros c. unfold super_request.
  destruct (net _ _); (split; [|by split]);
    by exists [Http {| call_method := method; call_path := path c;
                       call_resource := resource; call_body := body;
                       call_headers := headers |}].
Qed.
Hint Resolve orderly_super_request : orderly.

Lemma orderly_process_item (request item : value) acc :
  orderly (process_item request item acc).
Proof. unfold process_item, add_success. orderly_auto. Qed.
Hint Resolve orderly_process_item : orderly.

Lemma orderly_request_try (method resource : string) (body : value) :
  orderly (request_try net method resource body).
Proof. unfold request_try. orderly_auto. Qed.
Hint Resolve orderly_request_try : orderly.

(** Fuel for the retries that are left is enough. *)
Lemma orderly_request_loop (fuel : nat) (method resource : string)
    (body : value) (retry : nat) :
  5 - retry <= fuel ->
  orderly (request_loop net fuel method resource body retry).
Proof.
  revert retry. induction fuel as [|fuel IH]; intros retry Hfuel; simpl.
  - apply orderly_try_catch; [eauto with orderly|]. intros e.
    destruct (transient e); [|apply orderly_throw].
    apply orderly_bind; [apply orderly_gets|]. intros w.
    destruct (retry <? 5)%nat eqn:E; [apply Nat.ltb_lt in E; lia|].
    rewrite andb_false_r. apply orderly_throw.
  - apply orderly_try_catch; [eauto with orderly|]. intros e.
    destruct (transient e); [|apply orderly_throw].
    apply orderly_bind; [apply orderly_gets|]. intros w.
    destruct (retry <? 5)%nat eqn:E;
      [|rewrite andb_false_r; apply orderly_throw].
    destruct (_ && _); [|apply orderly_throw].
    orderly_auto. apply IH. apply Nat.ltb_lt in E. lia.
Qed.

Lemma orderly_request (method resource : string) (body : value) (retry : nat) :
  orderly (request net method resource body retry).
Proof. by apply orderly_request_loop. Qed.
Hint Resolve orderly_request : orderly.

Lemma orderly_request2_try (method resource : string) (body : value) :
  orderly (request2_try net method resource body).
Proof. unfold request2_try. orderly_auto. Qed.
Hint Resolve orderly_request2_try : orderly.

Lemma orderly_request2 (method resource : string) (body : value) (retry : nat) :
  orderly (request2 net method resource body retry).
Proof. unfold request2. orderly_auto. Qed.
Hint Resolve orderly_request2 : orderly.

End Orderly.

#[local] Hint Resolve orderly_super_request orderly_process_item
  orderly_request_try orderly_request orderly_request2_try
  orderly_request2 : orderly.

Lemma orderly_trace {A} (m : M Client A) (c : Client) :
  orderly m -> exists t, trace (m c).2 = (trace c ++ t)%list.
Proof. intros H. apply H. Qed.

(** ** numberOfZigbeeMessages *)

Lemma includes_elem_of (x : string) (l : list string) :
  includes x l = true ↔ x ∈ l.
Proof.
  unfold includes. rewrite existsb_exists. split.
  - intros (y & Hy & Heq). apply String.eqb_eq in Heq. subst.
    by apply list_elem_of_In.
  - intros Hx. exists x. split; [by apply list_elem_of_In|].
    apply String.eqb_refl.
Qed.

Lemma group_present_includes (names : list string) (body : value) :
  group_present names body =
  if existsb (fun k => includes k (own_keys body)) names then 1%Z else 0%Z.
Proof.
  unfold group_present.
  destruct (existsb _ names) eqn:E; case_decide as H; try done.
  - exfalso. apply H. apply existsb_exists in E as (k & Hk & Hin).
    apply Exists_exists. exists k. split; [by apply list_elem_of_In|].
    by apply includes_elem_of.
  - apply Exists_exists in H as (k & Hk & Hin).
    assert (existsb (fun k => includes k (own_keys body)) names = true)
      as E'; [|congruence].
    apply existsb_exists. exists k. split; [by apply list_elem_of_In|].
    by apply includes_elem_of.
Qed.

Lemma numberOfZigbeeMessages_null {S} (st : S) :
  exists e, numberOfZigbeeMessages VNull st = (Throw e, st) /\
            err_name e = "TypeError".
Proof. eexists. split; reflexivity. Qed.

(** C9. [numberOfZigbeeMessages] is 1 for [{on: true}], 2 for
    [{bri: 100, xy: [0.3, 0.3]}] and 1 for [{}]; for every body (any value
    but [null], on which [Object.keys] throws) it returns the number of
    field groups present (on/off; [bri] or [bri_inc]; one of [xy], [ct],
    [hue], [sat], [effect]), and 1 when there is none: at least 1 and at
    most 3. *)
Theorem numberOfZigbeeMessages_counts_groups {S} (st : S) :
  numberOfZigbeeMessages (VObj [("on", VBool true)]) st = (Ok 1%Z, st) /\
  numberOfZigbeeMessages
    (VObj [("bri", VNum 100); ("xy", VArr [VNum 0.3; VNum 0.3])]) st
    = (Ok 2%Z, st) /\
  numberOfZigbeeMessages (VObj []) st = (Ok 1%Z, st) /\
  forall body : value,
    body <> VNull ->
    exists n : Z,
      numberOfZigbeeMessages body st = (Ok n, st) /\
      n = Z.max 1 (field_groups body) /\
      (1 <= n <= 3)%Z.
Proof.
  repeat split; try reflexivity.
  intros body Hbody.
  assert (exists ks, ks = own_keys (match body with VUndef => VObj [] | _ => body end)
                     /\ ks = own_keys body) as (ks & Hks & Hks').
  { eexists; split; [reflexivity|]. by destruct body. }
  exists (Z.max 1 (field_groups body)).
  split; [|split; [done|]].
  - unfold numberOfZigbeeMessages, bind, keys.
    destruct (nullish (match body with VUndef => VObj [] | _ => body end)) eqn:Hn.
    { destruct body; simpl in Hn; congruence. }
    unfold ret. rewrite <- Hks. f_equal. f_equal.
    unfold field_groups. rewrite !group_present_includes. simpl.
    rewrite <- !Hks'. rewrite !orb_false_r, !orb_assoc.
    destruct (includes "on" ks);
      destruct (includes "bri" ks || includes "bri_inc" ks);
      destruct (includes "xy" ks || includes "ct" ks || includes "hue" ks ||
                includes "sat" ks || includes "effect" ks);
      reflexivity.
  - unfold field_groups, group_present. repeat case_decide; lia.
Qed.

Lemma numberOfZigbeeMessages_counts_groups_witness :
  VObj [("on", VBool true); ("bri_inc", VNum 10); ("hue", VNum 3)] <> VNull /\
  exists n : Z,
    numberOfZigbeeMessages (S := unit)
      (VObj [("on", VBool true); ("bri_inc", VNum 10); ("hue", VNum 3)]) tt
      = (Ok n, tt) /\ n = 3%Z.
Proof.
  split; [discriminate|].
  destruct (numberOfZigbeeMessages_counts_groups tt) as (_ & _ & _ & H).
  destruct (H (VObj [("on", VBool true); ("bri_inc", VNum 10); ("hue", VNum 3)]))
    as (n & Hn & Hmax & _); [discriminate|].
  exists n. split; [exact Hn|]. rewrite Hmax. reflexivity.
Defined.

(** ** get: where a resource goes *)

Lemma route_resource_light_3_exact :
  route "/resource/light/3" =
  {| rt_v2 := true; rt_resource := "/resource/light"; rt_path := ["0"; "3"] |}.
Proof. reflexivity. Qed.

(** C3, as stated, fails: for ['/resource/light/3'] the resource requested
    is not ['/light/3'] and the keys left are not [["3"; "0"]]. *)
Lemma route_resource_light_3_counterexample :
  ~ (rt_v2 (route "/resource/light/3") = true /\
     rt_resource (route "/resource/light/3") = "/light/3" /\
     rt_path (route "/resource/light/3") = ["3"; "0"]).
Proof. intros (_ & H & _). vm_compute in H. discriminate. Qed.

Lemma calls_first_bind {A B} call (m : M Client A) (k : A -> M Client B) c :
  calls_first call m c -> (forall a, orderly (k a)) ->
  calls_first call (bind m k) c.
Proof.
  intros [rest Hm] Hk. unfold calls_first, bind.
  destruct (m c) as [[a|e|] c'] eqn:E; simpl in Hm; eauto.
  destruct (orderly_trace (k a) c' (Hk a)) as [t Ht]. exists (rest ++ t)%list.
  rewrite Ht, Hm. by rewrite <- app_assoc.
Qed.

Lemma calls_first_try_catch {A} call (m : M Client A) h c :
  calls_first call m c -> (forall e, orderly (h e)) ->
  calls_first call (try_catch m h) c.
Proof.
  intros [rest Hm] Hh. unfold calls_first, try_catch.
  destruct (m c) as [[a|e|] c'] eqn:E; simpl in Hm; eauto.
  destruct (orderly_trace (h e) c' (Hh e)) as [t Ht]. exists (rest ++ t)%list.
  rewrite Ht, Hm. by rewrite <- app_assoc.
Qed.

Lemma calls_first_super_request net method resource body headers c :
  calls_first {| call_method := method; call_path := path c;
                 call_resource := resource; call_body := body;
                 call_headers := headers |}
    (super_request net method resource body headers) c.
Proof. exists []. unfold super_request. by destruct (net _ _). Qed.

Lemma calls_first_request2 net method resource body retry c :
  calls_first {| call_method := method; call_path := path c;
                 call_resource := resource; call_body := or_null body;
                 call_headers := o_headers (_options c) |}
    (request2 net method resource body retry) c.
Proof.
  unfold request2. apply calls_first_try_catch.
  - unfold request2_try.
    change (calls_first ?call (bind (gets ?f) ?k) c)
      with (calls_first call (k (f c)) c).
    apply calls_first_bind; [apply calls_first_super_request|].
    intros response. orderly_auto.
  - intros e. orderly_auto.
Qed.

Lemma get_request_v2 net (resource : string) (c : Client) :
  rt_v2 (route resource) = true ->
  get_request net resource c =
  request2 net "GET" (rt_resource (route resource)) VUndef 0
    (set_path clip_v2 (set_path (o_path (_options c)) c)).
Proof. intros Hv2. unfold get_request. rewrite Hv2. reflexivity. Qed.

Lemma get_request_v1 net (resource : string) (c : Client) :
  rt_v2 (route resource) = false ->
  get_request net resource c =
  request net "GET" (rt_resource (route resource)) VUndef 0
    (set_path (o_path (_options c)) c).
Proof. intros Hv2. unfold get_request. rewrite Hv2. reflexivity. Qed.

Section Get.
Context {prototypes : Prototypes}.

(** The first HTTP call of [get] on a v2 resource goes to
    [/clip/v2/resource] with the [hue-application-key] headers. *)
Lemma get_v2_first_call (net : nat -> HttpCall -> HttpResult)
    (resource : string) (c : Client) :
  startsWith "/" resource = true ->
  rt_v2 (route resource) = true ->
  calls_first {| call_method := "GET"; call_path := clip_v2;
                 call_resource := rt_resource (route resource);
                 call_body := VNull;
                 call_headers := o_headers (_options c) |}
    (get net resource) c.
Proof.
  intros Hslash Hv2. unfold get. rewrite Hslash. cbn [negb].
  apply calls_first_bind.
  - destruct (calls_first_request2 net "GET" (rt_resource (route resource))
                VUndef 0 (set_path clip_v2 (set_path (o_path (_options c)) c)))
      as [rest Hrest].
    unfold calls_first. rewrite (get_request_v2 net resource c Hv2).
    exists rest. exact Hrest.
  - intros response. orderly_auto.
Qed.

(** The route of a resource whose first segment is none of the API v1
    resources: the first two segments are requested and ["0"] comes first
    among the keys left. *)
Lemma route_v2_by_id (resource p0 p1 : string) (rest : list string) :
  split "/" (slice_1 resource) = p0 :: p1 :: rest ->
  includes p0 ("" :: apiV1Resources) = false ->
  route resource =
  {| rt_v2 := true; rt_resource := "/" ++ p0 ++ "/" ++ p1;
     rt_path := "0" :: rest |}.
Proof.
  intros Hsplit Hp0. unfold route. rewrite Hsplit.
  unfold includes in *. simpl in Hp0 |- *.
  repeat (apply orb_false_elim in Hp0 as [? Hp0]).
  repeat match goal with H : String.eqb _ _ = false |- _ => rewrite H; clear H end.
  reflexivity.
Qed.

(** C3, amended.  ['/resource/light/3'] goes to the API v2, requested under
    [/clip/v2/resource], and the index ["0"] is the first of the keys left
    to walk down the response, not the last.  A v2 resource given without
    the [resource] segment has its first two segments requested and ["0"]
    put before the keys left: ['/light/3'] requests ['/light/3'] and
    leaves [["0"]]. *)
Theorem route_v2_index_first :
  rt_v2 (route "/resource/light/3") = true /\
  (exists rest, rt_path (route "/resource/light/3") = "0" :: rest) /\
  (forall net c, exists call,
      calls_first call (get net "/resource/light/3") c /\
      call_path call = "/clip/v2/resource" /\
      call_headers call = o_headers (_options c)) /\
  route "/light/3" =
    {| rt_v2 := true; rt_resource := "/light/3"; rt_path := ["0"] |} /\
  (forall resource p0 p1 rest,
      split "/" (slice_1 resource) = p0 :: p1 :: rest ->
      includes p0 ("" :: apiV1Resources) = false ->
      p0 <> "resource" ->
      route resource =
      {| rt_v2 := true; rt_resource := "/" ++ p0 ++ "/" ++ p1;
         rt_path := "0" :: rest |}).
Proof.
  split; [reflexivity|]. split; [by eexists|]. split; [|split; [reflexivity|]].
  - intros net c. eexists. split.
    + by apply get_v2_first_call.
    + by split.
  - intros resource p0 p1 rest Hsplit Hp0 _. by apply route_v2_by_id.
Qed.

End Get.

Lemma route_v2_index_first_witness :
  route "/light/3/on" =
  {| rt_v2 := true; rt_resource := "/light/3"; rt_path := ["0"; "on"] |}.
Proof.
  destruct (route_v2_index_first (prototypes := Samples.node_prototypes))
    as (_ & _ & _ & _ & H).
  apply (H "/light/3/on" "light" "3" ["on"]).
  - reflexivity.
  - reflexivity.
  - discriminate.
Defined.

(** ** get: walking down the response *)

Section Walk.
Context {prototypes : Prototypes}.

(** A value that the walk does not step into stays as it is. *)
Lemma walk_stays (path : list string) (b : value + foreign) :
  match b with
  | inl v => is_object v = false
  | inr f => foreign_is_object f = false
  end ->
  foldl descend b path = b.
Proof.
  intros Hb. induction path as [|key path IH]; [done|].
  cbn [foldl]. destruct b as [v|f]; cbn [descend]; by rewrite Hb.
Qed.

Lemma navigate_not_object (path : list string) (b : value) :
  is_object b = false -> navigate path b = inl b.
Proof. intros Hb. by apply walk_stays. Qed.

Lemma navigate_app (pre rest : list string) (body : value) :
  navigate (pre ++ rest) body = foldl descend (navigate pre body) rest.
Proof. apply foldl_app. Qed.

Lemma navigate_resolve (path : list string) (body w : value) :
  resolve path body = Some w -> navigate path body = inl w.
Proof.
  revert body. induction path as [|key path IH]; intros body H.
  - cbn in H. by injection H as ->.
  - cbn [resolve] in H.
    destruct (is_object body) eqn:Hobj; [|discriminate]. cbn [andb] in H.
    case_bool_decide as Hkey; [|discriminate].
    unfold navigate. cbn [foldl descend]. rewrite Hobj.
    unfold get_property, has_own. rewrite (bool_decide_eq_true_2 _ Hkey).
    cbn [orb]. by apply IH.
Qed.

(** C5, amended.  When the request of [get] succeeds and keys are left,
    [get] walks them down the body, stepping into objects and arrays and
    leaving any other value as it is, and fails with the not-found error
    exactly when the value it ends on is [null] or [undefined]; otherwise
    it returns that value.  So: keys that all resolve lead to the value
    returned (or to the failure, if that value is [null]); a key that an
    object or array on the way neither has nor inherits, or a [null]
    there, makes the call fail; a string, number or boolean on the way is
    returned and the keys after it are ignored; and a key that names a
    function inherited from the prototype, such as [constructor] or
    [toString], makes the call return that function. *)
Theorem get_walks_remainder (net : nat -> HttpCall -> HttpResult)
    (resource : string) (c c' : Client) (response : Response) :
  startsWith "/" resource = true ->
  rt_path (route resource) <> [] ->
  get_request net resource c = (Ok response, c') ->
  let path := rt_path (route resource) in
  let body := resp_body response in
  let v := navigate path body in
  get net resource c =
    (if is_nullish v then Throw (NotFound path (rt_resource (route resource)))
     else Ok v, c') /\
  (forall w, resolve path body = Some w -> v = inl w) /\
  (forall pre key rest b,
      path = (pre ++ key :: rest)%list -> resolve pre body = Some b ->
      (is_object b = true /\ get_property b key = inl VUndef) \/ nullish b = true ->
      is_nullish v = true) /\
  (forall pre key rest b,
      path = (pre ++ key :: rest)%list -> resolve pre body = Some b ->
      is_object b = false -> nullish b = false ->
      v = inl b) /\
  (forall pre key rest b f,
      path = (pre ++ key :: rest)%list -> resolve pre body = Some b ->
      is_object b = true -> has_own b key = false ->
      inherited b key = inr f ->
      foreign_is_object f = false \/ rest = [] ->
      v = inr f).
Proof.
  intros Hslash Hpath Hreq path body v. repeat split.
  - unfold get. rewrite Hslash. cbn [negb].
    unfold bind. rewrite Hreq. cbv zeta. fold path body v.
    assert ((0 <? length path)%nat = true) as ->.
    { apply Nat.ltb_lt. unfold path.
      destruct (rt_path (route resource)); [done | simpl; lia]. }
    rewrite andb_true_r. by destruct (is_nullish v).
  - intros w. apply navigate_resolve.
  - intros pre key rest b Hsplit Hpre Hb. unfold v. rewrite Hsplit.
    rewrite navigate_app, (navigate_resolve _ _ _ Hpre).
    destruct Hb as [[Hobj Habsent] | Hnull].
    + cbn [foldl descend]. rewrite Hobj, Habsent. by rewrite walk_stays.
    + rewrite walk_stays; [done | by destruct b].
  - intros pre key rest b Hsplit Hpre Hobj _. unfold v. rewrite Hsplit.
    rewrite navigate_app, (navigate_resolve _ _ _ Hpre).
    by apply walk_stays.
  - intros pre key rest b f Hsplit Hpre Hobj Hown Hf Hrest. unfold v.
    rewrite Hsplit, navigate_app, (navigate_resolve _ _ _ Hpre).
    cbn [foldl descend]. rewrite Hobj. unfold get_property. rewrite Hown, Hf.
    destruct Hrest as [Hfun | ->]; [by apply walk_stays | done].
Qed.

End Walk.

(** Sample calls are made on Node.js. *)
#[local] Existing Instance Samples.node_prototypes.

(** C5, as stated, fails: [get('/lights/1/state/on/foo')] on a light whose
    [state.on] is [true] leaves the keys [state], [on], [foo], which do not
    resolve in the body ([true] is not a keyed structure), and yet the call
    does not fail: it returns [true]. *)
Lemma get_not_found_counterexample :
  let path := rt_path (route "/lights/1/state/on/foo") in
  path <> [] /\
  ~ ((exists e, (get Samples.light_net "/lights/1/state/on/foo"
                   Samples.sample_client).1 = Throw e) <->
     resolve path Samples.sample_light = None).
Proof.
  split; [discriminate|].
  intros [_ H]. destruct H as [e He]; [reflexivity|].
  vm_compute in He. discriminate.
Qed.

Lemma get_walks_remainder_witness :
  exists c',
    get Samples.light_net "/lights/1/state/bri" Samples.sample_client =
    (Ok (inl (VNum 100)), c').
Proof.
  destruct (get_request Samples.light_net "/lights/1/state/bri"
              Samples.sample_client) as [[response|e|] c'] eqn:Hreq.
  2, 3: vm_compute in Hreq; discriminate.
  exists c'.
  rewrite (proj1 (get_walks_remainder Samples.light_net "/lights/1/state/bri"
                    Samples.sample_client c' response
                    eq_refl ltac:(discriminate) Hreq)).
  vm_compute in Hreq. injection Hreq as Hresponse _. rewrite <- Hresponse.
  reflexivity.
Defined.

(** On Node.js, [constructor] leads to the function [Object], and [get]
    returns it. *)
Lemma get_constructor_sample :
  (get Samples.light_net "/lights/1/state/constructor"
     Samples.sample_client).1 = Ok (inr (Samples.Function "Object")).
Proof. reflexivity. Qed.

(** ** request: the loop over the body *)

Lemma add_success_object (s : value) (success : gmap string value)
    (c : Client) :
  nullish s = false ->
  add_success s success c = (Ok (flatten s (own_keys s) success), c).
Proof. intros Hs. unfold add_success, bind, keys. by rewrite Hs. Qed.

(** The second half of a turn: the ["success"] of the item. *)
Lemma process_success (item : value) (errors : list value)
    (success : gmap string value) (c : Client) :
  nullish item = false ->
  (s <- prop item "success" ;;
   success <- (if negb (nullish s) && is_object s
               then add_success s success else ret success) ;;
   ret (errors, success)) c
  = (Ok (errors, item_success item success), c).
Proof.
  intros Hitem. unfold bind at 1. unfold prop. rewrite Hitem. cbn [ret].
  unfold item_success.
  destruct (nullish (member item "success")) eqn:Hs; cbn [negb andb].
  - reflexivity.
  - destruct (is_object (member item "success")); [|reflexivity].
    unfold bind. by rewrite add_success_object.
Qed.

(** A turn on an item with a non-critical ["error"]: the error is emitted
    and pushed, and the turn goes on to the ["success"] of the item. *)
Lemma process_item_noncritical (request item : value) (errors : list value)
    (success : gmap string value) (c : Client) :
  nullish item = false ->
  negb (nullish (member item "error")) && is_object (member item "error")
    = true ->
  nonCritical (member item "error") = true ->
  process_item request item (errors, success) c =
  (Ok ((errors ++ [error_entry (member item "error")])%list,
       item_success item success),
   log (EmitError (api_error request (member item "error"))) c).
Proof.
  intros Hitem Herr Htype. unfold process_item. cbn [fst snd].
  unfold bind at 1. unfold prop at 1. rewrite Hitem. cbn [ret].
  rewrite Herr. unfold bind at 1. unfold bind at 1.
  unfold emit_error at 1, modify at 1.
  cbn [api_error err_nonCritical truthy]. rewrite Htype. cbn [negb ret].
  by rewrite process_success.
Qed.

(** A turn on an item with a critical ["error"]: the error is emitted and
    thrown. *)
Lemma process_item_critical (request item : value)
    (acc : list value * gmap string value) (c : Client) :
  nullish item = false ->
  negb (nullish (member item "error")) && is_object (member item "error")
    = true ->
  nonCritical (member item "error") = false ->
  process_item request item acc c =
  (Throw (api_error request (member item "error")),
   log (EmitError (api_error request (member item "error"))) c).
Proof.
  intros Hitem Herr Htype. unfold process_item.
  unfold bind at 1. unfold prop at 1. rewrite Hitem. cbn [ret].
  rewrite Herr. unfold bind at 1. unfold bind at 1.
  unfold emit_error at 1, modify at 1.
  cbn [api_error err_nonCritical truthy]. rewrite Htype. reflexivity.
Qed.

(** A turn on an item without an ["error"] object. *)
Lemma process_item_clean (request item : value) (errors : list value)
    (success : gmap string value) (c : Client) :
  nullish item = false ->
  negb (nullish (member item "error")) && is_object (member item "error")
    = false ->
  process_item request item (errors, success) c =
  (Ok (errors, item_success item success), c).
Proof.
  intros Hitem Herr. unfold process_item. cbn [fst snd].
  unfold bind at 1. unfold prop at 1. rewrite Hitem. cbn [ret].
  rewrite Herr. unfold bind at 1. cbn [ret].
  by rewrite process_success.
Qed.

Lemma recorded_errors_cons (item : value) (items : list value) :
  recorded_errors (item :: items) =
  ((if negb (nullish (member item "error")) && is_object (member item "error")
    then [error_entry (member item "error")] else []) ++
   recorded_errors items)%list.
Proof. unfold recorded_errors. simpl. by destruct (_ && _). Qed.

Lemma emitted_errors_cons (request item : value) (items : list value) :
  emitted_errors request (item :: items) =
  ((if negb (nullish (member item "error")) && is_object (member item "error")
    then [EmitError (api_error request (member item "error"))] else []) ++
   emitted_errors request items)%list.
Proof. unfold emitted_errors. simpl. by destruct (_ && _). Qed.

(** The loop over passable items gets to the end: every ["error"] object
    is pushed and emitted, in order. *)
Lemma for_each_passable (request : value) (items : list value) :
  Forall passable items ->
  forall errors success c,
    for_each (process_item request) items (errors, success) c =
    (Ok ((errors ++ recorded_errors items)%list,
         foldl (fun success item => item_success item success) success items),
     logs (emitted_errors request items) c).
Proof.
  induction 1 as [|item items [Hitem Hpass] _ IH]; intros errors success c.
  - simpl. by rewrite app_nil_r.
  - cbn [for_each foldl]. unfold bind.
    rewrite recorded_errors_cons, emitted_errors_cons.
    destruct (negb (nullish (member item "error")) &&
              is_object (member item "error")) eqn:Herr.
    + rewrite (process_item_noncritical _ _ _ _ _ Hitem Herr (Hpass Herr)).
      rewrite IH. cbn [logs foldl app]. by rewrite <- app_assoc.
    + rewrite (process_item_clean _ _ _ _ _ Hitem Herr). by rewrite IH.
Qed.

(** The loop stops at the first turn that throws. *)
Lemma for_each_throws {A B} (body : A -> B -> M Client B)
    (pre : list A) (x : A) (rest : list A) (acc acc' : B)
    (c c' c'' : Client) (e : JsError) :
  for_each body pre acc c = (Ok acc', c') ->
  body x acc' c' = (Throw e, c'') ->
  for_each body (pre ++ x :: rest) acc c = (Throw e, c'').
Proof.
  revert acc c. induction pre as [|y pre IH]; intros acc c Hpre Hx.
  - simpl in Hpre. injection Hpre as <- <-. simpl. unfold bind. by rewrite Hx.
  - simpl in *. unfold bind in *.
    destruct (body y acc c) as [[a| |] c1]; try discriminate.
    by apply IH.
Qed.

(** ** request: one attempt, and the retries *)

Section Request.
Variable net : nat -> HttpCall -> HttpResult.
Variables method resource : string.
Variable body : value.

(** An array that comes back, not marked as empty, goes through the loop. *)
Lemma request_try_array (c : Client) (r : Response) (items : list value) :
  net (sent c) (v1_call method resource body c) = Responds r ->
  nullish (resp_headers r) = false ->
  is_string "0" (member (resp_headers r) "content-length") = false ->
  resp_body r = VArr items ->
  request_try net method resource body c =
  (acc <- for_each (process_item (resp_request r)) items ([], ∅) ;;
   ret (set_results acc.1 acc.2 r)) (called (v1_call method resource body c) c).
Proof.
  intros Hnet Hheaders Hlength Hbody. unfold request_try.
  unfold bind at 1. unfold super_request. fold (v1_call method resource body c). rewrite Hnet.
  fold (called (v1_call method resource body c) c).
  unfold bind at 1. unfold prop. rewrite Hheaders. cbn [ret].
  rewrite Hlength, Hbody. reflexivity.
Qed.

(** A body that is not an array comes back with no errors and no
    successes. *)
Lemma request_try_other (c : Client) (r : Response) :
  net (sent c) (v1_call method resource body c) = Responds r ->
  nullish (resp_headers r) = false ->
  is_string "0" (member (resp_headers r) "content-length") = false ->
  (forall items, resp_body r <> VArr items) ->
  request_try net method resource body c =
  (Ok (set_results [] ∅ r), called (v1_call method resource body c) c).
Proof.
  intros Hnet Hheaders Hlength Hbody. unfold request_try.
  unfold bind at 1. unfold super_request. fold (v1_call method resource body c). rewrite Hnet.
  fold (called (v1_call method resource body c) c).
  unfold bind at 1. unfold prop. rewrite Hheaders. cbn [ret].
  rewrite Hlength. destruct (resp_body r) eqn:E; try reflexivity.
  by destruct (Hbody items).
Qed.

Lemma request_loop_ok (fuel retry : nat) (c c' : Client) (r : Response) :
  request_try net method resource body c = (Ok r, c') ->
  request_loop net fuel method resource body retry c = (Ok r, c').
Proof.
  intros H. destruct fuel; simpl; unfold try_catch; by rewrite H.
Qed.

Lemma request_loop_throws (fuel retry : nat) (c c' : Client) (e : JsError) :
  request_try net method resource body c = (Throw e, c') ->
  retries e retry c' = false ->
  request_loop net fuel method resource body retry c = (Throw e, c').
Proof.
  intros H Hno. unfold retries in Hno.
  destruct fuel; simpl; unfold try_catch; rewrite H;
    (destruct (transient e); [|reflexivity]);
    unfold bind, gets; cbn [andb] in Hno; by rewrite Hno.
Qed.

Lemma request_loop_retries (fuel retry : nat) (c c' : Client) (e : JsError) :
  request_try net method resource body c = (Throw e, c') ->
  retries e retry c' = true ->
  request_loop net (S fuel) method resource body retry c =
  request_loop net fuel method resource body (retry + 1) (resent e c').
Proof.
  intros H Hyes. unfold retries in Hyes.
  simpl. unfold try_catch. rewrite H.
  destruct (transient e); [|discriminate].
  unfold bind, gets. cbn [andb] in Hyes. by rewrite Hyes.
Qed.

End Request.

Lemma request_ok net method resource body retry c c' r :
  request_try net method resource (or_null body) c = (Ok r, c') ->
  request net method resource body retry c = (Ok r, c').
Proof. apply request_loop_ok. Qed.

Lemma request_throws net method resource body retry c c' e :
  request_try net method resource (or_null body) c = (Throw e, c') ->
  retries e retry c' = false ->
  request net method resource body retry c = (Throw e, c').
Proof. apply request_loop_throws. Qed.

Lemma request_retries net method resource body retry c c' e :
  request_try net method resource (or_null body) c = (Throw e, c') ->
  retries e retry c' = true ->
  request net method resource body retry c =
  request net method resource body (retry + 1) (resent e c').
Proof.
  intros H Hyes. unfold request.
  assert (retry < 5) as Hlt.
  { unfold retries in Hyes. apply andb_prop in Hyes as [_ Hlt].
    by apply Nat.ltb_lt. }
  replace (5 - retry) with (S (5 - (retry + 1))) by lia.
  by apply request_loop_retries.
Qed.

(** ** C1 and C2: errors in a batch *)

(** The types that make an error non-critical. *)
Lemma nonCritical_types (e : value) :
  member e "type" = VNum 6 \/ member e "type" = VNum 7 \/
  member e "type" = VNum 8 \/ member e "type" = VNum 201 ->
  nonCritical e = true.
Proof. unfold nonCritical. by intros [-> | [-> | [-> | ->]]]. Qed.

(** *** With and without a listener for ['error'] *)

(** With a listener attached, the methods are those of [HueClient]. *)
Lemma process_item_heard (request item : value)
    (acc : list value * gmap string value) :
  Listener.process_item true request item acc = process_item request item acc.
Proof. reflexivity. Qed.

Lemma request_heard net method resource body retry :
  Listener.request true net method resource body retry =
  request net method resource body retry.
Proof. reflexivity. Qed.

Lemma request2_heard net method resource body retry :
  Listener.request2 true net method resource body retry =
  request2 net method resource body retry.
Proof. reflexivity. Qed.

(** A turn on an item without an ["error"] object emits nothing. *)
Lemma process_item_quiet (heard : bool) (request item : value)
    (errors : list value) (success : gmap string value) (c : Client) :
  nullish item = false ->
  negb (nullish (member item "error")) && is_object (member item "error")
    = false ->
  Listener.process_item heard request item (errors, success) c =
  (Ok (errors, item_success item success), c).
Proof.
  intros Hitem Herr. unfold Listener.process_item. cbn [fst snd].
  unfold bind at 1. unfold prop at 1. rewrite Hitem. cbn [ret].
  rewrite Herr. unfold bind at 1. cbn [ret].
  by rewrite process_success.
Qed.

(** Without a listener, a turn on an item with an ["error"] object throws
    the error from [emit]: nothing is emitted or pushed. *)
Lemma process_item_unheard (request item : value)
    (acc : list value * gmap string value) (c : Client) :
  nullish item = false ->
  negb (nullish (member item "error")) && is_object (member item "error")
    = true ->
  Listener.process_item false request item acc c =
  (Throw (api_error request (member item "error")), c).
Proof.
  intros Hitem Herr. unfold Listener.process_item.
  unfold bind at 1. unfold prop at 1. rewrite Hitem. cbn [ret].
  by rewrite Herr.
Qed.

Lemma recorded_errors_none (item : value) (items : list value) :
  recorded_errors (item :: items) = [] ->
  negb (nullish (member item "error")) && is_object (member item "error")
    = false /\
  recorded_errors items = [].
Proof.
  rewrite recorded_errors_cons. by destruct (_ && _).
Qed.

Lemma for_each_quiet (heard : bool) (request : value) (items : list value) :
  Forall passable items ->
  recorded_errors items = [] ->
  forall errors success c,
    for_each (Listener.process_item heard request) items (errors, success) c =
    (Ok (errors,
         foldl (fun success item => item_success item success) success items),
     c).
Proof.
  induction 1 as [|item items [Hitem _] _ IH]; intros Hnone errors success c;
    [done|].
  apply recorded_errors_none in Hnone as [Herr Hnone].
  cbn [for_each foldl]. unfold bind.
  rewrite (process_item_quiet _ _ _ _ _ _ Hitem Herr). by apply IH.
Qed.

(** Without a listener, the first ["error"] object of the response makes
    [request] throw, after its one HTTP call: the error of the item, with
    the notice of a retry added to its message when it is one that is
    tried again with a listener. *)
Lemma request_unheard net method resource body retry c r pre item rest :
  net (sent c) (v1_call method resource (or_null body) c) = Responds r ->
  nullish (resp_headers r) = false ->
  is_string "0" (member (resp_headers r) "content-length") = false ->
  resp_body r = VArr (pre ++ item :: rest) ->
  Forall passable pre ->
  recorded_errors pre = [] ->
  nullish item = false ->
  negb (nullish (member item "error")) && is_object (member item "error")
    = true ->
  let error := api_error (resp_request r) (member item "error") in
  let c1 := called (v1_call method resource (or_null body) c) c in
  Listener.request false net method resource body retry c =
  (Throw (if retries error retry c1
          then add_message (retry_message (o_waitTimeResend (_options c1)))
                 error
          else error),
   c1).
Proof.
  intros Hnet Hheaders Hlength Hbody Hpre Hnone Hitem Herr error c1.
  assert (Listener.request_try false net method resource (or_null body) c =
          (Throw error, c1)) as Htry.
  { unfold Listener.request_try.
    unfold bind at 1. unfold super_request.
    fold (v1_call method resource (or_null body) c). rewrite Hnet.
    fold (called (v1_call method resource (or_null body) c) c). fold c1.
    unfold bind at 1. unfold prop. rewrite Hheaders. cbn [ret].
    rewrite Hlength, Hbody. unfold bind.
    rewrite (for_each_throws _ pre item rest _
               ([], foldl (fun success item => item_success item success)
                      ∅ pre) c1 c1 c1 error); [done| |].
    - by apply for_each_quiet.
    - by apply process_item_unheard. }
  unfold Listener.request, retries.
  destruct (5 - retry) as [|fuel]; cbn [Listener.request_loop];
    unfold try_catch; rewrite Htry;
    (destruct (transient error); [|reflexivity]);
    unfold bind, gets; cbn [andb];
    destruct (_ && _ && _); reflexivity.
Qed.

(** C1, as stated, fails on a client without a listener for ['error']:
    for the body [[{error: {type: 7, ...}},
    {success: {"/lights/1/state/on": true}}]] the call throws the error
    and there is no response that records it. *)
Lemma request_unheard_counterexample :
  ~ (exists r c',
        Listener.request false Samples.invalid_value_net "PUT"
          "/lights/1/state" (VObj [("bri", VNum 300); ("on", VBool true)]) 0
          Samples.sample_client = (Ok r, c') /\
        resp_errors r =
          Some [VObj [("type", VNum 7); ("description", VStr "not now")]] /\
        resp_success r = Some {["on" := VBool true]}).
Proof.
  intros (r & c' & H & _).
  rewrite (request_unheard Samples.invalid_value_net "PUT" "/lights/1/state"
             _ 0 Samples.sample_client (Samples.response_of (Samples.batch 7))
             [] _ _ eq_refl eq_refl eq_refl eq_refl) in H; try done.
Qed.

(** C1, amended.  On a client with a listener for ['error'] attached: in
    the loop of [request] over a response array, an item with an ["error"]
    object whose type is one of 6, 7, 8, 201 has the error emitted with
    [nonCritical] set and pushed on the list of errors, and the loop goes
    on with the items after it.  A response whose items are all passable
    comes back with every ["error"] object on its list of errors, in
    order.  For [[{error: {type: 7, ...}},
    {success: {"/lights/1/state/on": true}}]] the response has that one
    error and the successes [{on: true}].  On a client without such a
    listener the first item with an ["error"] object makes [request]
    throw its error, and no response comes back. *)
Theorem request_records_noncritical_errors :
  (forall (request item : value) (rest : list value) (errors : list value)
          (success : gmap string value) (c : Client),
      nullish item = false ->
      negb (nullish (member item "error")) && is_object (member item "error")
        = true ->
      nonCritical (member item "error") = true ->
      err_nonCritical (api_error request (member item "error")) = VBool true /\
      for_each (Listener.process_item true request) (item :: rest)
        (errors, success) c =
      for_each (Listener.process_item true request) rest
        ((errors ++ [error_entry (member item "error")])%list,
         item_success item success)
        (log (EmitError (api_error request (member item "error"))) c)) /\
  (forall net method resource body retry c r items,
      net (sent c) (v1_call method resource (or_null body) c) = Responds r ->
      nullish (resp_headers r) = false ->
      is_string "0" (member (resp_headers r) "content-length") = false ->
      resp_body r = VArr items ->
      Forall passable items ->
      Listener.request true net method resource body retry c =
      (Ok (set_results (recorded_errors items)
             (foldl (fun success item => item_success item success) ∅ items)
             r),
       logs (emitted_errors (resp_request r) items)
         (called (v1_call method resource (or_null body) c) c))) /\
  (forall net method resource body retry c r e,
      net (sent c) (v1_call method resource (or_null body) c) = Responds r ->
      nullish (resp_headers r) = false ->
      is_string "0" (member (resp_headers r) "content-length") = false ->
      is_object e = true ->
      member e "type" = VNum 7 ->
      resp_body r =
        VArr [VObj [("error", e)];
              VObj [("success",
                     VObj [("/lights/1/state/on", VBool true)])]] ->
      err_nonCritical (api_error (resp_request r) e) = VBool true /\
      Listener.request true net method resource body retry c =
      (Ok (set_results [error_entry e] {["on" := VBool true]} r),
       log (EmitError (api_error (resp_request r) e))
         (called (v1_call method resource (or_null body) c) c)) /\
      Listener.request false net method resource body retry c =
      (Throw (api_error (resp_request r) e),
       called (v1_call method resource (or_null body) c) c)) /\
  (forall net method resource body retry c r pre item rest,
      net (sent c) (v1_call method resource (or_null body) c) = Responds r ->
      nullish (resp_headers r) = false ->
      is_string "0" (member (resp_headers r) "content-length") = false ->
      resp_body r = VArr (pre ++ item :: rest) ->
      Forall passable pre ->
      recorded_errors pre = [] ->
      nullish item = false ->
      negb (nullish (member item "error")) && is_object (member item "error")
        = true ->
      let error := api_error (resp_request r) (member item "error") in
      let c1 := called (v1_call method resource (or_null body) c) c in
      Listener.request false net method resource body retry c =
      (Throw (if retries error retry c1
              then add_message
                     (retry_message (o_waitTimeResend (_options c1))) error
              else error),
       c1)).
Proof.
  assert (forall net method resource body retry c r items,
      net (sent c) (v1_call method resource (or_null body) c) = Responds r ->
      nullish (resp_headers r) = false ->
      is_string "0" (member (resp_headers r) "content-length") = false ->
      resp_body r = VArr items ->
      Forall passable items ->
      request net method resource body retry c =
      (Ok (set_results (recorded_errors items)
             (foldl (fun success item => item_success item success) ∅ items)
             r),
       logs (emitted_errors (resp_request r) items)
         (called (v1_call method resource (or_null body) c) c))) as Hwhole.
  { intros net method resource body retry c r items Hnet Hh Hl Hbody Hpass.
    apply request_ok.
    rewrite (request_try_array net method resource (or_null body) c r items)
      by done.
    unfold bind. by rewrite for_each_passable. }
  split; [|split; [|split]].
  - intros request item rest errors success c Hitem Herr Htype. split.
    + unfold api_error. cbn [err_nonCritical]. by rewrite Htype.
    + change (Listener.process_item true request)
        with (process_item request).
      cbn [for_each]. unfold bind at 1.
      by rewrite process_item_noncritical.
  - intros net method resource body retry c. rewrite request_heard.
    apply Hwhole.
  - intros net method resource body retry c r e Hnet Hh Hl He Htype Hbody.
    assert (nullish e = false) as Hn by (by destruct e).
    split; [unfold api_error, nonCritical; cbn [err_nonCritical];
            by rewrite Htype|].
    split.
    + rewrite request_heard.
      rewrite (Hwhole net method resource body retry c r _ Hnet Hh Hl Hbody).
      * rewrite recorded_errors_cons, emitted_errors_cons.
        cbn [member field String.eqb Ascii.eqb Bool.eqb default].
        unfold id. rewrite Hn, He. cbn [negb andb app].
        reflexivity.
      * repeat constructor;
          cbn [member field String.eqb Ascii.eqb Bool.eqb default]; try done.
        unfold id, nonCritical. intros _. rewrite Htype. reflexivity.
    + rewrite (request_unheard net method resource body retry c r [] _ _
                 Hnet Hh Hl Hbody); try done.
      * unfold retries, transient, api_error.
        cbn [err_code err_statusCode err_type is_string is_number member
             field String.eqb Ascii.eqb Bool.eqb default orb].
        unfold id. by rewrite Htype.
      * cbn [member field String.eqb Ascii.eqb Bool.eqb default].
        unfold id. by rewrite Hn, He.
  - intros net method resource body retry c r pre item rest.
    apply request_unheard.
Qed.

Lemma request_records_noncritical_errors_witness :
  (exists r c',
      Listener.request true Samples.invalid_value_net "PUT" "/lights/1/state"
        (VObj [("bri", VNum 300); ("on", VBool true)]) 0 Samples.sample_client
      = (Ok r, c') /\
      resp_errors r =
        Some [VObj [("type", VNum 7); ("description", VStr "not now")]] /\
      resp_success r = Some {["on" := VBool true]}) /\
  (exists e c',
      Listener.request false Samples.invalid_value_net "PUT" "/lights/1/state"
        (VObj [("bri", VNum 300); ("on", VBool true)]) 0 Samples.sample_client
      = (Throw e, c') /\
      err_type e = VNum 7 /\ trace c' = [Http (v1_call "PUT" "/lights/1/state"
        (VObj [("bri", VNum 300); ("on", VBool true)]) Samples.sample_client)]).
Proof.
  destruct request_records_noncritical_errors as (_ & _ & H & _).
  destruct (H Samples.invalid_value_net "PUT" "/lights/1/state"
              (VObj [("bri", VNum 300); ("on", VBool true)]) 0
              Samples.sample_client (Samples.response_of (Samples.batch 7))
              (VObj [("type", VNum 7);
                     ("address", VStr "/lights/1/state/bri");
                     ("description", VStr "not now")]))
    as (_ & Hheard & Hunheard); try reflexivity.
  split.
  - eexists _, _. split; [exact Hheard|]. split; reflexivity.
  - eexists _, _. split; [exact Hunheard|]. split; reflexivity.
Defined.




(** ** C7: the retry of request2 *)

Lemma request2_try_fails net method resource body c error :
  net (sent c) (v2_call method resource body c) = Fails error ->
  request2_try net method resource body c =
  (Throw error, called (v2_call method resource body c) c).
Proof.
  intros Hnet. unfold request2_try, bind, gets, super_request.
  fold (v2_call method resource body c). by rewrite Hnet.
Qed.

Lemma request2_try_data net method resource body c r data :
  net (sent c) (v2_call method resource body c) = Responds r ->
  resp_body r = VObj [("errors", VArr []); ("data", data)] ->
  request2_try net method resource body c =
  (Ok (set_body data r), called (v2_call method resource body c) c).
Proof.
  intros Hnet Hbody. unfold request2_try, bind, gets, super_request.
  fold (v2_call method resource body c). rewrite Hnet, Hbody. reflexivity.
Qed.



(** ** C10: getApiKey *)

Lemma bind_ok {S A B} (m : M S A) (k : A -> M S B) (c c' : S) (b : B) :
  bind m k c = (Ok b, c') ->
  exists a c1, m c = (Ok a, c1) /\ k a c1 = (Ok b, c').
Proof.
  unfold bind. destruct (m c) as [[a|e|] c1]; [|done|done].
  intros H. by exists a, c1.
Qed.

(** A response that [request] returns has its successes set. *)
Lemma request_try_success net method resource body c r c' :
  request_try net method resource body c = (Ok r, c') ->
  exists success, resp_success r = Some success.
Proof.
  intros H. unfold request_try in H.
  apply bind_ok in H as (r0 & c0 & _ & H).
  apply bind_ok in H as (cl & c1 & _ & H).
  destruct (resp_body _) as [| | | | |items|];
    try (inversion H; by eexists).
  apply bind_ok in H as (acc & c2 & _ & H).
  inversion H. by eexists.
Qed.

Lemma request_loop_success net fuel method resource body retry c r c' :
  request_loop net fuel method resource body retry c = (Ok r, c') ->
  exists success, resp_success r = Some success.
Proof.
  revert retry c. induction fuel as [|fuel IH]; intros retry c; simpl;
    unfold try_catch;
    destruct (request_try net method resource body c) as [[r0|e|] c1] eqn:Htry;
    try done.
  - intros H; inversion H; subst. by eapply request_try_success.
  - destruct (transient e); [|done].
    unfold bind, gets, emit_error, timeout, modify, out_of_fuel, throw.
    by destruct (_ && _).
  - intros H; inversion H; subst. by eapply request_try_success.
  - destruct (transient e); [|done].
    unfold bind, gets, emit_error, timeout, modify, throw.
    destruct (_ && _); [|done]. apply IH.
Qed.

Section GetApiKey.
Context {rt : Runtime}.

(** C10.  What [getApiKey] does, by the outcome of its POST, which it
    makes without a key.  When the POST returns, [getApiKey] returns the
    [username] of the successes of the response, and that is the new API
    key, with path and header set to match.  When the POST throws,
    [getApiKey] throws the same error, after it has handed the API key it
    found to the setter of [apiKey]: the key is what it was, the path is
    the one that belongs to the key, and the headers are
    [{'hue-application-key': key}].  So [_options] is what it was before
    the call on a client whose path and headers came from the setter; on a
    client made without an API key, whose headers are [undefined], the
    headers are not what they were: they are
    [{'hue-application-key': undefined}]. *)
Theorem getApiKey_sets_or_restores
    (net : nat -> HttpCall -> HttpResult) (hostname application : string)
    (c : Client) :
  application <> "" ->
  let post := request net "POST" "/" (devicetype application hostname) 0
                (unauthenticated c) in
  let key := o_apiKey (_options c) in
  post.1 <> OutOfFuel /\
  (forall response c1,
      post = (Ok response, c1) ->
      exists success,
        resp_success response = Some success /\
        getApiKey net hostname application c =
        (Ok (username success),
         set_options (set_apiKey (username success) (_options c)) c1)) /\
  (forall e c1,
      post = (Throw e, c1) ->
      getApiKey net hostname application c =
      (Throw e, set_options (set_apiKey key (_options c)) c1) /\
      o_apiKey (set_apiKey key (_options c)) = key /\
      o_path (set_apiKey key (_options c)) =
        (if nullish key then "/api" else "/api" ++ "/" ++ ToString key) /\
      o_headers (set_apiKey key (_options c)) =
        VObj [("hue-application-key", key)] /\
      (forall k o, _options c = set_apiKey k o ->
                   set_apiKey key (_options c) = _options c) /\
      (o_headers (_options c) = VUndef ->
       o_headers (set_apiKey key (_options c)) <> o_headers (_options c))).
Proof.
  intros Happ post key.
  pose proof (orderly_request net "POST" "/" (devicetype application hostname)
                0 (unauthenticated c)) as (_ & Hoptions & Hfuel).
  fold post in Hoptions, Hfuel.
  assert (getApiKey net hostname application c =
          match post with
          | (Ok response, c1) =>
              match resp_success response with
              | Some success =>
                  (Ok (username success),
                   set_options (set_apiKey (username success) (_options c1))
                     c1)
              | None =>
                  (Throw (TypeError
                            [VStr "Cannot read properties of undefined"]),
                   set_options (set_apiKey key (_options c1)) c1)
              end
          | (Throw e, c1) =>
              (Throw e, set_options (set_apiKey key (_options c1)) c1)
          | (OutOfFuel, c1) => (OutOfFuel, c1)
          end) as Hget.
  { unfold getApiKey. apply String.eqb_neq in Happ. rewrite Happ.
    unfold bind at 1. cbn [gets]. unfold bind at 1. cbn [modify].
    unfold try_catch. unfold bind at 1. cbn [modify].
    fold (unauthenticated c). fold (devicetype application hostname).
    unfold bind at 1. fold post.
    destruct post as [[response|e|] c1]; [|done|done].
    unfold bind at 1. unfold success_username.
    by destruct (resp_success response). }
  split; [exact Hfuel|]. split.
  - intros response c1 Hpost.
    destruct (request_loop_success _ _ _ _ _ _ _ _ _ Hpost)
      as [success Hsuccess].
    exists success. split; [done|].
    rewrite Hget, Hpost, Hsuccess. rewrite Hpost in Hoptions.
    cbn [snd] in Hoptions. by rewrite Hoptions.
  - intros e c1 Hpost. split; [|split; [done|split; [|split; [done|split]]]].
    + rewrite Hget, Hpost. rewrite Hpost in Hoptions.
      cbn [snd] in Hoptions. by rewrite Hoptions.
    + cbn [set_apiKey o_path]. by destruct (nullish key).
    + intros k o Ho. unfold key. by rewrite Ho.
    + intros Hheaders. by rewrite Hheaders.
Qed.

End GetApiKey.

Lemma getApiKey_sets_or_restores_witness :
  (exists c',
      getApiKey (rt := Samples.text_runtime) Samples.linked_net "host.local"
        "app" Samples.keyless_client = (Ok (VStr "newkey"), c') /\
      o_apiKey (_options c') = VStr "newkey" /\
      o_path (_options c') = "/api/newkey" /\
      o_headers (_options c') =
        VObj [("hue-application-key", VStr "newkey")]) /\
  (exists e c',
      getApiKey (rt := Samples.text_runtime) Samples.unlinked_net
        "host.local" "app" Samples.keyless_client = (Throw e, c') /\
      o_apiKey (_options c') = o_apiKey (_options Samples.keyless_client) /\
      o_path (_options c') = o_path (_options Samples.keyless_client) /\
      o_headers (_options Samples.keyless_client) = VUndef /\
      o_headers (_options c') = VObj [("hue-application-key", VUndef)]).
Proof.
  split.
  - destruct (getApiKey_sets_or_restores (rt := Samples.text_runtime)
                Samples.linked_net "host.local" "app" Samples.keyless_client)
      as (_ & H & _); [done|].
    destruct (request Samples.linked_net "POST" "/"
                (devicetype "app" "host.local") 0
                (unauthenticated (rt := Samples.text_runtime)
                   Samples.keyless_client))
      as [[response|e|] c1] eqn:Hpost;
      [|vm_compute in Hpost; discriminate|vm_compute in Hpost; discriminate].
    destruct (H response c1 eq_refl) as (success & Hsuccess & Hget).
    rewrite Hget. vm_compute in Hpost. injection Hpost as <- <-.
    injection Hsuccess as <-. eexists. split; [reflexivity|].
    repeat split.
  - destruct (getApiKey_sets_or_restores (rt := Samples.text_runtime)
                Samples.unlinked_net "host.local" "app" Samples.keyless_client)
      as (_ & _ & H); [done|].
    destruct (request Samples.unlinked_net "POST" "/"
                (devicetype "app" "host.local") 0
                (unauthenticated (rt := Samples.text_runtime)
                   Samples.keyless_client))
      as [[response|e|] c1] eqn:Hpost;
      [vm_compute in Hpost; discriminate| |vm_compute in Hpost; discriminate].
    destruct (H e c1 eq_refl) as (Hget & _).
    rewrite Hget. eexists _, _. split; [reflexivity|]. repeat split.
Defined.

(** ** C4: the gate of put *)

Lemma put_found_open_snoc (os : list Outcome) (o : Outcome) :
  Forall put_found_open os -> put_found_open o ->
  Forall put_found_open (os ++ [o]).
Proof. intros Hos Ho. apply Forall_app. split; [done | by constructor]. Qed.

Lemma steady_put (w : PutCall) (s : Session) :
  steady s -> steady (put w s).
Proof.
  intros (Hopen & Hclosed & Hputs). unfold put.
  destruct (waitForIt (client s)) eqn:Hgate.
  - (* the call is held *)
    unfold steady, wait. simpl. rewrite Hgate. by repeat split.
  - destruct (Hopen eq_refl) as [Hwaiting Htimers].
    unfold put_pass.
    destruct (numberOfZigbeeMessages (put_body w) (client s))
      as [[n|e|] c'] eqn:Hn.
    + cbv zeta. rewrite Hgate.
      destruct (0 <? _)%Z; unfold steady, record, close_gate; simpl.
      * rewrite Htimers. repeat split; try done.
        by apply put_found_open_snoc.
      * rewrite Hgate. repeat split; try done.
        by apply put_found_open_snoc.
    + unfold steady, record. simpl. rewrite Hgate. repeat split; try done.
      by apply put_found_open_snoc.
    + unfold steady. by rewrite Hgate.
Qed.

Lemma steady_resume (ws : list PutCall) (s : Session) :
  steady s -> steady (foldl (fun s w => put w s) s ws).
Proof.
  revert s. induction ws as [|w ws IH]; intros s Hs; [done|].
  simpl. apply IH. by apply steady_put.
Qed.

Lemma steady_resume_all (s : Session) :
  (waitForIt (client s) = false -> timers s = []) ->
  (waitForIt (client s) = true -> length (timers s) = 1) ->
  Forall put_found_open (outcomes s) ->
  steady (resume_all s).
Proof.
  intros Hopen Hclosed Hputs. apply steady_resume.
  unfold steady. simpl. split; [|by split].
  intros Hgate. split; [done | by apply Hopen].
Qed.

Lemma steady_step (s : Session) (ev : Event) : steady s -> steady (step s ev).
Proof.
  intros Hs. destruct ev as [r b|r b|r b| |]; simpl.
  - by apply steady_put.
  - destruct Hs as (Hopen & Hclosed & Hputs).
    unfold steady, record. simpl. repeat split; try done.
    + by destruct (Hopen H).
    + by destruct (Hopen H).
    + by apply put_found_open_snoc.
  - destruct Hs as (Hopen & Hclosed & Hputs).
    unfold steady, record. simpl. repeat split; try done.
    + by destruct (Hopen H).
    + by destruct (Hopen H).
    + by apply put_found_open_snoc.
  - unfold timer_fires. destruct (timers s) as [|t rest] eqn:Ht; [done|].
    destruct Hs as (Hopen & Hclosed & Hputs).
    assert (rest = []) as ->.
    { destruct (waitForIt (client s)) eqn:Hgate.
      - specialize (Hclosed eq_refl). rewrite Ht in Hclosed.
        by destruct rest.
      - destruct (Hopen eq_refl) as [_ Hno]. congruence. }
    by apply steady_resume_all.
  - destruct Hs as (Hopen & Hclosed & Hputs).
    apply steady_resume_all; try done.
    intros Hgate. by destruct (Hopen Hgate).
Qed.

Lemma steady_run (events : list Event) (s : Session) :
  steady s -> steady (run events s).
Proof.
  revert s. induction events as [|ev events IH]; intros s Hs; [done|].
  simpl. apply IH. by apply steady_step.
Qed.

Lemma steady_new_session (c : Client) : steady (new_session c).
Proof. unfold steady. simpl. by repeat split. Qed.

(** C4, as stated, fails: a [post] made while the gate is closed by a
    [put] goes on to its request without waiting. *)
Lemma post_not_gated_counterexample :
  ~ Forall found_open
      (outcomes
         (run [CallPut "/lights/1/state" (VObj [("on", VBool true)]);
               CallPost "/lights" VUndef]
            (new_session Samples.sample_client))).
Proof.
  intros H. vm_compute in H.
  apply Forall_cons in H as [_ H]. apply Forall_cons in H as [H _].
  discriminate.
Qed.

(** C4, amended.  [put] waits for the gate: in every run of a session,
    every request that a [put] went on to found [waitForIt] false when the
    call got past its wait, and a [put] called while [waitForIt] is true
    starts no request and is held.  [post] and [delete] do not wait: they
    go on to their request at once, whatever [waitForIt] is. *)
Theorem put_waits_for_gate :
  (forall (events : list Event) (c : Client),
      Forall put_found_open (outcomes (run events (new_session c)))) /\
  (forall (s : Session) (resource : string) (body : value),
      waitForIt (client s) = true ->
      outcomes (step s (CallPut resource body)) = outcomes s /\
      waiting (step s (CallPut resource body)) =
        (waiting s ++ [{| put_resource := resource; put_body := body |}])%list) /\
  (forall (s : Session) (resource : string) (body : value),
      outcomes (step s (CallPost resource body)) =
        (outcomes s ++
         [Started "POST" resource body (waitForIt (client s))])%list /\
      outcomes (step s (CallDelete resource body)) =
        (outcomes s ++
         [Started "DELETE" resource body (waitForIt (client s))])%list).
Proof.
  split; [|split].
  - intros events c.
    by destruct (steady_run events _ (steady_new_session c)) as (_ & _ & H).
  - intros s resource body Hgate. simpl. unfold put. by rewrite Hgate.
  - intros s resource body. by split.
Qed.

Lemma put_waits_for_gate_witness :
  let s := run [CallPut "/lights/1/state" (VObj [("on", VBool true)])]
             (new_session Samples.sample_client) in
  waitForIt (client s) = true /\
  outcomes (step s (CallPut "/lights/2/state" (VObj [("on", VBool true)])))
  = [Started "PUT" "/lights/1/state" (VObj [("on", VBool true)]) false].
Proof.
  split; [reflexivity|].
  destruct put_waits_for_gate as (_ & H & _).
  destruct (H (run [CallPut "/lights/1/state" (VObj [("on", VBool true)])]
                 (new_session Samples.sample_client))
              "/lights/2/state" (VObj [("on", VBool true)]) eq_refl)
    as [Houtcomes _].
  rewrite Houtcomes. reflexivity.
Defined.

End HueClientFacts.

(* ===================================================================== *)
(** * Properties of lib/EventStreamClient.js *)
(* ===================================================================== *)

Module EventStreamClientFacts.
Import JS Eff Eff.Notations EventStreamClient StreamReference.

(** ** C6: close and reconnect *)

Lemma closing_effects_quiet (c : Stream) :
  forallb (fun e => negb (reconnects e)) (closing_effects c) = true.
Proof. unfold closing_effects. by destruct (request c), (listening c). Qed.

(** Runs the state changes of a method body, leaving arithmetic alone. *)
Ltac run_stream :=
  cbv [close listen on_socket_close bind gets modify ret emit emit_error
       try_catch set_listening set_request set_requestId log stream_url
       closed reconnected closing_effects
       options request listening requestId buttonMap s sockets effects
       retryTime url resource andb negb fst snd].

Lemma close_no_retry (retry : bool) (c : Stream) :
  retry && (0 <? retryTime (options c))%Z = false ->
  close retry c = (Ok tt, closed [] c).
Proof.
  intros Hno. destruct c as [o r l n m t ss es]. destruct o as [rt rw v u rs nm].
  cbv [options retryTime] in Hno.
  destruct retry; cbv [andb] in Hno; destruct r, l; run_stream;
    rewrite ?Hno; rewrite <- ?app_assoc; cbn [app]; by rewrite ?app_nil_r.
Qed.

Lemma close_retry (c : Stream) :
  (0 < retryTime (options c))%Z ->
  close true c = (Ok tt, reconnected c).
Proof.
  intros Hyes. apply Z.ltb_lt in Hyes.
  destruct c as [o r l n m t ss es]. destruct o as [rt rw v u rs nm].
  cbv [options retryTime] in Hyes.
  destruct r, l; run_stream; rewrite Hyes; run_stream;
    rewrite <- ?app_assoc; by cbn [app].
Qed.

(** [close] leaves the ['close'] listeners of the sockets where they
    are. *)
Lemma close_keeps_sockets (retry : bool) (c : Stream) :
  sockets (close retry c).2 = sockets c.
Proof.
  destruct c as [o r l n m t ss es]. destruct o as [rt rw v u rs nm].
  destruct retry, r, l; run_stream; try reflexivity;
    destruct (0 <? rt)%Z; reflexivity.
Qed.

(** So when the ['close'] of a socket comes after a call of [close()] by
    the user, its listener runs all the same. *)
Lemma socket_closed_after_close {rt : Runtime} (c : Stream) (id : nat) :
  id ∈ sockets c ->
  (0 < retryTime (options c))%Z ->
  handle (SocketClosed id) (close false c).2 =
  (Ok tt, reconnected (close false c).2).
Proof.
  intros Hid Hyes. unfold handle, bind, gets.
  rewrite close_keeps_sockets, bool_decide_eq_true_2 by done.
  unfold on_socket_close, try_catch. rewrite close_retry; [done|].
  by rewrite close_no_retry.
Qed.

(** The client that has called [listen], has got a socket and a response:
    it holds the request it made and listens. *)
Lemma listening_stream {rt : Runtime} (o : Options) :
  exists t,
    StreamRun.run [UserListen; SocketAssigned; ResponseArrives]
      (StreamRun.new_stream o) =
    (Ok tt,
     {| options := o; request := Some 1; listening := true; requestId := 1;
        buttonMap := None; s := ""; sockets := [1]; effects := t |}).
Proof. eexists. reflexivity. Qed.

(** C6.  The code does not keep a call of [close()] by the user from
    ending in a reconnect.  On a client made with a positive [retryTime]
    that has called [listen] and has got its socket and its response, the
    call itself closes the client and does nothing of a reconnect; but it
    destroys the request, the socket of the request emits ['close'], and
    the listener that [listen] left on the socket closes the client for a
    retry: it waits [retryTime] seconds and calls [listen], so that the
    client holds a new request.  The other half of the claim holds: when
    the socket is closed and [retryTime] is positive, the client closes,
    waits [retryTime] seconds and calls [listen]. *)
Theorem close_by_user_reconnects {rt : Runtime} (o : Options) :
  (0 < retryTime o)%Z ->
  let c := (StreamRun.run [UserListen; SocketAssigned; ResponseArrives]
              (StreamRun.new_stream o)).2 in
  (request c = Some 1 /\ listening c = true /\ options c = o) /\
  (handle UserClose c = (Ok tt, closed [] c) /\
   forallb (fun e => negb (reconnects e)) (closing_effects c) = true) /\
  (StreamRun.run (StreamRun.user_closes c) c =
     (Ok tt, reconnected (closed [] c)) /\
   request (reconnected (closed [] c)) = Some 2 /\
   effects (reconnected (closed [] c)) =
     (effects c ++
      [Destroyed 1; Emit "closed" [VStr (stream_url c)];
       Sleep (retryTime o * 1000); Opened 2])%list) /\
  (forall c' : Stream,
      (0 < retryTime (options c'))%Z ->
      on_socket_close c' = (Ok tt, reconnected c')).
Proof.
  intros Hyes c. destruct (listening_stream o) as [t Hc].
  assert (c = {| options := o; request := Some 1; listening := true;
                 requestId := 1; buttonMap := None; s := "";
                 sockets := [1]; effects := t |}) as Hc'.
  { unfold c. by rewrite Hc. }
  clearbody c. subst c. clear Hc.
  split; [done|]. split; [|split].
  - split; [by apply close_no_retry | apply closing_effects_quiet].
  - split; [|split].
    + unfold StreamRun.run, StreamRun.user_closes. cbn [request for_each].
      unfold bind at 1. cbn [handle]. rewrite close_no_retry by done.
      unfold bind, gets. cbn [closed sockets].
      rewrite bool_decide_eq_true_2 by (by apply list_elem_of_singleton).
      unfold on_socket_close, try_catch. by rewrite close_retry.
    + reflexivity.
    + unfold reconnected, closed, closing_effects.
      cbn [effects request listening options requestId].
      by rewrite app_nil_r, <- app_assoc.
  - intros c' Hyes'. unfold on_socket_close, try_catch.
    by rewrite close_retry.
Qed.

Lemma close_by_user_reconnects_witness :
  let c := (StreamRun.run (rt := Samples.text_runtime)
              [UserListen; SocketAssigned; ResponseArrives]
              (StreamRun.new_stream (options StreamSamples.sample_stream))).2
  in
  effects (StreamRun.run (rt := Samples.text_runtime)
             (StreamRun.user_closes c) c).2 =
  [Opened 1;
   Emit "request" [requestInfo 1 StreamSamples.sample_stream];
   Emit "response"
     [VObj [("statusCode", VNum 200); ("statusMessage", VStr "OK");
            ("request", requestInfo 1 StreamSamples.sample_stream)]];
   Emit "listening" [VStr "https://192.168.1.2/eventstream/clip/v2"];
   Destroyed 1;
   Emit "closed" [VStr "https://192.168.1.2/eventstream/clip/v2"];
   Sleep 10000; Opened 2].
Proof.
  intros c.
  destruct (close_by_user_reconnects (rt := Samples.text_runtime)
              (options StreamSamples.sample_stream) eq_refl)
    as (_ & _ & (Hrun & _ & Heffects) & _).
  fold c in Hrun, Heffects. rewrite Hrun. cbn [snd]. rewrite Heffects.
  vm_compute. reflexivity.
Defined.

(** ** C8: an update in the style of the API v1 *)

Section Decode.
Context {rt : Runtime}.

(** The case ['dimming'] of the [switch]: [bri] is the brightness times
    2.54, rounded. *)
Lemma parse_key_dimming (obj data resource : value) (ch : Changes)
    (c : Stream) (brightness : float) :
  member data "dimming" = VObj [("brightness", VNum brightness)] ->
  parse_key obj data resource "dimming" ch c =
  (Ok (set_state "bri" (VNum (Math_round (brightness * 2.54)%float)) ch), c).
Proof. intros H. unfold parse_key. cbn. by rewrite H. Qed.

(** A [data: ] line goes to [_parseContainer] with what [JSON.parse]
    makes of the text after the colon. *)
Lemma parse_line_data (line payload : string) (rest : list string)
    (container : value) (c : Stream) :
  split ": " line = "data" :: payload :: rest ->
  JSON_parse payload = Some container ->
  raw (options c) = false ->
  parse_line line c = _parseContainer container c.
Proof.
  intros Hsplit Hparse Hraw. unfold parse_line. rewrite Hsplit.
  change (String.eqb (default "" (("data" :: payload :: rest) !! 0%nat)) "data")
    with true.
  change (default "undefined" (("data" :: payload :: rest) !! 1%nat))
    with payload.
  cbv iota. rewrite Hparse. unfold bind, gets. by rewrite Hraw.
Qed.

(** A chunk that ends a frame, with nothing gathered before it: the frame
    is emitted and its lines are parsed one after the other. *)
Lemma on_data_frame (buffer : string) (c : Stream) :
  s c = "" ->
  slice_m2 buffer = String "010" (String "010" "") ->
  on_data buffer c =
  try_catch
    (for_each (fun line (_ : unit) => parse_line line)
       (split (String "010" "") (trim buffer)) tt)
    emit_error
    (log (Emit "data" [VStr (trim buffer)]) c).
Proof.
  intros Hs Hslice. destruct c as [o r l n m t ss es]. simpl in Hs. subst t.
  unfold on_data, try_catch.
  unfold bind at 1. cbn [gets s]. change ("" ++ buffer) with buffer.
  unfold bind at 1. cbn [modify]. rewrite Hslice.
  change (negb (String.eqb (String "010" (String "010" ""))
                  (String "010" (String "010" "")))) with false.
  cbv iota. unfold bind at 1. cbn [modify].
  unfold bind at 1. cbn [emit modify]. unfold bind at 1. cbn [modify].
  reflexivity.
Qed.

End Decode.

(** For a brightness of [p] percent, [p] whole, the result is
    [round(254 p / 100)]. *)
Lemma brightness_scale (p : nat) :
  p <= 100 ->
  Math_round (float_of_nat p * 2.54)%float = float_of_Z (scaled p) /\
  (0 <= scaled p <= 254)%Z.
Proof.
  intros Hp. split.
  - do 101 (destruct p as [|p]; [vm_compute; reflexivity|]). lia.
  - unfold scaled. split.
    + apply Z.div_pos; lia.
    + assert ((254 * Z.of_nat p + 50) / 100 < 255)%Z; [|lia].
      apply Z.div_lt_upper_bound; lia.
Qed.

(** C8.  On a client for events in the style of the API v1 with nothing
    gathered yet, the frame whose data line is
    [data: [{"type":"update","data":[{"id_v1":"/lights/1",
    "on":{"on":true},"dimming":{"brightness":50}}]}]] makes the ['data']
    handler emit the text of the frame and then one ['changed'] event, for
    ['/lights/1/state'] with [{on: true, bri: 127}], and nothing else.  In
    general [bri] is the brightness times 2.54, rounded; for a whole
    percentage from 0 to 100 that is [round(254 p / 100)], from 0 to
    254. *)
Theorem data_frame_light_update {rt : Runtime} :
  (forall c : Stream,
      version (options c) = 1 -> raw (options c) = false -> s c = "" ->
      JSON_parse StreamSamples.light_update_text
        = Some StreamSamples.light_update ->
      (on_data StreamSamples.light_update_frame c).1 = Ok tt /\
      s (on_data StreamSamples.light_update_frame c).2 = "" /\
      effects (on_data StreamSamples.light_update_frame c).2 =
      (effects c ++
       [Emit "data" [VStr ("data: " ++ StreamSamples.light_update_text)];
        Emit "changed"
          [VStr "/lights/1/state";
           VObj [("on", VBool true); ("bri", VNum 127)]]])%list) /\
  (forall (obj data resource : value) (ch : Changes) (c : Stream)
          (brightness : float),
      member data "dimming" = VObj [("brightness", VNum brightness)] ->
      parse_key obj data resource "dimming" ch c =
      (Ok (set_state "bri" (VNum (Math_round (brightness * 2.54)%float)) ch),
       c)) /\
  (forall p : nat,
      p <= 100 ->
      Math_round (float_of_nat p * 2.54)%float = float_of_Z (scaled p) /\
      (0 <= scaled p <= 254)%Z).
Proof.
  split; [|split; [apply @parse_key_dimming | apply brightness_scale]].
  intros c Hversion Hraw Hs Hparse.
  assert (on_data StreamSamples.light_update_frame c =
          (Ok tt,
           log (Emit "changed"
                  [VStr "/lights/1/state";
                   VObj [("on", VBool true); ("bri", VNum 127)]])
             (log (Emit "data"
                     [VStr ("data: " ++ StreamSamples.light_update_text)])
                c))) as ->.
  { rewrite on_data_frame by (done || reflexivity).
    change (trim StreamSamples.light_update_frame)
      with ("data: " ++ StreamSamples.light_update_text).
    change (split (String "010" "")
              ("data: " ++ StreamSamples.light_update_text))
      with ["data: " ++ StreamSamples.light_update_text].
    unfold try_catch. cbn [for_each]. unfold bind at 1.
    rewrite (parse_line_data _ StreamSamples.light_update_text []
               StreamSamples.light_update); [|reflexivity|done|done].
    destruct c as [o r l n m t ss es]. destruct o as [rtime rw v u rs nm].
    simpl in Hversion. subst v. reflexivity. }
  split; [reflexivity|]. split; [exact Hs|].
  cbn [snd log effects]. by rewrite <- app_assoc.
Qed.

Lemma data_frame_light_update_witness :
  effects (on_data (rt := StreamSamples.light_runtime)
             StreamSamples.light_update_frame StreamSamples.sample_stream).2 =
  [Emit "data" [VStr ("data: " ++ StreamSamples.light_update_text)];
   Emit "changed"
     [VStr "/lights/1/state"; VObj [("on", VBool true); ("bri", VNum 127)]]].
Proof.
  destruct (data_frame_light_update (rt := StreamSamples.light_runtime))
    as [H _].
  destruct (H StreamSamples.sample_stream eq_refl eq_refl eq_refl eq_refl)
    as (_ & _ & Heffects).
  exact Heffects.
Defined.

End EventStreamClientFacts.

(* ===================================================================== *)
(** * Further properties of lib/HueClient.js *)
(* ===================================================================== *)

Module HueClientMoreFacts.
Import JS Eff Eff.Notations HueClient Reference HueClientMore HueClientFacts.

(** ** The number of HTTP calls *)

(** [m] makes no HTTP call. *)
Lemma keeps_sent_process_item (request item : value) acc (c : Client) :
  sent (process_item request item acc c).2 = sent c.
Proof.
  unfold process_item, bind, prop, add_success, keys, emit_error, modify, ret,
    throw.
  destruct (nullish item); [done|].
  destruct (negb (nullish (member item "error")) &&
            is_object (member item "error")); cbn [fst snd].
  - destruct (negb (truthy _)); [done|].
    destruct (negb (nullish (member item "success")) &&
              is_object (member item "success")); [|done].
    by destruct (nullish (member item "success")).
  - destruct (negb (nullish (member item "success")) &&
              is_object (member item "success")); [|done].
    by destruct (nullish (member item "success")).
Qed.

Lemma keeps_sent_for_each (request : value) (items : list value) acc c :
  sent (for_each (process_item request) items acc c).2 = sent c.
Proof.
  revert acc c. induction items as [|item items IH]; intros acc c; [done|].
  cbn [for_each]. unfold bind.
  pose proof (keeps_sent_process_item request item acc c) as H.
  destruct (process_item request item acc c) as [[a|e|] c1]; cbn [snd] in *;
    [|done|done].
  by rewrite IH.
Qed.

(** An attempt makes exactly one HTTP call, however it ends. *)
Lemma request_try_sent net method resource body c :
  sent (request_try net method resource body c).2 = S (sent c).
Proof.
  unfold request_try. unfold bind at 1. unfold super_request.
  destruct (net _ _) as [r|e]; [|done].
  unfold bind at 1. unfold prop.
  destruct (nullish (resp_headers r)); [done|]. cbn [ret].
  destruct (resp_body (if is_string "0" _ then _ else _)); try done.
  unfold bind.
  pose proof (keeps_sent_for_each
                (resp_request (if is_string "0"
                                    (member (resp_headers r) "content-length")
                               then set_body VNull r else r))
                items ([], ∅)
                (count_call (log (Http
                   {| call_method := method; call_path := path c;
                      call_resource := resource; call_body := body;
                      call_headers := VUndef |}) c))) as H.
  destruct (for_each _ items _ _) as [[a|e|] c1]; simpl in *; by rewrite H.
Qed.

Lemma request_loop_sent net fuel method resource body retry c :
  S (sent c) <= sent (request_loop net fuel method resource body retry c).2
  <= sent c + S fuel.
Proof.
  revert retry c. induction fuel as [|fuel IH]; intros retry c; simpl;
    unfold try_catch;
    pose proof (request_try_sent net method resource body c) as Htry;
    destruct (request_try net method resource body c) as [[r|e|] c1];
    cbn [snd] in *; try lia.
  - destruct (transient e); [|simpl; lia].
    unfold bind, gets, emit_error, timeout, modify, out_of_fuel, throw.
    destruct (_ && _); simpl; lia.
  - destruct (transient e); [|simpl; lia].
    unfold bind, gets, emit_error, timeout, modify, throw.
    destruct (_ && _); [|simpl; lia].
    match goal with |- context [request_loop net fuel _ _ _ ?r ?c'] =>
      specialize (IH r c') end.
    simpl in IH. lia.
Qed.

(** X1.  [request] makes at least one HTTP call and at most one more than
    the retries that are left: at most 6 from [retry = 0], and one when
    [retry] is 5 or more. *)
Theorem request_calls_bounded net method resource body retry c :
  S (sent c) <= sent (request net method resource body retry c).2
  <= sent c + S (5 - retry).
Proof. apply request_loop_sent. Qed.

(** ** The errors of a response that comes back *)

Lemma noncritical_error_entry (e : value) :
  nonCritical e = true -> noncritical_entry (error_entry e).
Proof. done. Qed.

Lemma process_item_entries (request item : value) acc acc' (c c' : Client) :
  Forall noncritical_entry acc.1 ->
  process_item request item acc c = (Ok acc', c') ->
  Forall noncritical_entry acc'.1.
Proof.
  intros Hacc H. unfold process_item in H.
  apply bind_ok in H as (e & c1 & He & H).
  apply bind_ok in H as (errors & c2 & Herrors & H).
  apply bind_ok in H as (s & c3 & _ & H).
  apply bind_ok in H as (success & c4 & _ & H).
  inversion H; subst acc'. cbn [fst].
  destruct (negb (nullish e) && is_object e).
  - apply bind_ok in Herrors as ([] & c5 & _ & Herrors).
    cbn [api_error err_nonCritical truthy] in Herrors.
    destruct (nonCritical e) eqn:Hnc; cbn [negb] in Herrors; [|done].
    inversion Herrors. apply Forall_app. split; [done|].
    constructor; [|done]. by apply noncritical_error_entry.
  - by inversion Herrors; subst.
Qed.

Lemma for_each_entries (request : value) (items : list value) acc acc' c c' :
  Forall noncritical_entry acc.1 ->
  for_each (process_item request) items acc c = (Ok acc', c') ->
  Forall noncritical_entry acc'.1.
Proof.
  revert acc c. induction items as [|item items IH]; intros acc c Hacc H.
  - by inversion H; subst.
  - cbn [for_each] in H. apply bind_ok in H as (a & c1 & Hitem & H).
    eapply IH; [|exact H]. by eapply process_item_entries.
Qed.

Lemma request_try_entries net method resource body c r c' :
  request_try net method resource body c = (Ok r, c') ->
  exists errors success,
    resp_errors r = Some errors /\ resp_success r = Some success /\
    Forall noncritical_entry errors.
Proof.
  intros H. unfold request_try in H.
  apply bind_ok in H as (r0 & c0 & _ & H).
  apply bind_ok in H as (cl & c1 & _ & H).
  destruct (resp_body _) as [| | | | |items|];
    try (inversion H; by exists [], ∅).
  apply bind_ok in H as (acc & c2 & Hloop & H).
  inversion H. exists acc.1, acc.2. repeat split.
  by apply (for_each_entries _ items ([], ∅) acc c1 c2 (Forall_nil_2 _) Hloop).
Qed.

Lemma request_loop_entries net fuel method resource body retry c r c' :
  request_loop net fuel method resource body retry c = (Ok r, c') ->
  exists errors success,
    resp_errors r = Some errors /\ resp_success r = Some success /\
    Forall noncritical_entry errors.
Proof.
  revert retry c. induction fuel as [|fuel IH]; intros retry c; simpl;
    unfold try_catch;
    destruct (request_try net method resource body c) as [[r0|e|] c1] eqn:Htry;
    try done.
  - intros H; inversion H; subst. by eapply request_try_entries.
  - destruct (transient e); [|done].
    unfold bind, gets, emit_error, timeout, modify, out_of_fuel, throw.
    by destruct (_ && _).
  - intros H; inversion H; subst. by eapply request_try_entries.
  - destruct (transient e); [|done].
    unfold bind, gets, emit_error, timeout, modify, throw.
    destruct (_ && _); [|done]. apply IH.
Qed.

(** X2.  A response that [request] returns has its list of errors and its
    successes set, and every entry of the list has one of the non-critical
    types 6, 7, 8, 201: an error of another type never comes back as part
    of a response. *)
Theorem request_returns_noncritical net method resource body retry c r c' :
  request net method resource body retry c = (Ok r, c') ->
  exists errors success,
    resp_errors r = Some errors /\ resp_success r = Some success /\
    Forall noncritical_entry errors.
Proof. apply request_loop_entries. Qed.

Lemma request_returns_noncritical_witness :
  exists r c' errors,
    request Samples.invalid_value_net "PUT" "/lights/1/state"
      (VObj [("bri", VNum 300); ("on", VBool true)]) 0 Samples.sample_client
    = (Ok r, c') /\
    resp_errors r = Some errors /\ Forall noncritical_entry errors.
Proof.
  destruct (request Samples.invalid_value_net "PUT" "/lights/1/state"
              (VObj [("bri", VNum 300); ("on", VBool true)]) 0
              Samples.sample_client) as [[r|e|] c'] eqn:E;
    [|vm_compute in E; discriminate|vm_compute in E; discriminate].
  destruct (request_returns_noncritical _ _ _ _ _ _ _ _ E)
    as (errors & success & He & _ & Hall).
  by exists r, c', errors.
Defined.


(** ** request2 and getApplicationKey *)

Lemma logs_snoc (t : list Effect) (e : Effect) (c : Client) :
  logs (t ++ [e]) c = log e (logs t c).
Proof. unfold logs. by rewrite foldl_app. Qed.

Lemma for_each_v2_errors (es : list value) (c : Client) :
  for_each (fun e (_ : unit) =>
              emit_error (plain_error "Error" [VStr "api error "; e]))
    es tt c = (Ok tt, logs (map v2_error es) c).
Proof.
  revert c. induction es as [|e es IH]; intros c; [done|].
  cbn [for_each map]. unfold bind at 1. cbn [emit_error modify].
  by rewrite IH.
Qed.

Lemma request2_try_errors net method resource body c r es :
  net (sent c) (v2_call method resource body c) = Responds r ->
  nullish (resp_body r) = false ->
  body_errors (resp_body r) = VArr es ->
  request2_try net method resource body c =
  (Ok (set_body (member (resp_body r) "data") r),
   logs (map v2_error es) (called (v2_call method resource body c) c)).
Proof.
  intros Hnet Hbody Hes. unfold request2_try.
  unfold bind at 1. cbn [gets]. unfold bind at 1. unfold super_request.
  fold (v2_call method resource body c). rewrite Hnet, Hes.
  unfold bind at 1. cbn [iterate ret]. unfold bind at 1.
  rewrite for_each_v2_errors. unfold bind, prop. by rewrite Hbody.
Qed.

Lemma request2_try_no_body net method resource body c r :
  net (sent c) (v2_call method resource body c) = Responds r ->
  nullish (resp_body r) = true ->
  request2_try net method resource body c =
  (Throw (TypeError [VStr "Cannot read properties of "; resp_body r]),
   called (v2_call method resource body c) c).
Proof.
  intros Hnet Hbody. unfold request2_try.
  unfold bind at 1. cbn [gets]. unfold bind at 1. unfold super_request.
  fold (v2_call method resource body c). rewrite Hnet.
  unfold body_errors. rewrite Hbody.
  unfold bind at 1. cbn [iterate ret]. unfold bind at 1. cbn [for_each ret].
  unfold bind, prop. by rewrite Hbody.
Qed.

Lemma request2_with_errors net method resource body retry c r es :
  net (sent c) (v2_call method resource (or_null body) c) = Responds r ->
  nullish (resp_body r) = false ->
  body_errors (resp_body r) = VArr es ->
  request2 net method resource body retry c =
  (Ok (set_body (member (resp_body r) "data") r),
   logs (map v2_error es)
     (called (v2_call method resource (or_null body) c) c)).
Proof.
  intros Hnet Hbody Hes. unfold request2, try_catch.
  by rewrite (request2_try_errors _ _ _ _ _ _ _ Hnet Hbody Hes).
Qed.

Lemma request2_without_body net method resource body retry c r :
  net (sent c) (v2_call method resource (or_null body) c) = Responds r ->
  nullish (resp_body r) = true ->
  request2 net method resource body retry c =
  (Throw (TypeError [VStr "Cannot read properties of "; resp_body r]),
   called (v2_call method resource (or_null body) c) c).
Proof.
  intros Hnet Hbody. unfold request2, try_catch.
  by rewrite (request2_try_no_body _ _ _ _ _ _ Hnet Hbody).
Qed.

(** Without a listener for ['error'], the first entry of [body.errors]
    makes [request2] throw. *)
Lemma request2_unheard net method resource body retry c r e es :
  net (sent c) (v2_call method resource (or_null body) c) = Responds r ->
  body_errors (resp_body r) = VArr (e :: es) ->
  Listener.request2 false net method resource body retry c =
  (Throw (plain_error "Error" [VStr "api error "; e]),
   called (v2_call method resource (or_null body) c) c).
Proof.
  intros Hnet Hes. unfold Listener.request2, try_catch, Listener.request2_try.
  unfold bind at 1. cbn [gets]. unfold bind at 1. unfold super_request.
  fold (v2_call method resource (or_null body) c). rewrite Hnet, Hes.
  reflexivity.
Qed.

Lemma request2_no_errors heard net method resource body retry c r :
  net (sent c) (v2_call method resource (or_null body) c) = Responds r ->
  nullish (resp_body r) = false ->
  body_errors (resp_body r) = VArr [] ->
  Listener.request2 heard net method resource body retry c =
  (Ok (set_body (member (resp_body r) "data") r),
   called (v2_call method resource (or_null body) c) c).
Proof.
  intros Hnet Hbody Hes.
  unfold Listener.request2, try_catch, Listener.request2_try.
  unfold bind at 1. cbn [gets]. unfold bind at 1. unfold super_request.
  fold (v2_call method resource (or_null body) c). rewrite Hnet, Hes.
  unfold bind at 1. cbn [iterate ret]. unfold bind at 1. cbn [for_each ret].
  unfold bind, prop. by rewrite Hbody.
Qed.

(** X3.  On a client with a listener for ['error'], the errors of an API
    v2 response do not make [request2] fail: with a body that is not
    [null], each entry of [body.errors] is emitted as an ['error'] event,
    in order, after the one HTTP call, and the response comes back with
    [body.data] as its body; [errors] and [success] are not set on it.
    The same holds without a listener when [body.errors] is empty.  On a
    client without a listener, the first entry of [body.errors] makes
    [request2] throw the error made of it, after the one HTTP call. *)
Theorem request2_reports_errors heard net method resource body retry c r es :
  net (sent c) (v2_call method resource (or_null body) c) = Responds r ->
  nullish (resp_body r) = false ->
  body_errors (resp_body r) = VArr es ->
  (heard = true \/ es = [] ->
   Listener.request2 heard net method resource body retry c =
   (Ok (set_body (member (resp_body r) "data") r),
    logs (map v2_error es)
      (called (v2_call method resource (or_null body) c) c)) /\
   resp_errors (set_body (member (resp_body r) "data") r) = resp_errors r) /\
  (heard = false ->
   forall e es', es = e :: es' ->
   Listener.request2 heard net method resource body retry c =
   (Throw (plain_error "Error" [VStr "api error "; e]),
    called (v2_call method resource (or_null body) c) c)).
Proof.
  intros Hnet Hbody Hes. split.
  - intros [-> | ->]; (split; [|done]).
    + rewrite HueClientFacts.request2_heard. by apply request2_with_errors.
    + by apply request2_no_errors.
  - intros -> e es' ->. by apply (request2_unheard _ _ _ _ _ _ r e es').
Qed.

Lemma request2_reports_errors_witness :
  (exists r,
      Listener.request2 true MoreSamples.busy_v2_net "PUT" "/light/3"
        (VObj [("on", VObj [("on", VBool true)])]) 0 Samples.sample_client =
      (Ok r,
       logs [v2_error (VObj [("description", VStr "device unreachable")])]
         (called (v2_call "PUT" "/light/3"
                    (VObj [("on", VObj [("on", VBool true)])])
                    Samples.sample_client)
            Samples.sample_client)) /\
      resp_body r = VArr [] /\ resp_errors r = None) /\
  (exists e c',
      Listener.request2 false MoreSamples.busy_v2_net "PUT" "/light/3"
        (VObj [("on", VObj [("on", VBool true)])]) 0 Samples.sample_client =
      (Throw e, c') /\
      err_message e =
        [VStr "api error ";
         VObj [("description", VStr "device unreachable")]] /\
      sent c' = 1).
Proof.
  split.
  - destruct (request2_reports_errors true MoreSamples.busy_v2_net "PUT"
                "/light/3" (VObj [("on", VObj [("on", VBool true)])]) 0
                Samples.sample_client
                (Samples.response_of MoreSamples.v2_error_body)
                [VObj [("description", VStr "device unreachable")]]
                eq_refl eq_refl eq_refl) as [H _].
    destruct (H (or_introl eq_refl)) as [Hrequest _].
    eexists. split; [exact Hrequest|]. split; reflexivity.
  - destruct (request2_reports_errors false MoreSamples.busy_v2_net "PUT"
                "/light/3" (VObj [("on", VObj [("on", VBool true)])]) 0
                Samples.sample_client
                (Samples.response_of MoreSamples.v2_error_body)
                [VObj [("description", VStr "device unreachable")]]
                eq_refl eq_refl eq_refl) as [_ H].
    eexists _, _. split; [exact (H eq_refl _ _ eq_refl)|]. split; reflexivity.
Defined.

(** X4.  A response without a body makes [request2] throw a [TypeError],
    from reading [data] of the body, once the HTTP call has been made;
    the call is not made again. *)
Theorem request2_no_body net method resource body retry c r :
  net (sent c) (v2_call method resource (or_null body) c) = Responds r ->
  nullish (resp_body r) = true ->
  request2 net method resource body retry c =
  (Throw (TypeError [VStr "Cannot read properties of "; resp_body r]),
   called (v2_call method resource (or_null body) c) c) /\
  sent (request2 net method resource body retry c).2 = S (sent c).
Proof.
  intros Hnet Hbody.
  pose proof (request2_without_body net method resource body retry c r
                Hnet Hbody) as H.
  split; [exact H|]. by rewrite H.
Qed.

Lemma request2_no_body_witness :
  exists e c',
    request2 MoreSamples.silent_net "DELETE" "/scene/7" VUndef 0
      Samples.sample_client = (Throw e, c') /\
    err_name e = "TypeError" /\ sent c' = 1.
Proof.
  destruct (request2_no_body MoreSamples.silent_net "DELETE" "/scene/7" VUndef 0
              Samples.sample_client (Samples.response_of VNull)
              eq_refl eq_refl) as [H Hsent].
  eexists _, _. split; [exact H|]. split; reflexivity.
Defined.



(** ** Routing *)

Lemma string_app_cons (a : ascii) (s t : string) :
  String a s ++ t = String a (s ++ t).
Proof. done. Qed.

Lemma string_app_nil_r (s : string) : s ++ "" = s.
Proof.
  induction s as [|a s IH]; [done|]. by rewrite string_app_cons, IH.
Qed.

Lemma string_app_assoc (s t u : string) : (s ++ t) ++ u = s ++ t ++ u.
Proof.
  induction s as [|a s IH]; [done|]. by rewrite !string_app_cons, IH.
Qed.

Lemma split_from_nonempty (sep : string) (skip : nat) (cur s : string) :
  split_from sep skip cur s <> [].
Proof.
  revert skip cur. induction s as [|a s IH]; intros skip cur; [done|].
  cbn [split_from]. destruct skip; [|apply IH].
  destruct (String.prefix sep (String a s)); [done|apply IH].
Qed.

Lemma join_cons (sep x : string) (l : list string) :
  l <> [] -> join sep (x :: l) = x ++ sep ++ join sep l.
Proof. by destruct l. Qed.

(** [s.split('/').join('/')] is [s]. *)
Lemma join_split_from (cur s : string) :
  join "/" (split_from "/" 0 cur s) = cur ++ s.
Proof.
  revert cur. induction s as [|a s IH]; intros cur.
  - cbn [split_from join]. by rewrite string_app_nil_r.
  - cbn [split_from String.prefix String.length Nat.sub].
    destruct (ascii_dec "/" a) as [<-|Hne].
    + assert (String.prefix "" s = true) as -> by (by destruct s).
      rewrite join_cons by apply split_from_nonempty. by rewrite IH.
    + rewrite IH. by rewrite string_app_assoc.
Qed.

Lemma join_split (s : string) : join "/" (split "/" s) = s.
Proof. apply join_split_from. Qed.

Lemma split_nonempty (s : string) :
  exists p0 rest, split "/" s = p0 :: rest.
Proof.
  pose proof (split_from_nonempty "/" 0 "" s) as H. unfold split.
  destruct (split_from "/" 0 "" s) as [|p0 rest]; [done|]. by exists p0, rest.
Qed.

Lemma includes_cons (x y : string) (l : list string) :
  includes x (y :: l) = String.eqb x y || includes x l.
Proof. done. Qed.

(** The three lists of the [switch] of [get] make up [apiV1Resources] and
    the empty segment. *)
Lemma includes_v1 (p0 : string) :
  includes p0 [""; "capabilities"; "config"] ||
  includes p0 ["info"; "lights"; "groups"; "schedules"; "scenes"; "sensors";
               "rules"; "resourcelinks"] =
  String.eqb p0 "" || includes p0 apiV1Resources.
Proof.
  unfold apiV1Resources. rewrite !includes_cons.
  by rewrite <- !orb_assoc.
Qed.

Lemma route_v2_includes (resource p0 : string) (rest : list string) :
  split "/" (slice_1 resource) = p0 :: rest ->
  rt_v2 (route resource) =
  negb (String.eqb p0 "" || includes p0 apiV1Resources).
Proof.
  intros Hsplit. rewrite <- includes_v1. unfold route. rewrite Hsplit.
  destruct (includes p0 [""; "capabilities"; "config"]).
  { by destruct (_ <? _)%nat. }
  destruct (includes p0 _).
  { destruct rest; [done|]. by destruct (_ <? _)%nat. }
  by destruct rest.
Qed.

(** X6.  Reads and writes choose the API version alike, by the first
    segment of the resource, but for an empty first segment: [get] sends a
    resource to the API v2 exactly when [put], [post] and [delete] do,
    unless the first segment is empty (as in ['/']), which [get] sends to
    the API v1 and the others to the API v2. *)
Theorem reads_and_writes_agree (resource : string) :
  (first_segment resource <> "" ->
   rt_v2 (route resource) = negb (is_v1 resource)) /\
  (first_segment resource = "" ->
   rt_v2 (route resource) = false /\ is_v1 resource = false).
Proof.
  unfold first_segment, is_v1.
  destruct (split_nonempty (slice_1 resource)) as (p0 & rest & Hsplit).
  rewrite (route_v2_includes resource p0 rest Hsplit), Hsplit. cbn [hd].
  split.
  - intros Hne. apply String.eqb_neq in Hne. by rewrite Hne.
  - by intros ->.
Qed.

Lemma reads_and_writes_agree_witness :
  (rt_v2 (route "/lights/1/state") = false /\
   is_v1 "/lights/1/state" = true) /\
  (rt_v2 (route "/light/3") = true /\ is_v1 "/light/3" = false) /\
  (rt_v2 (route "/") = false /\ is_v1 "/" = false).
Proof.
  split; [|split].
  - destruct (reads_and_writes_agree "/lights/1/state") as [H _].
    split; [|reflexivity]. by rewrite H.
  - destruct (reads_and_writes_agree "/light/3") as [H _].
    split; [|reflexivity]. by rewrite H.
  - destruct (reads_and_writes_agree "/") as [_ H]. by apply H.
Defined.

Lemma slash_cons (s t : string) : ("/" ++ s) ++ t = "/" ++ s ++ t.
Proof. done. Qed.

Lemma route_spelled (rest : string) :
  rest <> "resource" ->
  spelled (route (String "/" rest)) = String "/" rest.
Proof.
  intros Hne. pose proof (join_split rest) as Hjoin.
  unfold spelled, route. cbn [slice_1].
  destruct (split "/" rest) as [|p0 [|p1 tl]] eqn:Hsplit.
  - by destruct (split_nonempty rest) as (? & ? & ?); simplify_eq.
  - cbn [join] in Hjoin. subst p0. cbn [length].
    destruct (includes rest [""; "capabilities"; "config"]); [done|].
    destruct (includes rest _); [done|].
    apply String.eqb_neq in Hne. by rewrite Hne.
  - rewrite join_cons in Hjoin by done.
    destruct (includes p0 [""; "capabilities"; "config"]).
    { cbn [length Nat.ltb Nat.leb rt_v2 rt_resource rt_path].
      rewrite join_cons by done. rewrite <- Hjoin. done. }
    destruct (includes p0 _).
    { destruct tl as [|p2 tl];
        cbn [length Nat.ltb Nat.leb rt_v2 rt_resource rt_path]; [done|].
      rewrite (join_cons _ p1) in Hjoin by done.
      rewrite join_cons by done. rewrite <- Hjoin.
      change ("/" ++ p0 ++ "/" ++ p1) with (String "/" (p0 ++ "/" ++ p1)).
      rewrite !string_app_cons. by rewrite !string_app_assoc. }
    cbn [rt_v2 rt_resource rt_path tail].
    destruct tl as [|p2 tl].
    + cbn [join] in *. by rewrite <- Hjoin.
    + rewrite (join_cons _ p1) in Hjoin by done.
      rewrite join_cons by done. rewrite <- Hjoin.
      change ("/" ++ p0 ++ "/" ++ p1) with (String "/" (p0 ++ "/" ++ p1)).
      rewrite !string_app_cons. by rewrite !string_app_assoc.
Qed.

(** X7.  [get] loses no part of a resource: the resource it requests,
    followed by the keys it then walks down the response (less the index
    ['0'] put in front for the API v2), spells the resource it was given.
    The one exception is ['/resource'], for which ['/'] is requested. *)
Theorem route_loses_nothing (resource : string) :
  startsWith "/" resource = true ->
  resource <> "/resource" ->
  spelled (route resource) = resource.
Proof.
  intros Hslash Hne. destruct resource as [|a rest]; [done|].
  unfold startsWith in Hslash. cbn [String.prefix] in Hslash.
  destruct (ascii_dec "/" a) as [<-|]; [|done].
  apply route_spelled. by intros ->.
Qed.

Lemma route_loses_nothing_witness :
  spelled (route "/lights/1/state/on") = "/lights/1/state/on" /\
  route "/lights/1/state/on" =
    {| rt_v2 := false; rt_resource := "/lights/1";
       rt_path := ["state"; "on"] |} /\
  route "/resource" =
    {| rt_v2 := true; rt_resource := "/"; rt_path := [] |}.
Proof.
  split; [|split; reflexivity].
  apply (route_loses_nothing "/lights/1/state/on"); [reflexivity|].
  intros H. discriminate H.
Defined.

(** ** The HTTP call of post and delete *)

#[local] Hint Resolve orderly_ret orderly_throw orderly_gets orderly_log
  orderly_set_path orderly_prop orderly_keys orderly_iterate
  orderly_super_request orderly_process_item orderly_request_try
  orderly_request orderly_request2_try orderly_request2 : orderly.

Lemma request_calls_first net method resource body retry c :
  calls_first (v1_call method resource (or_null body) c)
    (request net method resource body retry) c.
Proof.
  unfold request.
  assert (forall e,
    orderly (fun c =>
      (if transient e then
         waitTimeResend <- gets (fun c => o_waitTimeResend (_options c)) ;;
         if negb (nullish (err_request e)) && (0 <? waitTimeResend)%Z &&
            (retry <? 5)%nat
         then
           emit_error (add_message (retry_message waitTimeResend) e) ;;
           timeout waitTimeResend ;;
           request net method resource body (retry + 1)
         else throw e
       else throw e) c)) as Hhandler.
  { intros e. destruct (transient e); [|apply orderly_throw].
    apply orderly_bind; [apply orderly_gets|]. intros w.
    destruct (_ && _); [|apply orderly_throw].
    apply orderly_bind; [apply orderly_log|]. intros _.
    apply orderly_bind; [apply orderly_log|]. intros _.
    apply orderly_request. }
  destruct (5 - retry) as [|fuel] eqn:Hfuel; cbn [request_loop].
  - apply calls_first_try_catch.
    + unfold request_try. apply calls_first_bind;
        [apply calls_first_super_request|intros r; orderly_auto].
    + intros e. destruct (transient e); [|apply orderly_throw].
      apply orderly_bind; [apply orderly_gets|]. intros w.
      destruct (retry <? 5)%nat eqn:E; [apply Nat.ltb_lt in E; lia|].
      rewrite andb_false_r. apply orderly_throw.
  - apply calls_first_try_catch.
    + unfold request_try. apply calls_first_bind;
        [apply calls_first_super_request|intros r; orderly_auto].
    + intros e. specialize (Hhandler e). unfold request in Hhandler.
      assert (5 - (retry + 1) = fuel) as Hnext by lia.
      rewrite Hnext in Hhandler. destruct body; exact Hhandler.
Qed.

Lemma dispatch_calls_first net method resource body c :
  calls_first
    {| call_method := method;
       call_path := if is_v1 resource then o_path (_options c) else clip_v2;
       call_resource := resource;
       call_body := or_null body;
       call_headers := if is_v1 resource then VUndef
                       else o_headers (_options c) |}
    (dispatch net method resource body) c.
Proof.
  unfold dispatch. destruct (is_v1 resource).
  - destruct (request_calls_first net method resource body 0
                (set_path (o_path (_options c)) c)) as [rest H].
    exists rest. exact H.
  - destruct (calls_first_request2 net method resource body 0
                (set_path clip_v2 c)) as [rest H].
    exists rest. exact H.
Qed.

(** X8.  [post] and [delete] start with one HTTP call for the resource as
    it is given, with the body given ([null] for none).  For a resource
    that starts with one of [apiV1Resources] the call goes under
    [_options.path], without headers; for any other it goes under
    ['/clip/v2/resource'], with the [hue-application-key] headers. *)
Theorem post_delete_first_call net resource body c :
  let call method :=
    {| call_method := method;
       call_path := if is_v1 resource then o_path (_options c) else clip_v2;
       call_resource := resource;
       call_body := or_null body;
       call_headers := if is_v1 resource then VUndef
                       else o_headers (_options c) |} in
  calls_first (call "POST") (post net resource body) c /\
  calls_first (call "DELETE") (delete net resource body) c.
Proof. split; apply dispatch_calls_first. Qed.

(** ** The gate of put, further *)

Lemma numberOfZigbeeMessages_bounds {S} (body : value) (st : S) :
  body <> VNull ->
  exists n, numberOfZigbeeMessages body st = (Ok n, st) /\ (1 <= n <= 3)%Z.
Proof.
  intros Hbody. unfold numberOfZigbeeMessages, bind, keys, ret.
  assert (nullish (match body with VUndef => VObj [] | _ => body end) = false)
    as -> by (by destruct body).
  cbv zeta.
  repeat match goal with
         | |- context [if ?b then (_ + 1)%Z else _] => destruct b
         end;
    (eexists; split; [reflexivity|by vm_compute]).
Qed.

Lemma numberOfZigbeeMessages_null_throws {S} (st : S) :
  exists e, numberOfZigbeeMessages VNull st = (Throw e, st).
Proof. by eexists. Qed.

Lemma null_or_not (body : value) : body = VNull \/ body <> VNull.
Proof. destruct body; (by left) || (by right). Qed.

(** What [put] finds when it is past the gate. *)
Lemma put_pass_started (w : PutCall) (s : Session) :
  put_body w <> VNull ->
  exists n, (1 <= n <= 3)%Z /\
    put_pass w s =
    record (Started "PUT" (put_resource w) (put_body w) (waitForIt (client s)))
      (let t := (n * wait_time (_options (client s)) (put_resource w))%Z in
       if (0 <? t)%Z then close_gate t s else s).
Proof.
  intros Hbody.
  destruct (numberOfZigbeeMessages_bounds (put_body w) (client s) Hbody)
    as (n & Hn & Hrange).
  exists n. split; [done|]. unfold put_pass. by rewrite Hn.
Qed.

Lemma put_pass_rejected (w : PutCall) (s : Session) :
  put_body w = VNull ->
  exists e, put_pass w s = record (Rejected (put_resource w) e) s.
Proof. intros Hbody. unfold put_pass. rewrite Hbody. by eexists. Qed.

Lemma settled_snoc (os : list Outcome) (o : Outcome) :
  settled (os ++ [o]) = (settled os ++ settled [o])%list.
Proof. unfold settled. by rewrite omap_app. Qed.

Lemma queue_put (w : PutCall) (s : Session) :
  steady s -> queue (put w s) = (queue s ++ [w])%list.
Proof.
  intros (Hopen & _ & _). unfold put, queue.
  destruct (waitForIt (client s)) eqn:Hgate.
  - cbn [wait outcomes waiting]. by rewrite app_assoc.
  - destruct (Hopen eq_refl) as [Hw _].
    destruct (null_or_not (put_body w)) as [Hnull|Hbody].
    + destruct (put_pass_rejected w s Hnull) as [e ->].
      cbn [record outcomes waiting]. rewrite Hw, settled_snoc, !app_nil_r.
      destruct w as [resource body]. cbn in Hnull. by subst body.
    + destruct (put_pass_started w s Hbody) as (n & _ & ->). cbv zeta.
      destruct (0 <? _)%Z; cbn [record close_gate outcomes waiting];
        rewrite Hw, settled_snoc, !app_nil_r; by destruct w.
Qed.

Lemma queue_resume (ws : list PutCall) (s : Session) :
  steady s ->
  queue (foldl (fun s w => put w s) s ws) = (queue s ++ ws)%list.
Proof.
  revert s. induction ws as [|w ws IH]; intros s Hs.
  - by rewrite app_nil_r.
  - cbn [foldl]. rewrite IH by (by apply steady_put).
    rewrite queue_put by done. by rewrite <- app_assoc.
Qed.

Lemma queue_resume_all (s : Session) :
  (waitForIt (client s) = false -> timers s = []) ->
  (waitForIt (client s) = true -> length (timers s) = 1) ->
  Forall put_found_open (outcomes s) ->
  queue (resume_all s) = queue s.
Proof.
  intros Hopen Hclosed Hputs. unfold resume_all.
  rewrite queue_resume.
  - unfold queue. cbn [outcomes waiting]. by rewrite app_nil_r.
  - unfold steady. cbn [client waiting timers outcomes].
    split; [|by split]. intros Hgate. split; [done | by apply Hopen].
Qed.

Lemma queue_step (s : Session) (ev : Event) :
  steady s -> queue (step s ev) = (queue s ++ puts_of [ev])%list.
Proof.
  intros Hs. destruct ev as [r b|r b|r b| |]; cbn [step puts_of omap].
  - by apply queue_put.
  - unfold queue. cbn [record outcomes waiting].
    by rewrite settled_snoc, !app_nil_r.
  - unfold queue. cbn [record outcomes waiting].
    by rewrite settled_snoc, !app_nil_r.
  - rewrite app_nil_r. unfold timer_fires.
    destruct (timers s) as [|t rest] eqn:Ht; [done|].
    destruct Hs as (Hopen & Hclosed & Hputs).
    assert (rest = []) as ->.
    { destruct (waitForIt (client s)) eqn:Hgate.
      - specialize (Hclosed eq_refl). rewrite Ht in Hclosed.
        by destruct rest.
      - destruct (Hopen eq_refl) as [_ Hno]. congruence. }
    by rewrite queue_resume_all.
  - rewrite app_nil_r. destruct Hs as (Hopen & Hclosed & Hputs).
    apply queue_resume_all; try done.
    intros Hgate. by destruct (Hopen Hgate).
Qed.

Lemma puts_of_app (evs evs' : list Event) :
  puts_of (evs ++ evs') = (puts_of evs ++ puts_of evs')%list.
Proof. unfold puts_of. by rewrite omap_app. Qed.

Lemma queue_run (events : list Event) (s : Session) :
  steady s -> queue (run events s) = (queue s ++ puts_of events)%list.
Proof.
  revert s. induction events as [|ev events IH]; intros s Hs.
  - by rewrite app_nil_r.
  - cbn [run foldl]. fold (run events (step s ev)).
    rewrite IH by (by apply steady_step). rewrite queue_step by done.
    rewrite <- app_assoc. by rewrite <- puts_of_app.
Qed.


(** *** With both wait times 0 *)

Lemma options_put (w : PutCall) (s : Session) :
  _options (client (put w s)) = _options (client s).
Proof.
  unfold put, put_pass. destruct (waitForIt (client s)); [done|].
  destruct (numberOfZigbeeMessages _ _) as [[n|e|] c']; try done.
  cbv zeta. by destruct (0 <? _)%Z.
Qed.

Lemma options_resume (ws : list PutCall) (s : Session) :
  _options (client (foldl (fun s w => put w s) s ws)) = _options (client s).
Proof.
  revert s. induction ws as [|w ws IH]; intros s; [done|].
  cbn [foldl]. by rewrite IH, options_put.
Qed.

Lemma options_step (s : Session) (ev : Event) :
  _options (client (step s ev)) = _options (client s).
Proof.
  destruct ev as [r b|r b|r b| |]; cbn [step]; try done.
  - apply options_put.
  - unfold timer_fires. destruct (timers s); [done|].
    unfold resume_all. by rewrite options_resume.
  - unfold resume_all. by rewrite options_resume.
Qed.

Lemma idle_put (w : PutCall) (s : Session) :
  o_waitTimePut (_options (client s)) = 0%Z ->
  o_waitTimePutGroup (_options (client s)) = 0%Z ->
  idle s -> idle (put w s).
Proof.
  intros Hput Hgroup (Hgate & Hwaiting & Htimers). unfold put, put_pass.
  rewrite Hgate.
  destruct (numberOfZigbeeMessages _ _) as [[n|e|] c']; try done.
  cbv zeta. rewrite Hput, Hgroup.
  assert ((n * (if startsWith "/groups" (put_resource w) then 0 else 0))%Z
          = 0%Z) as -> by (destruct (startsWith _ _); lia).
  done.
Qed.

Lemma idle_step (s : Session) (ev : Event) :
  o_waitTimePut (_options (client s)) = 0%Z ->
  o_waitTimePutGroup (_options (client s)) = 0%Z ->
  idle s -> idle (step s ev).
Proof.
  intros Hput Hgroup Hs. pose proof Hs as (Hgate & Hwaiting & Htimers).
  destruct ev as [r b|r b|r b| |]; cbn [step]; try done.
  - by apply idle_put.
  - unfold timer_fires. by rewrite Htimers.
  - unfold resume_all. rewrite Hwaiting. cbn [foldl].
    unfold idle. cbn [client waiting timers]. by rewrite Htimers.
Qed.

Lemma idle_run (events : list Event) (s : Session) :
  o_waitTimePut (_options (client s)) = 0%Z ->
  o_waitTimePutGroup (_options (client s)) = 0%Z ->
  idle s -> idle (run events s).
Proof.
  revert s. induction events as [|ev events IH]; intros s Hput Hgroup Hs;
    [done|].
  cbn [run foldl]. fold (run events (step s ev)).
  apply IH; rewrite ?options_step; try done. by apply idle_step.
Qed.

(** X10.  With [waitTimePut] and [waitTimePutGroup] both 0 the gate never
    closes: whatever is called, no timer is set, no call of [put] is held,
    and every call of [put] made so far has come to its end. *)
Theorem no_wait_time_no_gate (events : list Event) (c : Client) :
  o_waitTimePut (_options c) = 0%Z ->
  o_waitTimePutGroup (_options c) = 0%Z ->
  let s := run events (new_session c) in
  waitForIt (client s) = false /\ timers s = [] /\ waiting s = [] /\
  settled (outcomes s) = puts_of events.
Proof.
  intros Hput Hgroup. cbv zeta.
  destruct (idle_run events (new_session c) Hput Hgroup) as (Hg & Hw & Ht);
    [done|].
  repeat split; try done.
  pose proof (queue_run events _ (steady_new_session c)) as H.
  unfold queue in H. rewrite Hw, app_nil_r in H. by rewrite H.
Qed.

Lemma no_wait_time_no_gate_witness :
  let s := run [CallPut "/lights/1/state" (VObj [("on", VBool true)]);
                CallPut "/groups/0/action" (VObj [("on", VBool false)])]
             (new_session MoreSamples.unthrottled_client) in
  waitForIt (client s) = false /\
  outcomes s =
    [Started "PUT" "/lights/1/state" (VObj [("on", VBool true)]) false;
     Started "PUT" "/groups/0/action" (VObj [("on", VBool false)]) false].
Proof.
  destruct (no_wait_time_no_gate
              [CallPut "/lights/1/state" (VObj [("on", VBool true)]);
               CallPut "/groups/0/action" (VObj [("on", VBool false)])]
              MoreSamples.unthrottled_client eq_refl eq_refl)
    as (Hgate & _).
  split; [exact Hgate|reflexivity].
Defined.

(** *** The time the gate stays closed *)

(** X11.  A call of [put] with a body that is not [null], made while the
    gate is open, goes on to its request at once.  With a wait time above
    0 for its resource ([waitTimePutGroup] for a resource that starts with
    ['/groups'], [waitTimePut] otherwise) it closes the gate and sets one
    timer, of one to three times that wait time; with a wait time of 0 it
    leaves the gate open. *)
Theorem put_closes_gate (w : PutCall) (s : Session) :
  waitForIt (client s) = false ->
  put_body w <> VNull ->
  let t := wait_time (_options (client s)) (put_resource w) in
  outcomes (put w s) =
    (outcomes s ++ [Started "PUT" (put_resource w) (put_body w) false])%list /\
  waiting (put w s) = waiting s /\
  ((0 < t)%Z ->
   waitForIt (client (put w s)) = true /\
   exists t', timers (put w s) = (timers s ++ [t'])%list /\
              (t <= t' <= 3 * t)%Z) /\
  (t = 0%Z ->
   waitForIt (client (put w s)) = false /\ timers (put w s) = timers s).
Proof.
  intros Hgate Hbody t. unfold put. rewrite Hgate.
  destruct (put_pass_started w s Hbody) as (n & Hn & ->). cbv zeta.
  fold t. rewrite Hgate.
  destruct (0 <? n * t)%Z eqn:Hpos;
    cbn [record close_gate outcomes waiting timers client waitForIt
         set_waitForIt].
  - apply Z.ltb_lt in Hpos. split; [done|]. split; [done|]. split.
    + intros Ht. split; [done|]. exists (n * t)%Z. split; [done|nia].
    + intros Ht. nia.
  - apply Z.ltb_ge in Hpos. split; [done|]. split; [done|]. split.
    + intros Ht. nia.
    + done.
Qed.

Lemma put_closes_gate_witness :
  let s := put {| put_resource := "/groups/0/action";
                  put_body := VObj [("on", VBool true); ("bri", VNum 200)] |}
             (new_session Samples.sample_client) in
  waitForIt (client s) = true /\ timers s = [2000%Z].
Proof.
  destruct (put_closes_gate
              {| put_resource := "/groups/0/action";
                 put_body := VObj [("on", VBool true); ("bri", VNum 200)] |}
              (new_session Samples.sample_client) eq_refl)
    as (_ & _ & H & _); [discriminate|].
  destruct H as [Hgate _]; [reflexivity|].
  split; [exact Hgate|reflexivity].
Defined.

(** *** What a timer lets go *)

Lemma resume_held (ws : list PutCall) (s : Session) :
  waitForIt (client s) = true ->
  foldl (fun s w => put w s) s ws =
  {| client := client s; waiting := (waiting s ++ ws)%list;
     timers := timers s; outcomes := outcomes s |}.
Proof.
  revert s. induction ws as [|w ws IH]; intros s Hgate.
  - rewrite app_nil_r. by destruct s.
  - cbn [foldl]. unfold put at 2. rewrite Hgate. rewrite IH by done.
    cbn [wait client waiting timers outcomes]. by rewrite <- app_assoc.
Qed.

(** X12.  When the timer fires with calls of [put] held at the gate, the
    first of them, if its body is not [null] and the wait time for its
    resource is above 0, goes on to its request and closes the gate again
    with a new timer; the others stay held, in their order, and start no
    request. *)
Theorem timer_lets_one_go (s : Session) (w : PutCall) (ws : list PutCall)
    (t0 : Z) :
  waitForIt (client s) = true ->
  timers s = [t0] ->
  waiting s = w :: ws ->
  put_body w <> VNull ->
  (0 < wait_time (_options (client s)) (put_resource w))%Z ->
  let s' := timer_fires s in
  outcomes s' =
    (outcomes s ++ [Started "PUT" (put_resource w) (put_body w) false])%list /\
  waiting s' = ws /\
  waitForIt (client s') = true /\
  exists t, timers s' = [t] /\
    (wait_time (_options (client s)) (put_resource w) <= t
     <= 3 * wait_time (_options (client s)) (put_resource w))%Z.
Proof.
  intros Hgate Htimers Hwaiting Hbody Hwait. cbv zeta.
  unfold timer_fires. rewrite Htimers. unfold resume_all.
  cbn [client waiting timers outcomes]. rewrite Hwaiting. cbn [foldl].
  set (s0 := {| client := set_waitForIt false (client s); waiting := [];
                timers := []; outcomes := outcomes s |}).
  destruct (put_pass_started w s0 Hbody) as (n & Hn & Hpass).
  change (put w s0) with (put_pass w s0). rewrite Hpass. cbv zeta.
  change (_options (client s0)) with (_options (client s)).
  assert ((0 <? n * wait_time (_options (client s)) (put_resource w))%Z
          = true) as -> by (apply Z.ltb_lt; nia).
  rewrite resume_held by done.
  cbn [record close_gate client waiting timers outcomes waitForIt
       set_waitForIt app s0].
  split; [done|]. split; [done|]. split; [done|].
  eexists. split; [done|]. nia.
Qed.

Lemma timer_lets_one_go_witness :
  let on := VObj [("on", VBool true)] in
  let s := run [CallPut "/lights/1/state" on; CallPut "/lights/2/state" on;
                CallPut "/lights/3/state" on; TimerFires]
             (new_session Samples.sample_client) in
  outcomes s = [Started "PUT" "/lights/1/state" on false;
                Started "PUT" "/lights/2/state" on false] /\
  waiting s = [{| put_resource := "/lights/3/state"; put_body := on |}].
Proof.
  cbv zeta.
  destruct (timer_lets_one_go
              (run [CallPut "/lights/1/state" (VObj [("on", VBool true)]);
                    CallPut "/lights/2/state" (VObj [("on", VBool true)]);
                    CallPut "/lights/3/state" (VObj [("on", VBool true)])]
                 (new_session Samples.sample_client))
              {| put_resource := "/lights/2/state";
                 put_body := VObj [("on", VBool true)] |}
              [{| put_resource := "/lights/3/state";
                  put_body := VObj [("on", VBool true)] |}]
              50%Z eq_refl eq_refl eq_refl)
    as (Houtcomes & Hwaiting & _); [discriminate|reflexivity|].
  split; [exact Houtcomes|exact Hwaiting].
Defined.

(** *** unlock, touchlink, restart and search *)

(** X13.  [unlock], [touchlink] and [restart] are calls of [put] on
    ['/config'], a resource of the API v1, that count for one Zigbee
    message: made while the gate is open, with [waitTimePut] above 0, each
    starts its request and closes the gate for [waitTimePut].  [search] is
    a call of [post] on ['/lights'], a resource of the API v1 too, and
    starts its request at once. *)
Theorem config_calls (s : Session) (ev : Event) :
  ev ∈ [unlock; touchlink; restart] ->
  waitForIt (client s) = false ->
  (0 < o_waitTimePut (_options (client s)))%Z ->
  is_v1 "/config" = true /\ is_v1 "/lights" = true /\
  (exists body,
      outcomes (step s ev) =
      (outcomes s ++ [Started "PUT" "/config" body false])%list) /\
  waitForIt (client (step s ev)) = true /\
  timers (step s ev) =
    (timers s ++ [o_waitTimePut (_options (client s))])%list /\
  outcomes (step s search) =
    (outcomes s ++ [Started "POST" "/lights" VUndef false])%list.
Proof.
  intros Hev Hgate Hwait.
  assert ((0 <? 1 * o_waitTimePut (_options (client s)))%Z = true) as Hpos
    by (apply Z.ltb_lt; lia).
  split; [done|]. split; [done|].
  rewrite !elem_of_cons, elem_of_nil in Hev.
  destruct Hev as [->|[->|[->|[]]]].
  all: cbn [step unlock touchlink restart search]; unfold put, put_pass;
    rewrite Hgate;
    cbn [numberOfZigbeeMessages put_body put_resource];
    unfold numberOfZigbeeMessages, bind, keys, ret;
    cbn -[Z.mul Z.ltb]; rewrite Hpos;
    cbn [record close_gate client waiting timers outcomes waitForIt
         set_waitForIt];
    rewrite Z.mul_1_l; repeat split; try done; by eexists.
Qed.

Lemma config_calls_witness :
  timers (step (new_session Samples.sample_client) unlock) = [50%Z] /\
  waitForIt (client (step (new_session Samples.sample_client) unlock)) = true.
Proof.
  destruct (config_calls (new_session Samples.sample_client) unlock)
    as (_ & _ & _ & Hgate & Htimers & _);
    [by left|reflexivity|reflexivity|].
  split; [exact Htimers|exact Hgate].
Defined.

(** ** The successes of a response *)

Lemma flatten_app (s : value) (ks ks' : list string)
    (success : gmap string value) :
  flatten s (ks ++ ks') success = flatten s ks' (flatten s ks success).
Proof. unfold flatten. by rewrite foldl_app. Qed.

Lemma flatten_cons (s : value) (path : string) (ks : list string)
    (success : gmap string value) :
  flatten s (path :: ks) success =
  flatten s ks (assign_success (last_segment path) (member s path) success).
Proof. done. Qed.

(** A name that is not [__proto__] becomes an own property. *)
Lemma assign_success_own (key : string) (v : value)
    (success : gmap string value) :
  key <> "__proto__" ->
  assign_success key v success = <[key := v]> success.
Proof.
  intros Hkey. unfold assign_success.
  apply String.eqb_neq in Hkey. by rewrite Hkey.
Qed.

(** An assignment leaves the other properties alone; one to [__proto__]
    may change the prototype. *)
Lemma assign_success_other (key key' : string) (v : value)
    (success : gmap string value) :
  key <> key' ->
  key' <> success_prototype \/ key <> "__proto__" ->
  assign_success key v success !! key' = success !! key'.
Proof.
  intros Hne Hproto. unfold assign_success.
  destruct (String.eqb key "__proto__") eqn:Hkey; cbn [negb].
  - apply String.eqb_eq in Hkey. destruct Hproto as [Hproto|Hproto]; [|done].
    repeat case_match; try done; by rewrite lookup_insert_ne.
  - by rewrite lookup_insert_ne.
Qed.

(** On an object that has no property [__proto__] of its own and has not
    been given a prototype, an assignment to [__proto__] makes no own
    property. *)
Lemma assign_success_proto (v : value) (success : gmap string value) :
  success !! "__proto__" = None ->
  success !! success_prototype = None ->
  assign_success "__proto__" v success =
  if is_object v || match v with VNull => true | _ => false end
  then <[success_prototype := v]> success else success.
Proof.
  intros Hown Hgiven. unfold assign_success.
  cbn [String.eqb Ascii.eqb Bool.eqb negb andb]. by rewrite Hown, Hgiven.
Qed.

(** The segments of a path hold no slash, so none of them is the name
    under which the prototype is kept. *)
Lemma without_char_snoc (ch a : ascii) (s : string) :
  DiscoveryReference.without_char ch s = true -> a <> ch ->
  DiscoveryReference.without_char ch (s ++ String a "") = true.
Proof.
  intros Hs Ha. induction s as [|b s IH].
  - change ("" ++ String a "") with (String a "").
    cbn [DiscoveryReference.without_char].
    apply Ascii.eqb_neq in Ha. by rewrite Ha.
  - rewrite string_app_cons. cbn [DiscoveryReference.without_char] in Hs |- *.
    apply andb_true_iff in Hs as [Hb Hs]. by rewrite Hb, IH.
Qed.

Lemma split_from_segments (cur s : string) :
  DiscoveryReference.without_char "/" cur = true ->
  Forall (fun p => DiscoveryReference.without_char "/" p = true)
    (split_from "/" 0 cur s).
Proof.
  revert cur. induction s as [|a s IH]; intros cur Hcur.
  - by constructor.
  - cbn [split_from String.prefix String.length Nat.sub].
    destruct (ascii_dec "/" a) as [<-|Hne].
    + assert (String.prefix "" s = true) as -> by (by destruct s).
      constructor; [done|]. by apply IH.
    + apply IH. apply without_char_snoc; [done|]. by intros ->.
Qed.

Lemma last_segment_not_prototype (path : string) :
  last_segment path <> success_prototype.
Proof.
  assert (DiscoveryReference.without_char "/" (last_segment path) = true)
    as Hfree.
  { unfold last_segment, split.
    pose proof (split_from_segments "" path eq_refl) as Hall.
    induction Hall as [|p [|q l] Hp _ IH]; [done|done|exact IH]. }
  intros Heq. rewrite Heq in Hfree. by vm_compute in Hfree.
Qed.

Lemma flatten_other (s : value) (ks : list string) (key : string)
    (success : gmap string value) :
  Forall (fun path => last_segment path <> key) ks ->
  key <> success_prototype \/
    Forall (fun path => last_segment path <> "__proto__") ks ->
  flatten s ks success !! key = success !! key.
Proof.
  intros Hks. revert success.
  induction Hks as [|path ks Hpath Hks IH]; intros success Hproto; [done|].
  rewrite flatten_cons, IH.
  - apply assign_success_other; [done|].
    destruct Hproto as [Hproto|Hproto]; [by left|right].
    by inversion Hproto.
  - destruct Hproto as [Hproto|Hproto]; [by left|right].
    by inversion Hproto.
Qed.

(** X14.  [request] files each success under the last segment of its
    path, when that segment is not [__proto__]: the value of a path is
    found under that segment, unless a later path of the same ["success"]
    object ends in the same segment, in which case the later one is found
    there.  Names that are not the last segment of any path are left as
    they were; so is the prototype, when no path ends in [__proto__].  A
    path that ends in [__proto__] is not filed: on successes that have no
    such property and have been given no prototype, it leaves the own
    properties as they were, and its value, if it is an object or [null],
    becomes the prototype. *)
Theorem flatten_last_wins (s : value) (pre : list string) (path : string)
    (post : list string) (success : gmap string value) :
  Forall (fun later => last_segment later <> last_segment path) post ->
  (last_segment path <> "__proto__" ->
   flatten s (pre ++ path :: post) success !! last_segment path
     = Some (member s path)) /\
  (forall key,
      Forall (fun p => last_segment p <> key) (pre ++ path :: post) ->
      key <> success_prototype \/
        Forall (fun p => last_segment p <> "__proto__") (pre ++ path :: post) ->
      flatten s (pre ++ path :: post) success !! key = success !! key) /\
  (last_segment path = "__proto__" ->
   success !! "__proto__" = None ->
   success !! success_prototype = None ->
   flatten s [path] success !! "__proto__" = None /\
   flatten s [path] success !! success_prototype =
     (if is_object (member s path) ||
         match member s path with VNull => true | _ => false end
      then Some (member s path) else None) /\
   forall key, key <> success_prototype ->
     flatten s [path] success !! key = success !! key).
Proof.
  intros Hpost. split; [|split].
  - intros Hkey.
    rewrite flatten_app, flatten_cons, flatten_other;
      [|done|left; apply last_segment_not_prototype].
    rewrite assign_success_own by done. apply lookup_insert_eq.
  - intros key Hkey Hproto. by apply flatten_other.
  - intros Hkey Hown Hgiven.
    change (flatten s [path] success)
      with (assign_success (last_segment path) (member s path) success).
    rewrite Hkey, assign_success_proto by done.
    destruct (is_object (member s path) || _).
    + split; [by rewrite lookup_insert_ne|].
      split; [by rewrite lookup_insert_eq|].
      intros key Hne. by rewrite lookup_insert_ne.
    + by repeat split.
Qed.

Lemma flatten_last_wins_witness :
  flatten
    (VObj [("/lights/1/state/on", VBool true);
           ("/lights/2/state/on", VBool false)])
    ["/lights/1/state/on"; "/lights/2/state/on"] ∅ !! "on"
  = Some (VBool false) /\
  flatten (VObj [("/lights/1/__proto__", VNum 1)]) ["/lights/1/__proto__"] ∅
  = ∅.
Proof.
  split.
  - destruct (flatten_last_wins
                (VObj [("/lights/1/state/on", VBool true);
                       ("/lights/2/state/on", VBool false)])
                ["/lights/1/state/on"] "/lights/2/state/on" [] ∅
                (Forall_nil_2 _)) as [H _].
    by apply H.
  - destruct (flatten_last_wins
                (VObj [("/lights/1/__proto__", VNum 1)])
                [] "/lights/1/__proto__" [] ∅
                (Forall_nil_2 _)) as (_ & _ & H).
    destruct H as (Hown & Hgiven & Hother); [done..|].
    apply map_eq. intros key.
    destruct (decide (key = success_prototype)) as [->|Hne];
      [exact Hgiven | by apply Hother].
Defined.

(** ** The API key: constructor and setter *)

(** X15.  Setting an API key on a client made without one gives the
    options that the constructor makes for that key: the path
    ['/api/' + key] and the [hue-application-key] header.  (The key is not
    empty: the constructor is not given an empty key by its option
    parser.)  Setting no key is another matter: a client made without a
    key has the path ['/api'] and no headers, and the setter, given
    [undefined], makes the same path but the headers
    [{'hue-application-key': undefined}]. *)
Theorem apiKey_setter_and_constructor {rt : Runtime} (key : string)
    (waitTimePut waitTimePutGroup waitTimeResend : Z) :
  key <> "" ->
  let keyless :=
    new_options VUndef waitTimePut waitTimePutGroup waitTimeResend in
  set_apiKey (VStr key) keyless =
  new_options (VStr key) waitTimePut waitTimePutGroup waitTimeResend /\
  o_path (new_options (VStr key) waitTimePut waitTimePutGroup waitTimeResend)
    = "/api/" ++ key /\
  o_headers
    (new_options (VStr key) waitTimePut waitTimePutGroup waitTimeResend)
    = VObj [("hue-application-key", VStr key)] /\
  o_path keyless = "/api" /\
  o_headers keyless = VUndef /\
  o_path (set_apiKey VUndef keyless) = "/api" /\
  o_headers (set_apiKey VUndef keyless) =
    VObj [("hue-application-key", VUndef)].
Proof.
  intros Hkey keyless. apply String.eqb_neq in Hkey.
  unfold keyless, set_apiKey, new_options.
  cbn [truthy nullish negb ToString o_path o_headers].
  rewrite Hkey. cbn [negb]. repeat split.
Qed.

Lemma apiKey_setter_and_constructor_witness :
  o_path (set_apiKey (rt := Samples.text_runtime) (VStr "key")
            (_options Samples.keyless_client)) = "/api/key".
Proof.
  destruct (apiKey_setter_and_constructor (rt := Samples.text_runtime)
              "key" 50 1000 300) as (Hset & Hpath & _).
  - discriminate.
  - unfold Samples.keyless_client. cbn [_options]. by rewrite Hset, Hpath.
Defined.

End HueClientMoreFacts.

(* ===================================================================== *)
(** * Further properties of lib/EventStreamClient.js *)
(* ===================================================================== *)

Module EventStreamClientMoreFacts.
Import JS Eff Eff.Notations EventStreamClient StreamReference StreamMore
  EventStreamClientFacts.

(** ** Methods that only emit *)

Create HintDb emitting.

Lemma emits_app (t t' : list Effect) (c : Stream) :
  emits (t ++ t') c = emits t' (emits t c).
Proof. unfold emits. by rewrite foldl_app. Qed.

Lemma set_s_emits (text : string) (t : list Effect) (c : Stream) :
  set_s text (emits t c) = emits t (set_s text c).
Proof.
  revert c. induction t as [|e t IH]; intros c; [done|].
  cbn [emits foldl]. fold (emits t (log e c)). rewrite IH. done.
Qed.

Lemma effects_emits (t : list Effect) (c : Stream) :
  effects (emits t c) = (effects c ++ t)%list.
Proof.
  revert c. induction t as [|e t IH]; intros c.
  - by rewrite app_nil_r.
  - cbn [emits foldl]. fold (emits t (log e c)). rewrite IH.
    cbn [log effects]. by rewrite <- app_assoc.
Qed.

Lemma reads_emitting {A} (m : M Stream A) : reads m -> emitting m.
Proof. intros H c. destruct (H c) as [Hc Hf]. split; [by exists []|done]. Qed.

Lemma reads_ret {A} (a : A) : reads (@ret Stream A a).
Proof. by intros c. Qed.

Lemma reads_throw {A} (e : JsError) : reads (@throw Stream A e).
Proof. by intros c. Qed.

Lemma reads_gets {A} (f : Stream -> A) : reads (gets f).
Proof. by intros c. Qed.

Lemma reads_prop (v : value) (key : string) : reads (@prop Stream v key).
Proof. unfold prop. destruct (nullish v); by intros c. Qed.

Lemma reads_keys (v : value) : reads (@keys Stream v).
Proof. unfold keys. destruct (nullish v); by intros c. Qed.

Lemma reads_iterate (v : value) : reads (@iterate Stream v).
Proof. unfold iterate. destruct v; by intros c. Qed.

Lemma reads_starts_with (resource : value) (p : string) :
  reads (starts_with resource p).
Proof. unfold starts_with. destruct resource; by intros c. Qed.

Lemma reads_slice_off_last (v : value) : reads (slice_off_last v).
Proof. unfold slice_off_last. destruct v; by intros c. Qed.

Lemma reads_bind {A B} (m : M Stream A) (k : A -> M Stream B) :
  reads m -> (forall a, reads (k a)) -> reads (bind m k).
Proof.
  intros Hm Hk c. unfold bind. destruct (Hm c) as [Hc Hf].
  destruct (m c) as [[a|e|] c1]; cbn [fst snd] in *; subst; try done.
  apply Hk.
Qed.

Lemma reads_for_each {A B} (body : A -> B -> M Stream B) (l : list A) :
  (forall x acc, reads (body x acc)) ->
  forall acc, reads (for_each body l acc).
Proof.
  intros Hbody. induction l as [|x l IH]; intros acc; cbn [for_each].
  - apply reads_ret.
  - by apply reads_bind.
Qed.

#[local] Hint Resolve reads_ret reads_throw reads_gets reads_prop reads_keys
  reads_iterate reads_starts_with reads_slice_off_last : emitting.

Ltac reads_step :=
  lazymatch goal with
  | |- reads (bind _ _) => apply reads_bind; [|intros ?]
  | |- reads (for_each _ _ _) => apply reads_for_each; intros ? ?
  | |- reads (let x := _ in _) => cbv zeta
  | |- reads (if ?b then _ else _) => destruct b
  | |- reads (match ?x with _ => _ end) => destruct x
  | |- _ => solve [eauto with emitting]
  end.

Ltac reads_auto := repeat reads_step.

Lemma emitting_ret {A} (a : A) : emitting (@ret Stream A a).
Proof. apply reads_emitting, reads_ret. Qed.

Lemma emitting_throw {A} (e : JsError) : emitting (@throw Stream A e).
Proof. apply reads_emitting, reads_throw. Qed.

Lemma emitting_emit (event : string) (args : list value) :
  emitting (emit event args).
Proof. intros c. split; [by exists [Emit event args]|done]. Qed.

Lemma emitting_emit_error (e : JsError) : emitting (emit_error e).
Proof. intros c. split; [by exists [EmitError e]|done]. Qed.

Lemma emitting_bind {A B} (m : M Stream A) (k : A -> M Stream B) :
  emitting m -> (forall a, emitting (k a)) -> emitting (bind m k).
Proof.
  intros Hm Hk c. unfold bind. destruct (Hm c) as [[t Ht] Hf].
  destruct (m c) as [[a|e|] c1]; cbn [fst snd] in *; subst c1;
    [|by split; [exists t|]|done].
  destruct (Hk a (emits t c)) as [[t' Ht'] Hf']. split; [|done].
  exists (t ++ t')%list. by rewrite emits_app.
Qed.

Lemma emitting_for_each {A B} (body : A -> B -> M Stream B) (l : list A) :
  (forall x acc, emitting (body x acc)) ->
  forall acc, emitting (for_each body l acc).
Proof.
  intros Hbody. induction l as [|x l IH]; intros acc; cbn [for_each].
  - apply emitting_ret.
  - by apply emitting_bind.
Qed.

#[local] Hint Resolve emitting_ret emitting_throw emitting_emit
  emitting_emit_error : emitting.

Ltac emitting_step :=
  lazymatch goal with
  | |- emitting (bind _ _) => apply emitting_bind; [|intros ?]
  | |- emitting (for_each _ _ _) => apply emitting_for_each; intros ? ?
  | |- emitting (let x := _ in _) => cbv zeta
  | |- emitting (if ?b then _ else _) => destruct b
  | |- emitting (match ?x with _ => _ end) => destruct x
  | |- _ => solve [eauto with emitting | apply reads_emitting; reads_auto]
  end.

Ltac emitting_auto := repeat emitting_step.

Section Decoder.
Context {rt : Runtime}.

Lemma reads_parse_key (obj data resource : value) (key : string)
    (ch : Changes) :
  reads (parse_key obj data resource key ch).
Proof. unfold parse_key. reads_auto. Qed.

Lemma emitting_parse_data1 (obj data : value) : emitting (parse_data1 obj data).
Proof.
  unfold parse_data1. emitting_auto.
  all: apply reads_emitting, reads_parse_key.
Qed.

Lemma emitting_parseUpdate1 (obj : value) : emitting (_parseUpdate1 obj).
Proof.
  unfold _parseUpdate1. emitting_auto. apply emitting_parse_data1.
Qed.

Lemma emitting_parse_data2 (obj data : value) : emitting (parse_data2 obj data).
Proof. unfold parse_data2. emitting_auto. Qed.

Lemma emitting_parseUpdate2 (obj : value) : emitting (_parseUpdate2 obj).
Proof.
  unfold _parseUpdate2. emitting_auto. apply emitting_parse_data2.
Qed.

Lemma emitting_parseContainer (container : value) :
  emitting (_parseContainer container).
Proof.
  unfold _parseContainer. emitting_auto;
    (apply emitting_parseUpdate1 || apply emitting_parseUpdate2).
Qed.

Lemma emitting_parse_line (line : string) : emitting (parse_line line).
Proof.
  unfold parse_line. emitting_auto. apply emitting_parseContainer.
Qed.

End Decoder.


(** ** The ['data'] handler *)

Section OnData.
Context {rt : Runtime}.

Lemma options_emits (t : list Effect) (c : Stream) :
  options (emits t c) = options c.
Proof.
  revert c. induction t as [|e t IH]; intros c; [done|].
  cbn [emits foldl]. fold (emits t (log e c)). by rewrite IH.
Qed.

(** The handler, when the lines of a frame yield only events with the
    property [P]. *)
Lemma on_data_with (P : Effect -> Prop) (buffer : string) (c : Stream) :
  (forall lines c3,
      options c3 = options c ->
      exists t,
        (for_each (fun line (_ : unit) => parse_line line) lines tt c3).2
          = emits t c3 /\
        (for_each (fun line (_ : unit) => parse_line line) lines tt c3).1
          <> OutOfFuel /\
        Forall P t) ->
  (forall args, P (Emit "data" args)) ->
  (forall e, P (EmitError e)) ->
  exists t,
    on_data buffer c =
      (Ok tt,
       set_s (if frame_ended (s c ++ buffer) then "" else s c ++ buffer)
         (emits t c)) /\
    Forall P t /\
    t = if frame_ended (s c ++ buffer)
        then Emit "data" [VStr (trim (s c ++ buffer))] :: tail t
        else [].
Proof.
  intros Hlines Hdata Herror.
  unfold on_data, try_catch. unfold bind at 1. cbn [gets].
  unfold bind at 1. cbn [modify].
  fold (frame_ended (s c ++ buffer)).
  destruct (frame_ended (s c ++ buffer)) eqn:Hend; cbn [negb].
  - unfold bind at 1. cbn [modify]. unfold bind at 1. cbn [emit modify].
    unfold bind at 1. cbn [modify].
    change (set_s ""
         (log (Emit "data" [VStr (trim (s c ++ buffer))])
            (set_s (trim (s c ++ buffer)) (set_s (s c ++ buffer) c))))
      with (set_s "" (emits [Emit "data" [VStr (trim (s c ++ buffer))]] c)).
    match goal with |- context [for_each ?f ?l tt ?c3] =>
      destruct (Hlines l c3 eq_refl) as (t & Ht & Hf & HP);
      destruct (for_each f l tt c3) as [[[]|e|] c4] eqn:Hloop
    end; cbn [fst snd] in *; [| |done]; subst c4.
    + exists (Emit "data" [VStr (trim (s c ++ buffer))] :: t).
      split; [|split; [by constructor|done]].
      by rewrite <- set_s_emits, <- emits_app.
    + exists (Emit "data" [VStr (trim (s c ++ buffer))]
                :: t ++ [EmitError e])%list.
      split; [|split; [|done]].
      * unfold emit_error, modify.
        rewrite <- set_s_emits, <- emits_app.
        change (log ?e (set_s ?x ?y)) with (set_s x (emits [e] y)).
        by rewrite <- emits_app.
      * constructor; [done|]. apply Forall_app. split; [done|].
        by constructor.
  - exists []. by split.
Qed.

Lemma on_data_result (buffer : string) (c : Stream) :
  exists t,
    on_data buffer c =
      (Ok tt,
       set_s (if frame_ended (s c ++ buffer) then "" else s c ++ buffer)
         (emits t c)) /\
    t = if frame_ended (s c ++ buffer)
        then Emit "data" [VStr (trim (s c ++ buffer))] :: tail t
        else [].
Proof.
  destruct (on_data_with (fun _ => True) buffer c) as (t & H & _ & Ht);
    try done; [|by exists t].
  intros lines c3 _.
  destruct (emitting_for_each (fun line (_ : unit) => parse_line line) lines
              (fun line acc => emitting_parse_line line) tt c3)
    as [[t Ht] Hf].
  exists t. repeat split; try done. by apply Forall_true.
Qed.

(** *** With and without a listener for ['error'] *)

Lemma on_data_heard (buffer : string) :
  StreamListener.on_data true buffer = on_data buffer.
Proof. reflexivity. Qed.

(** Without a listener the error of the [try] block leaves the handler. *)
Lemma on_data_unheard (buffer : string) (c : Stream) :
  StreamListener.on_data false buffer c = StreamListener.gather buffer c.
Proof.
  unfold StreamListener.on_data, try_catch.
  by destruct (StreamListener.gather buffer c) as [[[]|e|] c1].
Qed.

(** The [try] block of the handler. *)
Lemma gather_result (buffer : string) (c : Stream) :
  exists t,
    (StreamListener.gather buffer c).2 =
      set_s (if frame_ended (s c ++ buffer) then "" else s c ++ buffer)
        (emits t c) /\
    (StreamListener.gather buffer c).1 <> OutOfFuel /\
    (frame_ended (s c ++ buffer) = false ->
     (StreamListener.gather buffer c).1 = Ok tt) /\
    t = if frame_ended (s c ++ buffer)
        then Emit "data" [VStr (trim (s c ++ buffer))] :: tail t
        else [].
Proof.
  assert (StreamListener.gather buffer c =
          if frame_ended (s c ++ buffer)
          then for_each (fun line (_ : unit) => parse_line line)
                 (split (String "010" "") (trim (s c ++ buffer))) tt
                 (set_s ""
                    (emits [Emit "data" [VStr (trim (s c ++ buffer))]] c))
          else (Ok tt, set_s (s c ++ buffer) c)) as ->.
  { unfold StreamListener.gather. unfold bind at 1. cbn [gets].
    unfold bind at 1. cbn [modify].
    fold (frame_ended (s c ++ buffer)).
    by destruct (frame_ended (s c ++ buffer)). }
  destruct (frame_ended (s c ++ buffer)) eqn:Hend.
  - match goal with |- context [for_each ?f ?l tt ?c3] =>
      destruct (emitting_for_each f l
                  (fun line acc => emitting_parse_line line) tt c3)
        as [[t Ht] Hf]
    end.
    exists (Emit "data" [VStr (trim (s c ++ buffer))] :: t).
    split; [|by split].
    rewrite Ht. by rewrite <- set_s_emits, <- emits_app.
  - exists []. by repeat split.
Qed.

(** X16.  On a client with a listener for ['error'] the ['data'] handler
    never throws, whatever arrives: an error of the decoding is emitted as
    an ['error'] event.  On a client without such a listener the error of
    the decoding is thrown out of the handler.  Either way the handler
    changes nothing of the client but the text it gathers and the events
    emitted: until the text ends with a blank line, the text is kept,
    nothing is emitted and nothing is thrown; once it does, ['data'] is
    emitted first, with the text trimmed, and the gathering starts afresh,
    also when the decoding failed. *)
Theorem on_data_errors (heard : bool) (buffer : string) (c : Stream) :
  (heard = true -> (StreamListener.on_data heard buffer c).1 = Ok tt) /\
  (heard = false ->
   StreamListener.on_data heard buffer c = StreamListener.gather buffer c) /\
  (StreamListener.on_data heard buffer c).1 <> OutOfFuel /\
  (frame_ended (s c ++ buffer) = false ->
   StreamListener.on_data heard buffer c =
   (Ok tt, set_s (s c ++ buffer) c)) /\
  exists t,
    (StreamListener.on_data heard buffer c).2 =
      set_s (if frame_ended (s c ++ buffer) then "" else s c ++ buffer)
        (emits t c) /\
    t = if frame_ended (s c ++ buffer)
        then Emit "data" [VStr (trim (s c ++ buffer))] :: tail t
        else [].
Proof.
  destruct heard.
  - rewrite on_data_heard.
    destruct (on_data_result buffer c) as (t & Hresult & Ht).
    rewrite Hresult. split; [done|]. split; [done|]. split; [done|].
    split; [|by exists t].
    intros Hend. rewrite Hend in Ht |- *. by subst t.
  - rewrite on_data_unheard.
    destruct (gather_result buffer c) as (t & Hstate & Hf & Hok & Ht).
    split; [done|]. split; [done|]. split; [done|].
    split; [|by exists t].
    intros Hend. specialize (Hok Hend). rewrite Hend in Hstate, Ht.
    subst t. destruct (StreamListener.gather buffer c) as [res c1].
    cbn [fst snd] in *. by subst.
Qed.

Lemma cancel_prefix (p x y : string) : p ++ x = p ++ y -> x = y.
Proof.
  induction p as [|a p IH]; [done|].
  rewrite !HueClientMoreFacts.string_app_cons. intros H. apply IH.
  by injection H.
Qed.

Section Chunks.
Variable heard : bool.
Variable toString : list Byte.byte -> string.

(** X17.  The chunks of the stream are decoded one by one.  A chunk that
    does not end the frame is only added to the text gathered, and the
    next chunk is handled as if the texts of the two had arrived as one.
    So how the stream is cut into chunks makes no difference as long as
    the text of two chunks is the text of the whole, which is so for cuts
    between characters; when it is not (a cut within a character), the
    text gathered is another. *)
Theorem on_data_chunks (b1 b2 : list Byte.byte) (c : Stream) :
  frame_ended (s c ++ toString b1) = false ->
  StreamListener.on_buffer heard toString b1 c =
    (Ok tt, set_s (s c ++ toString b1) c) /\
  StreamListener.on_buffer heard toString b2
    (StreamListener.on_buffer heard toString b1 c).2 =
  StreamListener.on_data heard (toString b1 ++ toString b2) c /\
  (toString (b1 ++ b2) = toString b1 ++ toString b2 ->
   StreamListener.on_buffer heard toString b2
     (StreamListener.on_buffer heard toString b1 c).2 =
   StreamListener.on_buffer heard toString (b1 ++ b2) c) /\
  (toString (b1 ++ b2) <> toString b1 ++ toString b2 ->
   frame_ended (s c ++ toString b1 ++ toString b2) = false ->
   frame_ended (s c ++ toString (b1 ++ b2)) = false ->
   s (StreamListener.on_buffer heard toString b2
        (StreamListener.on_buffer heard toString b1 c).2).2 <>
   s (StreamListener.on_buffer heard toString (b1 ++ b2) c).2).
Proof.
  intros Hend. unfold StreamListener.on_buffer.
  destruct (on_data_errors heard (toString b1) c)
    as (_ & _ & _ & H1 & _).
  specialize (H1 Hend).
  assert (StreamListener.on_data heard (toString b2)
            (StreamListener.on_data heard (toString b1) c).2 =
          StreamListener.on_data heard (toString b1 ++ toString b2) c)
    as H2.
  { rewrite H1. cbn [snd].
    unfold StreamListener.on_data, try_catch, StreamListener.gather.
    unfold bind at 1. unfold bind at 7. cbn [gets set_s s].
    rewrite HueClientMoreFacts.string_app_assoc.
    reflexivity. }
  split; [exact H1|]. split; [exact H2|]. split.
  - intros ->. exact H2.
  - intros Hcut Hend2 Hend1. rewrite H2.
    destruct (on_data_errors heard (toString b1 ++ toString b2) c)
      as (_ & _ & _ & -> & _); [|done].
    destruct (on_data_errors heard (toString (b1 ++ b2)) c)
      as (_ & _ & _ & -> & _); [|done].
    cbn [snd set_s s]. intros Heq. by apply cancel_prefix in Heq.
Qed.

End Chunks.

Lemma parse_line_raw (line : string) (c : Stream) :
  raw (options c) = true ->
  (parse_line line c).1 <> OutOfFuel /\
  ((parse_line line c).2 = c \/
   exists container,
     (parse_line line c).2 = log (Emit "notification" [container]) c).
Proof.
  intros Hraw. unfold parse_line.
  destruct (String.eqb _ "data"); [|by split; [|left]].
  destruct (JSON_parse _) as [container|]; [|by split; [|left]].
  unfold bind, gets. rewrite Hraw. split; [done|]. right. by exists container.
Qed.

Lemma parse_lines_raw (lines : list string) (c : Stream) :
  raw (options c) = true ->
  exists t,
    (for_each (fun line (_ : unit) => parse_line line) lines tt c).2
      = emits t c /\
    (for_each (fun line (_ : unit) => parse_line line) lines tt c).1
      <> OutOfFuel /\
    Forall not_changed t.
Proof.
  revert c. induction lines as [|line lines IH]; intros c Hraw.
  - by exists [].
  - cbn [for_each]. unfold bind.
    destruct (parse_line_raw line c Hraw) as [Hf Hstate].
    destruct (parse_line line c) as [[[]|e|] c1]; cbn [fst snd] in *;
      [| |done].
    + assert (exists t1, c1 = emits t1 c /\ Forall not_changed t1)
        as (t1 & -> & Ht1).
      { destruct Hstate as [->|[container ->]]; [by exists []|].
        exists [Emit "notification" [container]]. split; [done|].
        by repeat constructor. }
      destruct (IH (emits t1 c)) as (t & Ht & Hfuel & Hall).
      { by rewrite options_emits. }
      exists (t1 ++ t)%list. rewrite emits_app. split; [done|].
      split; [done|]. by apply Forall_app.
    + destruct Hstate as [->|[container ->]]; [by exists []|].
      exists [Emit "notification" [container]]. split; [done|].
      split; [done|]. by repeat constructor.
Qed.

(** X18.  A client made with [raw] set never emits ['changed']: whatever
    arrives, the ['data'] handler emits only ['data'], ['notification']
    and ['error'] events. *)
Theorem raw_never_changed (buffer : string) (c : Stream) :
  raw (options c) = true ->
  exists t,
    (on_data buffer c).2 =
      set_s (if frame_ended (s c ++ buffer) then "" else s c ++ buffer)
        (emits t c) /\
    Forall not_changed t.
Proof.
  intros Hraw.
  destruct (on_data_with not_changed buffer c) as (t & -> & Ht & _);
    try done; [|by exists t].
  intros lines c3 Hoptions. apply parse_lines_raw. by rewrite Hoptions.
Qed.

End OnData.

Lemma on_data_errors_witness :
  (exists e c',
      StreamListener.on_data (rt := StreamSamples.light_runtime) false
        MoreStreamSamples.broken_frame StreamSamples.sample_stream =
      (Throw e, c') /\
      err_name e = "SyntaxError" /\ s c' = "") /\
  (exists c',
      StreamListener.on_data (rt := StreamSamples.light_runtime) true
        MoreStreamSamples.broken_frame StreamSamples.sample_stream =
      (Ok tt, c') /\
      last (effects c') =
        Some (EmitError (plain_error "SyntaxError" [VStr "JSON.parse"]))).
Proof.
  split.
  - destruct (on_data_errors (rt := StreamSamples.light_runtime) false
                MoreStreamSamples.broken_frame StreamSamples.sample_stream)
      as (_ & H & _).
    eexists _, _. split; [rewrite (H eq_refl); vm_compute; reflexivity|].
    split; reflexivity.
  - destruct (on_data_errors (rt := StreamSamples.light_runtime) true
                MoreStreamSamples.broken_frame StreamSamples.sample_stream)
      as (H & _).
    specialize (H eq_refl).
    destruct (StreamListener.on_data true MoreStreamSamples.broken_frame
                StreamSamples.sample_stream) as [res c'] eqn:E.
    cbn [fst] in H. subst res. exists c'. split; [done|].
    vm_compute in E. injection E as <-. reflexivity.
Defined.

Lemma on_data_chunks_witness :
  StreamListener.on_buffer (rt := StreamSamples.light_runtime) true
    MoreStreamSamples.ascii_toString MoreStreamSamples.second_chunk
    (StreamListener.on_buffer (rt := StreamSamples.light_runtime) true
       MoreStreamSamples.ascii_toString MoreStreamSamples.first_chunk
       StreamSamples.sample_stream).2 =
  StreamListener.on_buffer (rt := StreamSamples.light_runtime) true
    MoreStreamSamples.ascii_toString
    (MoreStreamSamples.first_chunk ++ MoreStreamSamples.second_chunk)
    StreamSamples.sample_stream.
Proof.
  destruct (on_data_chunks (rt := StreamSamples.light_runtime) true
              MoreStreamSamples.ascii_toString
              MoreStreamSamples.first_chunk MoreStreamSamples.second_chunk
              StreamSamples.sample_stream eq_refl) as (_ & _ & H & _).
  exact (H eq_refl).
Defined.

Lemma raw_never_changed_witness :
  exists t,
    (on_data (rt := StreamSamples.light_runtime)
       StreamSamples.light_update_frame MoreStreamSamples.raw_stream).2 =
    set_s "" (emits t MoreStreamSamples.raw_stream) /\
    Forall not_changed t.
Proof.
  exact (raw_never_changed (rt := StreamSamples.light_runtime)
           StreamSamples.light_update_frame MoreStreamSamples.raw_stream
           eq_refl).
Defined.

(** ** _parseContainer and _parseUpdate2 *)

Lemma prop_member (v : value) (key : string) (c : Stream) :
  nullish v = false -> prop v key c = (Ok (member v key), c).
Proof. intros H. unfold prop. by rewrite H. Qed.

Section Decoding.
Context {rt : Runtime}.

Lemma for_each_emit {A} (event_of : A -> Effect) (body : A -> M Stream unit)
    (l : list A) (c : Stream) :
  Forall (fun x => forall c, body x c = (Ok tt, log (event_of x) c)) l ->
  for_each (fun x (_ : unit) => body x) l tt c =
  (Ok tt, emits (map event_of l) c).
Proof.
  intros Hl. revert c. induction Hl as [|x l Hx Hl IH]; intros c; [done|].
  cbn [for_each map]. unfold bind. by rewrite Hx, IH.
Qed.

(** X19.  [_parseContainer] passes on what it does not decode: for a
    container of objects whose type is not ['update'], it emits one
    ['notification'] for each, with the object as it is, in their order. *)
Theorem parseContainer_passes_on (objs : list value) (c : Stream) :
  Forall opaque objs ->
  _parseContainer (VArr objs) c =
  (Ok tt, emits (map (fun obj => Emit "notification" [obj]) objs) c).
Proof.
  intros Hobjs. unfold _parseContainer. unfold bind at 1. cbn [iterate ret].
  apply (for_each_emit (fun obj => Emit "notification" [obj])).
  eapply Forall_impl; [exact Hobjs|].
  intros obj [Hobj Htype] c'. unfold bind, prop. rewrite Hobj. cbn [ret].
  by rewrite Htype.
Qed.

Lemma field_app_fresh (key : string) (v : value)
    (pre post : list (string * value)) :
  key ∉ map fst pre ->
  field key (pre ++ (key, v) :: post) = Some v.
Proof.
  induction pre as [|[k w] pre IH]; intros Hfresh; cbn [app field].
  - by rewrite String.eqb_refl.
  - apply not_elem_of_cons in Hfresh as [Hne Hfresh]. cbn [fst] in Hne.
    assert (String.eqb k key = false) as -> by (by apply String.eqb_neq).
    by apply IH.
Qed.

Lemma obj_set_fresh (key : string) (v : value) (o : list (string * value)) :
  key ∉ map fst o -> obj_set key v o = (o ++ [(key, v)])%list.
Proof.
  induction o as [|[k w] o IH]; intros Hfresh; cbn [obj_set app]; [done|].
  apply not_elem_of_cons in Hfresh as [Hne Hfresh]. cbn [fst] in Hne.
  assert (String.eqb k key = false) as -> by (by apply String.eqb_neq).
  by rewrite IH.
Qed.

Lemma attributes_keys (fields : list (string * value)) (key : string) :
  key ∈ map fst (attributes fields) -> key ∈ map fst fields.
Proof.
  unfold attributes. rewrite !list_elem_of_In, !in_map_iff.
  intros ([k v] & Hk & H). apply List.filter_In in H as [H _].
  by exists (k, v).
Qed.

Lemma attributes_fold (fields pre post : list (string * value)) :
  fields = (pre ++ post)%list ->
  NoDup (map fst fields) ->
  foldl (fun attr key =>
           if negb (existsb (String.eqb key) ["id"; "id_v1"; "owner"; "type"])
           then set_attribute key (member (VObj fields) key) attr else attr)
    (attributes pre) (map fst post) =
  attributes fields.
Proof.
  revert pre. induction post as [|[k v] post IH]; intros pre Hfields Hnodup.
  - rewrite app_nil_r in Hfields. by subst.
  - cbn [map foldl fst].
    assert (k ∉ map fst pre) as Hfresh.
    { rewrite Hfields, map_app in Hnodup.
      apply NoDup_app in Hnodup as (_ & Hdisjoint & _).
      intros Hk. apply (Hdisjoint k Hk). cbn [map fst]. by left. }
    assert (member (VObj fields) k = v) as ->.
    { cbn [member]. by rewrite Hfields, field_app_fresh. }
    fold (administrative k).
    assert ((if negb (administrative k)
             then set_attribute k v (attributes pre) else attributes pre)
            = attributes (pre ++ [(k, v)])) as ->.
    { unfold attributes at 3. rewrite List.filter_app. cbn [List.filter fst].
      fold (attributes pre). unfold passed_on, set_attribute.
      destruct (negb (administrative k)) eqn:Hk; cbn [andb];
        [|by rewrite app_nil_r].
      destruct (String.eqb k "__proto__"); cbn [negb];
        [by rewrite app_nil_r|].
      apply obj_set_fresh. intros Hin. by apply attributes_keys in Hin. }
    apply IH; [|done]. by rewrite <- app_assoc.
Qed.

Lemma parse_data2_attributes (obj : value) (fields : list (string * value))
    (c : Stream) :
  NoDup (map fst fields) ->
  parse_data2 obj (VObj fields) c =
  (Ok tt, log (changed2 obj (VObj fields)) c).
Proof.
  intros Hnodup. unfold parse_data2.
  unfold bind at 1. cbn [prop nullish ret]. unfold bind at 1. cbn [ret].
  unfold bind at 1. cbn [keys nullish ret own_keys].
  pose proof (attributes_fold fields [] fields eq_refl Hnodup) as H.
  change (attributes []) with (@nil (string * value)) in H.
  rewrite H. unfold changed2. by destruct (nonempty (attributes fields)).
Qed.

(** X20.  [_parseUpdate2] passes on every property of an entry but [id],
    [id_v1], [owner], [type] and [__proto__], with its value, in the order
    of the entry: for each entry of the update it emits ['changed'] with
    the resource ['/type/id'] and those properties, or, when there is
    none left, ['notification'] with the whole update.  A property
    [__proto__] of an entry, which [JSON.parse] makes like any other, is
    no property of what is emitted. *)
Theorem parseUpdate2_attributes (obj : value) (entries : list value)
    (c : Stream) :
  nullish obj = false ->
  member obj "data" = VArr entries ->
  Forall well_keyed entries ->
  _parseUpdate2 obj c = (Ok tt, emits (map (changed2 obj) entries) c).
Proof.
  intros Hobj Hdata Hentries. unfold _parseUpdate2.
  unfold bind at 1. rewrite prop_member, Hdata by done.
  unfold bind at 1. cbn [iterate ret].
  apply (for_each_emit (changed2 obj)).
  eapply Forall_impl; [exact Hentries|].
  intros data (fields & -> & Hnodup) c'. by apply parse_data2_attributes.
Qed.

End Decoding.

Lemma parseContainer_passes_on_witness :
  effects
    (_parseContainer (rt := StreamSamples.light_runtime)
       (VArr [VObj [("type", VStr "add")]; VObj [("type", VStr "delete")]])
       StreamSamples.sample_stream).2 =
  [Emit "notification" [VObj [("type", VStr "add")]];
   Emit "notification" [VObj [("type", VStr "delete")]]].
Proof.
  rewrite (parseContainer_passes_on (rt := StreamSamples.light_runtime)
             [VObj [("type", VStr "add")]; VObj [("type", VStr "delete")]]
             StreamSamples.sample_stream).
  - reflexivity.
  - repeat constructor.
Defined.

Lemma parseUpdate2_attributes_witness :
  effects
    (_parseUpdate2 (rt := StreamSamples.light_runtime)
       MoreStreamSamples.light_update2 StreamSamples.sample_stream).2 =
  [Emit "changed"
     [VStr "/light/3"; VObj [("on", VObj [("on", VBool true)])]]] /\
  effects
    (_parseUpdate2 (rt := StreamSamples.light_runtime)
       MoreStreamSamples.proto_update2 StreamSamples.sample_stream).2 =
  [Emit "notification" [MoreStreamSamples.proto_update2]].
Proof.
  split.
  2: { rewrite (parseUpdate2_attributes (rt := StreamSamples.light_runtime)
                  MoreStreamSamples.proto_update2
                  [VObj [("id", VStr "3"); ("type", VStr "light");
                         ("__proto__", VObj [("on", VBool true)])]]
                  StreamSamples.sample_stream eq_refl eq_refl).
       - reflexivity.
       - constructor; [|constructor]. eexists. split; [reflexivity|].
         apply (bool_decide_unpack _). by vm_compute. }
  rewrite (parseUpdate2_attributes (rt := StreamSamples.light_runtime)
             MoreStreamSamples.light_update2
             [VObj [("id", VStr "3"); ("id_v1", VStr "/lights/1");
                    ("on", VObj [("on", VBool true)]);
                    ("owner", VObj [("rid", VStr "9")]);
                    ("type", VStr "light")]]
             StreamSamples.sample_stream eq_refl eq_refl).
  - reflexivity.
  - constructor; [|constructor]. eexists. split; [reflexivity|].
    apply (bool_decide_unpack _). by vm_compute.
Defined.

(** ** _parseUpdate1, entry by entry *)

Section Update1.
Context {rt : Runtime}.

Lemma log_emits (e : Effect) (c : Stream) : log e c = emits [e] c.
Proof. done. Qed.

Lemma parse_data1_events (obj data : value) (c : Stream) :
  match parse_data1 obj data c with
  | (Ok _, c') =>
      exists events,
        c' = emits events c /\ 1 <= length events <= 3 /\
        Forall change_or_notification events
  | (Throw _, c') => c' = c
  | (OutOfFuel, _) => False
  end.
Proof.
  unfold parse_data1. unfold bind at 1.
  destruct (reads_prop data "id_v1" c) as [Hc Hf].
  destruct (prop data "id_v1" c) as [[resource|e|] c1];
    cbn [fst snd] in *; subst c1; [|done|done].
  unfold bind at 1.
  destruct (reads_keys data c) as [Hc Hf'].
  destruct (keys data c) as [[ks|e|] c1];
    cbn [fst snd] in *; subst c1; [|done|done].
  unfold bind at 1.
  destruct (reads_for_each (parse_key obj data resource) ks
              (reads_parse_key obj data resource)
              {| attr := []; state := []; config := [] |} c) as [Hc Hf''].
  destruct (for_each (parse_key obj data resource) ks _ c) as [[ch|e|] c1];
    cbn [fst snd] in *; subst c1; [|done|done].
  cbv zeta.
  destruct (nullish resource), (nonempty (attr ch)), (nonempty (state ch)),
    (nonempty (config ch)); cbn [negb andb orb];
    unfold bind, emit, modify, ret; cbn [fst snd].
  all: rewrite ?log_emits, <- ?emits_app.
  all: eexists; (split; [reflexivity|]).
  all: split; [cbn [length app]; lia|].
  all: repeat first [apply Forall_nil_2 | apply Forall_cons_2; [cbn; (by left) || (by right)|]].
Qed.
Lemma parse_entries_events (obj : value) (entries : list value)
    (c c' : Stream) :
  for_each (fun data (_ : unit) => parse_data1 obj data) entries tt c
    = (Ok tt, c') ->
  exists events,
    c' = emits events c /\
    length entries <= length events <= 3 * length entries /\
    Forall change_or_notification events.
Proof.
  revert c. induction entries as [|data entries IH]; intros c.
  - cbn. intros H. inversion H. by exists [].
  - cbn [for_each]. unfold bind.
    pose proof (parse_data1_events obj data c) as Hdata.
    destruct (parse_data1 obj data c) as [[[]|e|] c1]; [|done|done].
    destruct Hdata as (t1 & -> & Hlen1 & Hall1). intros H.
    destruct (IH _ H) as (t & -> & Hlen & Hall).
    exists (t1 ++ t)%list. rewrite emits_app. split; [done|].
    split; [|by apply Forall_app].
    rewrite length_app. cbn [length]. lia.
Qed.

(** X21.  [_parseUpdate1] drops no entry of an update without a word:
    when it returns, it has emitted at least one event and at most three
    for each entry, each of them ['changed'] or ['notification'], and
    nothing else of the client has changed. *)
Theorem parseUpdate1_events (obj : value) (entries : list value)
    (c c' : Stream) :
  nullish obj = false ->
  member obj "data" = VArr entries ->
  _parseUpdate1 obj c = (Ok tt, c') ->
  exists events,
    c' = emits events c /\
    length entries <= length events <= 3 * length entries /\
    Forall change_or_notification events.
Proof.
  intros Hobj Hdata. unfold _parseUpdate1.
  unfold bind at 1. rewrite prop_member, Hdata by done.
  unfold bind at 1. cbn [iterate ret]. apply parse_entries_events.
Qed.

End Update1.

Lemma parseUpdate1_events_witness :
  exists events,
    (_parseUpdate1 (rt := StreamSamples.light_runtime)
       MoreStreamSamples.sensor_update StreamSamples.sample_stream).2 =
    emits events StreamSamples.sample_stream /\
    2 <= length events <= 6.
Proof.
  destruct (_parseUpdate1 (rt := StreamSamples.light_runtime)
              MoreStreamSamples.sensor_update StreamSamples.sample_stream)
    as [[[]|e|] c'] eqn:E;
    [|vm_compute in E; discriminate|vm_compute in E; discriminate].
  destruct (parseUpdate1_events (rt := StreamSamples.light_runtime)
              MoreStreamSamples.sensor_update _ StreamSamples.sample_stream c'
              eq_refl eq_refl E) as (events & H & Hlen & _).
  exists events. split; [exact H|exact Hlen].
Defined.

(** ** init *)

Section Init.
Context {rt : Runtime}.

Lemma init_done (response : value) (c : Stream) :
  buttonMap c <> None \/ version (options c) <> 1 ->
  init response c = (Ok tt, c).
Proof.
  intros H. unfold init, bind, gets.
  destruct (buttonMap c) as [m|]; [by rewrite andb_false_r|].
  destruct H as [H|H]; [done|]. apply Nat.eqb_neq in H. by rewrite H.
Qed.

(** One turn of the loop of [init]. *)
Lemma init_button (button : value) (m : gmap string float) (c : Stream) :
  buttonMap c = Some m ->
  (id <- prop button "id" ;;
   metadata <- prop button "metadata" ;;
   control_id <- prop metadata "control_id" ;;
   set_button (ToString id) (ToNumber control_id * 1000)%float) c =
  match button_entry button with
  | Some _ => (Ok tt, set_buttonMap (button_map [button] m) c)
  | None =>
      (Throw (TypeError
                [VStr "Cannot read properties of ";
                 if nullish button then button
                 else member button "metadata"]),
       c)
  end.
Proof.
  intros Hm. unfold button_map, button_entry. cbn [foldl].
  unfold bind at 1. unfold prop at 1.
  destruct (nullish button) eqn:Hbutton; cbn [orb]; [done|].
  cbn [ret]. unfold bind at 1. unfold prop at 1. rewrite Hbutton. cbn [ret].
  unfold bind at 1. unfold prop.
  destruct (nullish (member button "metadata")); [done|]. cbn [ret].
  unfold set_button, bind, gets. rewrite Hm.
  destruct (String.eqb _ "__proto__"); [|done].
  destruct c. cbn in Hm. by subst.
Qed.

Lemma button_map_app (pre rest : list value) (m : gmap string float) :
  button_map (pre ++ rest) m = button_map rest (button_map pre m).
Proof. apply foldl_app. Qed.

(** The loop of [init] over buttons that all have what it takes. *)
Lemma init_buttons (buttons : list value) (m : gmap string float)
    (c : Stream) :
  buttonMap c = Some m ->
  Forall (fun button => is_Some (button_entry button)) buttons ->
  for_each
    (fun button (_ : unit) =>
       id <- prop button "id" ;;
       metadata <- prop button "metadata" ;;
       control_id <- prop metadata "control_id" ;;
       set_button (ToString id) (ToNumber control_id * 1000)%float)
    buttons tt c =
  (Ok tt, set_buttonMap (button_map buttons m) c).
Proof.
  intros Hm Hall. revert m c Hm.
  induction Hall as [|button buttons [entry Hentry] _ IH]; intros m c Hm.
  - cbn [for_each button_map foldl ret]. destruct c. cbn in Hm. by subst.
  - cbn [for_each]. unfold bind at 1.
    rewrite (init_button button m c Hm), Hentry.
    rewrite (IH (button_map [button] m)) by done.
    by rewrite (button_map_app [button] buttons).
Qed.

(** The loop stops at the first turn that throws. *)
Lemma for_each_stops {A} (body : A -> unit -> M Stream unit)
    (pre : list A) (x : A) (rest : list A) (c c' c'' : Stream)
    (e : JsError) :
  for_each body pre tt c = (Ok tt, c') ->
  body x tt c' = (Throw e, c'') ->
  for_each body (pre ++ x :: rest) tt c = (Throw e, c'').
Proof.
  revert c. induction pre as [|y pre IH]; intros c Hpre Hx.
  - cbn in Hpre. injection Hpre as <-. cbn [app for_each]. unfold bind.
    by rewrite Hx.
  - cbn [app for_each] in *. unfold bind in *.
    destruct (body y tt c) as [[[]| |] c1]; try discriminate.
    by apply IH.
Qed.

Lemma init_fills (response : value) (c : Stream) :
  version (options c) = 1 -> buttonMap c = None ->
  init response c = fill_map response (set_buttonMap ∅ c).
Proof.
  intros Hversion Hmap. unfold init.
  unfold bind at 1. cbn [gets]. unfold bind at 1. cbn [gets].
  by rewrite Hversion, Hmap.
Qed.

(** However it ends, the client keeps a button map. *)
Lemma keeps_map_reads {A} (m : M Stream A) : reads m -> keeps_map m.
Proof. intros H c Hc. destruct (H c) as [-> Hf]. by split. Qed.

Lemma keeps_map_bind {A B} (m : M Stream A) (k : A -> M Stream B) :
  keeps_map m -> (forall a, keeps_map (k a)) -> keeps_map (bind m k).
Proof.
  intros Hm Hk c Hc. unfold bind. destruct (Hm c Hc) as [Hc1 Hf].
  destruct (m c) as [[a|e|] c1]; cbn [fst snd] in *; [|done|done].
  by apply Hk.
Qed.

Lemma keeps_map_for_each {A B} (body : A -> B -> M Stream B) (l : list A) :
  (forall x acc, keeps_map (body x acc)) ->
  forall acc, keeps_map (for_each body l acc).
Proof.
  intros Hbody. induction l as [|x l IH]; intros acc; cbn [for_each].
  - apply keeps_map_reads, reads_ret.
  - by apply keeps_map_bind.
Qed.

Lemma keeps_map_set_button (key : string) (x : float) :
  keeps_map (set_button key x).
Proof.
  intros c Hc. unfold set_button, bind, gets.
  destruct (buttonMap c) as [m|] eqn:Hm; [|done].
  destruct (String.eqb key "__proto__"); cbn; by rewrite ?Hm.
Qed.

Lemma fill_map_keeps (response : value) : keeps_map (fill_map response).
Proof.
  unfold fill_map.
  apply keeps_map_bind; [apply keeps_map_reads, reads_iterate|].
  intros buttons. apply keeps_map_bind; [|by intros _ c Hc].
  apply keeps_map_for_each. intros button [].
  repeat (apply keeps_map_bind; [apply keeps_map_reads, reads_prop|intros ?]).
  apply keeps_map_set_button.
Qed.

(** X22.  [init] is done once, whether it succeeds or not.  On a client
    for events in the style of the API v1 that has no button map, [init],
    once [client.get('/button')] has returned its response, first sets an
    empty button map and then fills it, button by button.
    When every button has an [id] and [metadata] to read, it returns
    with the map of all buttons and [requestId] 1.  At the first button
    without (or at a response that is no list), it throws, and the client
    keeps the map of the buttons before that one.  Either way a later
    call of [init] does nothing: a failed [init] is not made up for.  A
    client for the API v2 style, or with a button map, is left as it
    is. *)
Theorem init_once (response : value) (c : Stream) :
  (buttonMap c <> None \/ version (options c) <> 1 ->
   init response c = (Ok tt, c)) /\
  (version (options c) = 1 -> buttonMap c = None ->
   (forall buttons,
       response = VArr buttons ->
       Forall (fun button => is_Some (button_entry button)) buttons ->
       init response c =
       (Ok tt, set_requestId 1 (set_buttonMap (button_map buttons ∅) c))) /\
   (forall pre button rest,
       response = VArr (pre ++ button :: rest) ->
       Forall (fun button => is_Some (button_entry button)) pre ->
       button_entry button = None ->
       exists e,
         init response c = (Throw e, set_buttonMap (button_map pre ∅) c)) /\
   buttonMap (init response c).2 <> None) /\
  (init response c).1 <> OutOfFuel /\
  (forall response',
      init response' (init response c).2 = (Ok tt, (init response c).2)).
Proof.
  split; [apply init_done|]. split; [|split].
  - intros Hversion Hmap. split; [|split].
    + intros buttons -> Hall. rewrite (init_fills _ _ Hversion Hmap).
      unfold fill_map. unfold bind at 1. cbn [iterate ret]. unfold bind at 1.
      by rewrite (init_buttons buttons ∅).
    + intros pre button rest -> Hall Hbad.
      rewrite (init_fills _ _ Hversion Hmap).
      unfold fill_map. unfold bind at 1. cbn [iterate ret]. unfold bind at 1.
      eexists.
      erewrite (for_each_stops _ pre button rest); [reflexivity| |].
      * by apply (init_buttons pre ∅).
      * rewrite (init_button button (button_map pre ∅)) by done.
        by rewrite Hbad.
    + rewrite (init_fills _ _ Hversion Hmap). by apply fill_map_keeps.
  - destruct (decide (buttonMap c = None)) as [Hmap|Hmap];
      [|by rewrite init_done by (by left)].
    destruct (decide (version (options c) = 1)) as [Hversion|Hversion];
      [|by rewrite init_done by (by right)].
    rewrite (init_fills _ _ Hversion Hmap). by apply fill_map_keeps.
  - intros response'. apply init_done.
    destruct (decide (buttonMap c = None)) as [Hmap|Hmap].
    2: { rewrite init_done by (by left). by left. }
    destruct (decide (version (options c) = 1)) as [Hversion|Hversion].
    2: { rewrite init_done by (by right). by right. }
    left. rewrite (init_fills _ _ Hversion Hmap). by apply fill_map_keeps.
Qed.

End Init.

Lemma init_once_witness :
  (exists e,
      init (rt := Samples.text_runtime) MoreStreamSamples.broken_buttons
        MoreStreamSamples.new_stream =
      (Throw e,
       set_buttonMap {["a" := 1000%float]} MoreStreamSamples.new_stream)) /\
  init (rt := Samples.text_runtime)
    (VArr [VObj [("id", VStr "a");
                 ("metadata", VObj [("control_id", VNum 1)])]])
    (init (rt := Samples.text_runtime) MoreStreamSamples.broken_buttons
       MoreStreamSamples.new_stream).2 =
  (Ok tt,
   (init (rt := Samples.text_runtime) MoreStreamSamples.broken_buttons
      MoreStreamSamples.new_stream).2).
Proof.
  destruct (init_once (rt := Samples.text_runtime)
              MoreStreamSamples.broken_buttons MoreStreamSamples.new_stream)
    as (_ & H & Hlater).
  split; [|apply Hlater].
  destruct (H eq_refl eq_refl) as (_ & Hthrows & _).
  destruct (Hthrows
              [VObj [("id", VStr "a");
                     ("metadata", VObj [("control_id", VNum 1)])]]
              (VObj [("id", VStr "b")]) [] eq_refl)
    as [e He]; [by repeat constructor|done|].
  exists e. exact He.
Defined.

(** ** close, again *)

Lemma closed_closing_effects (more : list Effect) (c : Stream) :
  closing_effects (closed more c) = [].
Proof. done. Qed.

(** X23.  Closing a client that is closed does nothing at all, and with a
    [retryTime] of 0 the close of the socket does what a call of [close]
    by the user does: the client is closed and stays so, with no wait and
    no new request. *)
Theorem closed_stays_closed (retry : bool) (c : Stream) :
  retry && (0 <? retryTime (options c))%Z = false ->
  close retry c = (Ok tt, closed [] c) /\
  close retry (closed [] c) = (Ok tt, closed [] c) /\
  (retry = true -> on_socket_close c = (Ok tt, closed [] c)).
Proof.
  intros Hno. split; [by apply close_no_retry|]. split.
  - rewrite close_no_retry by done.
    unfold closed at 1. rewrite closed_closing_effects.
    cbn [closed options request listening requestId buttonMap s sockets
         effects app]. by rewrite (app_nil_r (effects c ++ _)).
  - intros ->. unfold on_socket_close, try_catch.
    by rewrite close_no_retry.
Qed.

Lemma closed_stays_closed_witness :
  effects (on_socket_close MoreStreamSamples.no_retry_stream).2 =
  [Destroyed 1;
   Emit "closed" [VStr "https://192.168.1.2/eventstream/clip/v2"]].
Proof.
  destruct (closed_stays_closed true MoreStreamSamples.no_retry_stream
              eq_refl) as (_ & _ & H).
  rewrite (H eq_refl). reflexivity.
Defined.

End EventStreamClientMoreFacts.

(* ===================================================================== *)
(** * Properties of lib/HueDiscovery.js *)
(* ===================================================================== *)

Module HueDiscoveryFacts.
Import JS Eff Eff.Notations HueDiscovery DiscoveryReference.

Lemma without_subset (host x : string) (l : list string) :
  x ∈ without host l -> x ∈ l.
Proof.
  induction l as [|h l IH]; cbn [without]; [done|].
  destruct (String.eqb h host).
  - intros H. by right.
  - intros H. apply elem_of_cons in H as [->|H]; [by left|].
    right. by apply IH.
Qed.

Lemma without_NoDup (host : string) (l : list string) :
  NoDup l -> NoDup (without host l) /\ host ∉ without host l.
Proof.
  induction 1 as [|h l Hh Hl IH]; cbn [without].
  - split; [constructor|]. by apply not_elem_of_nil.
  - destruct (String.eqb h host) eqn:E.
    + apply String.eqb_eq in E as ->. by split.
    + apply String.eqb_neq in E. destruct IH as [IH1 IH2]. split.
      * constructor; [|done]. intros H. by apply Hh, (without_subset host).
      * apply not_elem_of_cons. by split.
Qed.

Lemma without_other (host x : string) (l : list string) :
  x ∈ l -> x <> host -> x ∈ without host l.
Proof.
  induction l as [|h l IH]; cbn [without]; [done|].
  intros H Hne. destruct (String.eqb h host) eqn:E.
  - apply String.eqb_eq in E as ->.
    by apply elem_of_cons in H as [->|H].
  - apply elem_of_cons in H as [->|H]; [by left|]. right. by apply IH.
Qed.

Section WithPatterns.
Variable has_bridgeid : value -> bool.
Variable is_deconz : value -> bool.

Lemma sound_start : sound has_bridgeid is_deconz start.
Proof.
  unfold sound, start. cbn [jobs bridgeMap]. split; [constructor|].
  split; [by intros host H%elem_of_nil|]. intros host v H.
  by rewrite lookup_empty in H.
Qed.

Lemma sound_found (name : string) (id : value) (host : string)
    (d : Discovery) :
  nullish id = false ->
  sound has_bridgeid is_deconz d ->
  sound has_bridgeid is_deconz (_found name id host d).2.
Proof.
  intros Hid (Hnodup & Hjobs & Hdone).
  unfold _found, bind, emit, modify, gets. cbn [fst snd].
  change (entry host (log (Emit "found" [VStr name; id; VStr host]) d))
    with (entry host d).
  destruct (nullish (entry host d)) eqn:Hentry; cbn [fst snd].
  - assert (host ∉ jobs d) as Hfresh.
    { intros H. specialize (Hjobs host H). congruence. }
    unfold sound. cbn [jobs bridgeMap set_jobs set_bridgeMap log].
    split; [|split].
    + apply NoDup_app. split; [done|]. split; [|apply NoDup_singleton].
      intros x Hx Hx'. apply list_elem_of_singleton in Hx' as ->. done.
    + intros host' H. unfold entry at 1.
      cbn [bridgeMap set_jobs set_bridgeMap log].
      destruct (decide (host' = host)) as [->|Hne].
      * by rewrite lookup_insert_eq.
      * rewrite lookup_insert_ne by done.
        apply elem_of_app in H as [H|H]; [by apply Hjobs|].
        by apply list_elem_of_singleton in H.
    + intros host' v Hv Hnot. apply not_elem_of_app in Hnot as [Hnot Hne].
      apply not_elem_of_cons in Hne as [Hne _].
      rewrite lookup_insert_ne in Hv by done. by apply (Hdone host').
  - done.
Qed.

(** How a job ends: the entry of its host is taken out, or it is a body
    that [config] returned. *)
Lemma job_ends_state (host : string) (o : Outcome) (d : Discovery) :
  exists m e,
    (job_ends has_bridgeid is_deconz host o d).2 =
      {| bridgeMap := m; jobs := jobs d; effects := e |} /\
    (m = delete host (bridgeMap d) \/
     exists body,
       verified has_bridgeid is_deconz body = true /\
       m = <[host := body]> (bridgeMap d)).
Proof.
  unfold job_ends, try_catch, config.
  destruct o as [body request|error].
  - destruct (invalid has_bridgeid body) eqn:Hinvalid.
    { unfold bind, emit_error, modify, throw, ret.
      cbn [with_request err_request snd].
      destruct (nullish request); eexists _, _; (split; [reflexivity|by left]). }
    destruct (is_deconz (member body "bridgeid")) eqn:Hdeconz.
    { unfold bind, emit_error, modify, throw, ret.
      cbn [with_request err_request snd].
      destruct (nullish request); eexists _, _; (split; [reflexivity|by left]). }
    unfold bind, modify, ret. cbn [snd]. eexists _, _. split; [reflexivity|].
    right. exists body. split; [|done].
    unfold verified. by rewrite Hinvalid, Hdeconz.
  - unfold bind, throw, emit_error, modify, ret. cbn [snd].
    destruct (nullish (err_request error)); eexists _, _;
      (split; [reflexivity|by left]).
Qed.

Lemma sound_job_ends (host : string) (o : Outcome) (d : Discovery) :
  host ∈ jobs d ->
  sound has_bridgeid is_deconz d ->
  sound has_bridgeid is_deconz
    (job_ends has_bridgeid is_deconz host o
       (set_jobs (without host (jobs d)) d)).2.
Proof.
  intros Hhost (Hnodup & Hjobs & Hdone).
  destruct (without_NoDup host (jobs d) Hnodup) as [Hnodup' Hgone].
  destruct (job_ends_state host o (set_jobs (without host (jobs d)) d))
    as (m & e & -> & Hm).
  cbn [jobs bridgeMap set_jobs] in *.
  assert (forall host', host' <> host -> m !! host' = bridgeMap d !! host')
    as Hsame.
  { intros host' Hne. destruct Hm as [->|(body & _ & ->)].
    - by rewrite lookup_delete_ne.
    - by rewrite lookup_insert_ne. }
  assert (forall v, m !! host = Some v ->
                    verified has_bridgeid is_deconz v = true) as Hhere.
  { intros v Hv. destruct Hm as [->|(body & Hbody & ->)].
    - by rewrite lookup_delete_eq in Hv.
    - rewrite lookup_insert_eq in Hv. by simplify_eq. }
  unfold sound. cbn [jobs bridgeMap]. split; [done|]. split.
  - intros host' H. unfold entry. cbn [bridgeMap].
    assert (host' <> host) as Hne by (by intros ->).
    rewrite Hsame by done. apply (Hjobs host').
    by apply (without_subset host).
  - intros host' v Hv Hnot.
    destruct (decide (host' = host)) as [->|Hne]; [by apply Hhere|].
    rewrite Hsame in Hv by done.
    apply (Hdone host' v Hv).
    intros H. apply Hnot. by apply without_other.
Qed.

Lemma sound_step (d : Discovery) (ev : Event) :
  announced ev ->
  sound has_bridgeid is_deconz d ->
  sound has_bridgeid is_deconz (step has_bridgeid is_deconz d ev).
Proof.
  intros Hev Hd. destruct ev as [name id host|host o]; cbn [step].
  - by apply sound_found.
  - destruct (bool_decide (host ∈ jobs d)) eqn:E; [|done].
    apply bool_decide_eq_true in E. by apply sound_job_ends.
Qed.

Lemma sound_run (events : list Event) (d : Discovery) :
  Forall announced events ->
  sound has_bridgeid is_deconz d ->
  sound has_bridgeid is_deconz (run has_bridgeid is_deconz events d).
Proof.
  intros Hevents. revert d.
  induction Hevents as [|ev events Hev Hevents IH]; intros d Hd; [done|].
  cbn [run foldl]. apply IH. by apply sound_step.
Qed.

(** X24.  [discover] hands back verified bridges only, each verified once
    at a time: while bridges are found (with an id) and the requests for
    their configuration come to an end, in any order, no host has two
    such requests under way, and once none is under way every entry of
    the bridge map is a body that [config] returned: an object with
    [apiversion], [name] and [swversion] strings and a bridge id, that is
    no deCONZ gateway. *)
Theorem discover_returns_verified (events : list Event) :
  Forall announced events ->
  let d := run has_bridgeid is_deconz events start in
  NoDup (jobs d) /\
  (jobs d = [] ->
   map_Forall (fun _ body => verified has_bridgeid is_deconz body = true)
     (bridgeMap d)).
Proof.
  intros Hevents d.
  destruct (sound_run events start Hevents sound_start)
    as (Hnodup & _ & Hdone).
  split; [done|]. intros Hnone host body Hbody.
  apply (Hdone host body Hbody). fold d. rewrite Hnone.
  apply not_elem_of_nil.
Qed.

End WithPatterns.

Lemma discover_returns_verified_witness :
  let d := run DiscoverySamples.sample_has_bridgeid
             DiscoverySamples.sample_is_deconz
             DiscoverySamples.sample_events start in
  jobs d = [] /\
  bridgeMap d = {["192.168.1.2" := DiscoverySamples.sample_config]} /\
  map_Forall
    (fun _ body =>
       verified DiscoverySamples.sample_has_bridgeid
         DiscoverySamples.sample_is_deconz body = true)
    (bridgeMap d).
Proof.
  cbv zeta.
  destruct (discover_returns_verified DiscoverySamples.sample_has_bridgeid
              DiscoverySamples.sample_is_deconz
              DiscoverySamples.sample_events) as [_ H].
  - repeat constructor.
  - split; [reflexivity|]. split; [by vm_compute|]. by apply H.
Defined.

(** ** The host of a bridge *)

Lemma split_from_until (ch : ascii) (s1 s2 cur : string) :
  without_char ch s1 = true ->
  split_from (String ch "") 0 cur (s1 ++ String ch s2) =
  (cur ++ s1) :: split_from (String ch "") 0 "" s2.
Proof.
  revert cur. induction s1 as [|a s1 IH]; intros cur Hfree.
  - rewrite HueClientMoreFacts.string_app_nil_r.
    change ("" ++ String ch s2) with (String ch s2).
    cbn [split_from String.prefix String.length Nat.sub].
    destruct (ascii_dec ch ch) as [_|Hne]; [|done].
    by assert (String.prefix "" s2 = true) as -> by (by destruct s2).
  - cbn [without_char] in Hfree. apply andb_true_iff in Hfree as [Ha Hfree].
    apply negb_true_iff, Ascii.eqb_neq in Ha.
    rewrite HueClientMoreFacts.string_app_cons.
    cbn [split_from String.prefix String.length Nat.sub].
    destruct (ascii_dec ch a) as [->|_]; [done|].
    rewrite IH by done. by rewrite HueClientMoreFacts.string_app_assoc.
Qed.

Lemma split_from_last (ch : ascii) (s cur : string) :
  without_char ch s = true ->
  split_from (String ch "") 0 cur s = [cur ++ s].
Proof.
  revert cur. induction s as [|a s IH]; intros cur Hfree.
  - by rewrite HueClientMoreFacts.string_app_nil_r.
  - cbn [without_char] in Hfree. apply andb_true_iff in Hfree as [Ha Hfree].
    apply negb_true_iff, Ascii.eqb_neq in Ha.
    cbn [split_from String.prefix String.length Nat.sub].
    destruct (ascii_dec ch a) as [->|_]; [done|].
    rewrite IH by done. by rewrite HueClientMoreFacts.string_app_assoc.
Qed.

Section Hosts.
Context {rt : Runtime}.
Variable parseInt : value -> float.


End Hosts.


End HueDiscoveryFacts.

(* ===================================================================== *)
(** * Properties of lib/HueError.js *)
(* ===================================================================== *)

Module HueErrorFacts.
Import JS Eff HueClient HueError.

Section WithRuntime.
Context {rt : Runtime}.

(** X26.  A [HueError] made from an ["error"] object of the API v1 (one
    with a [type]) and the error that [request] throws and emits for the
    same object agree on [type], [description] and [nonCritical], and on
    the text of the message when the [address] is not empty; for an empty
    [address] the message of the [HueError] starts with ['api error'] and
    that of [request] with [': api error'].  From an error object without
    [type] (API v2) the [HueError] takes the [description] as message and
    sets neither [type] nor [nonCritical]. *)
Theorem HueError_and_request (e response req : value) :
  nullish e = false ->
  nullish response = false ->
  (nullish (member e "type") = false ->
   exists error,
     new e response = Some error /\
     type error = err_type (api_error req e) /\
     description error = err_description (api_error req e) /\
     nonCritical error = err_nonCritical (api_error req e) /\
     exists pieces,
       message error = Template pieces /\
       (is_string "" (member e "address") = false ->
        text pieces = text (err_message (api_error req e))) /\
       (member e "address" = VStr "" ->
        text (err_message (api_error req e)) = ": " ++ text pieces)) /\
  (nullish (member e "type") = true ->
   exists error,
     new e response = Some error /\
     message error = Passed (member e "description") /\
     type error = VUndef /\ nonCritical error = VUndef).
Proof.
  intros He Hresponse. unfold new. rewrite He, Hresponse. cbn [orb].
  split; intros Htype; rewrite Htype; cbn [negb].
  - eexists. split; [reflexivity|]. cbn [type description nonCritical message].
    split; [done|]. split; [done|]. split; [done|].
    eexists. split; [reflexivity|]. unfold api_error. cbn [err_message].
    split.
    + intros ->. cbn [negb]. unfold text. cbn [map String.concat ToString].
      reflexivity.
    + intros ->. cbn [is_string String.eqb negb]. unfold text.
      cbn [map String.concat ToString]. reflexivity.
  - eexists. by split.
Qed.

End WithRuntime.

Lemma HueError_and_request_witness :
  exists error,
    new (VObj [("type", VNum 7); ("address", VStr "/lights/1/state/bri");
               ("description", VStr "invalid value")])
        (VObj [("statusCode", VNum 200)]) = Some error /\
    nonCritical error = VBool true /\
    statusCode error = VNum 200.
Proof.
  destruct (HueError_and_request (rt := Samples.text_runtime)
              (VObj [("type", VNum 7); ("address", VStr "/lights/1/state/bri");
                     ("description", VStr "invalid value")])
              (VObj [("statusCode", VNum 200)]) VUndef eq_refl eq_refl)
    as [H _].
  destruct (H eq_refl) as (error & Hnew & _ & _ & Hnc & _).
  exists error. split; [exact Hnew|]. split; [by rewrite Hnc|].
  by injection Hnew as <-.
Defined.

End HueErrorFacts.
